(** * Mira: the voice-query segmentation engine of [src/index.ts]

    A shallow embedding of [TranscriptionManager] (wake-word matching,
    the debounce timer, [processQuery] and the side-effect timers) and
    the properties of it that the specification states.

    Strings are JavaScript strings over code units below 256, held in
    Rocq's [string]; the numbers of a JSON value are integers ([Z]), and a
    number that a conversion gives is exact (the rounding of a double is
    not embedded). The session is a record
    of the fields of the manager and of what they act on; the handlers
    are functions on it, and [processQuery], which is asynchronous, is cut
    at its [await]s: what happens between two of them is one function, and
    a session is a sequence of events (a fragment, a timer that runs, a
    fetch or the agent that settles, the stop). *)

From Stdlib Require Import ZArith Ascii String List Bool Lia.
From stdpp Require Import base option countable gmap strings pretty.

Local Open Scope Z_scope.

(** ** Code units *)

Module Char.

Definition code (c : ascii) : N := N_of_ascii c.

(** [WhiteSpace] and [LineTerminator] of the language: what [\s] matches
    and what [trim] removes. *)
Definition is_space (c : ascii) : bool :=
  let n := code c in
  ((9 <=? n) && (n <=? 13) || (n =? 32) || (n =? 160))%N.

(** What [.] does not match (no [s] flag). *)
Definition is_line_terminator (c : ascii) : bool :=
  let n := code c in ((n =? 10) || (n =? 13))%N.

(** The class [[.,!?;:]]. *)
Definition is_punct (c : ascii) : bool :=
  match c with
  | "."%char | ","%char | "!"%char | "?"%char | ";"%char | ":"%char => true
  | _ => false
  end.

(** The class [[\s,\.]]. *)
Definition is_gap (c : ascii) : bool :=
  is_space c ||
  match c with ","%char | "."%char => true | _ => false end.

Definition is_upper (c : ascii) : bool :=
  let n := code c in
  ((65 <=? n) && (n <=? 90) ||
   (192 <=? n) && (n <=? 222) && negb (n =? 215))%N.

Definition is_lower (c : ascii) : bool :=
  let n := code c in
  ((97 <=? n) && (n <=? 122) ||
   (224 <=? n) && (n <=? 254) && negb (n =? 247))%N.

(** [String.prototype.toLowerCase] on one code unit. *)
Definition lower (c : ascii) : ascii :=
  if is_upper c then ascii_of_N (code c + 32) else c.

(** [Canonicalize] of the regular-expression semantics under the [i]
    flag: the upper-case form where it is a single code unit of the same
    range, the character itself otherwise. *)
Definition canonicalize (c : ascii) : ascii :=
  if is_lower c then ascii_of_N (code c - 32) else c.

Definition eqb_ci (a b : ascii) : bool :=
  Ascii.eqb (canonicalize a) (canonicalize b).

End Char.

(** ** String operations of the language that the source calls *)

Module Str.

Definition is_empty (s : string) : bool :=
  match s with EmptyString => true | String _ _ => false end.

Fixpoint all (p : ascii -> bool) (s : string) : bool :=
  match s with
  | EmptyString => true
  | String c s' => p c && all p s'
  end.

(** [s.toLowerCase()] *)
Fixpoint toLowerCase (s : string) : string :=
  match s with
  | EmptyString => EmptyString
  | String c s' => String (Char.lower c) (toLowerCase s')
  end.

(** [s.replace(/[.,!?;:]/g, '')] *)
Fixpoint removePunctuation (s : string) : string :=
  match s with
  | EmptyString => EmptyString
  | String c s' =>
      if Char.is_punct c then removePunctuation s'
      else String c (removePunctuation s')
  end.

(** [s.replace(/\s+/g, ' ')]: [in_run] tells that the previous code unit
    belonged to the run of white space being replaced. *)
Fixpoint collapse (in_run : bool) (s : string) : string :=
  match s with
  | EmptyString => EmptyString
  | String c s' =>
      if Char.is_space c then
        (if in_run then collapse true s'
         else String " "%char (collapse true s'))
      else String c (collapse false s')
  end.

Definition normalizeWhitespace (s : string) : string := collapse false s.

Fixpoint trimStart (s : string) : string :=
  match s with
  | EmptyString => EmptyString
  | String c s' => if Char.is_space c then trimStart s' else s
  end.

Fixpoint trimEnd (s : string) : string :=
  match s with
  | EmptyString => EmptyString
  | String c s' =>
      let r := trimEnd s' in
      if Char.is_space c && is_empty r then EmptyString else String c r
  end.

(** [s.trim()] *)
Definition trim (s : string) : string := trimEnd (trimStart s).

(** [w] is a prefix of [s], code unit by code unit. *)
Fixpoint startsWith (w s : string) : bool :=
  match w, s with
  | EmptyString, _ => true
  | String a w', String b s' => Ascii.eqb a b && startsWith w' s'
  | String _ _, EmptyString => false
  end.

(** [s.includes(w)] *)
Fixpoint includes (s w : string) : bool :=
  startsWith w s ||
  match s with
  | EmptyString => false
  | String _ s' => includes s' w
  end.

(** [s.split(' ')] *)
Fixpoint split_space (cur : string) (s : string) : list string :=
  match s with
  | EmptyString => [cur]
  | String c s' =>
      if Ascii.eqb c " "%char then cur :: split_space EmptyString s'
      else split_space (cur +:+ String c EmptyString) s'
  end.

(** [xs.join(sep)] on strings *)
Fixpoint join (sep : string) (xs : list string) : string :=
  match xs with
  | [] => EmptyString
  | [x] => x
  | x :: rest => x +:+ sep +:+ join sep rest
  end.

(** [s.slice(0, n)] for [0 <= n] *)
Fixpoint take (n : nat) (s : string) : string :=
  match n, s with
  | S n', String c s' => String c (take n' s')
  | _, _ => EmptyString
  end.

(** Code units that lowering leaves alone, and those outside [[.,!?;:]]. *)
Definition lower_fixed (c : ascii) : bool := Ascii.eqb (Char.lower c) c.
Definition not_punct (c : ascii) : bool := negb (Char.is_punct c).

(** [tidy prev s]: every white-space character of [s] is a single space
    that does not follow another one; [prev] tells whether [s] itself
    follows a white-space character. *)
Fixpoint tidy (prev : bool) (s : string) : bool :=
  match s with
  | EmptyString => true
  | String c s' =>
      if Char.is_space c then Ascii.eqb c " "%char && negb prev && tidy true s'
      else tidy false s'
  end.

End Str.

(** ** Wake words ([explicitWakeWords]) and their matching *)

Module Wake.


Definition explicitWakeWords : list string := [
  "hey mira"; "he mira"; "hey mara"; "he mara"; "hey mirror"; "he mirror";
  "hey miara"; "he miara"; "hey mia"; "he mia"; "hey mural"; "he mural";
  "hey amira"; "hey myra"; "he myra"; "hay mira"; "hai mira"; "hey-mira";
  "he-mira"; "heymira"; "heymara"; "hey mirah"; "he mirah"; "hey meera"; "he meera";
  "Amira"; "amira"; "a mira"; "a mirror"; "hey miller"; "he miller"; "hey milla"; "he milla"; "hey mila"; "he mila";
  "hey miwa"; "he miwa"; "hey mora"; "he mora"; "hey moira"; "he moira";
  "hey miera"; "he miera"; "hey mura"; "he mura"; "hey maira"; "he maira";
  "hey meara"; "he meara"; "hey mara"; "he mara"; "hey mina"; "he mina";
  "hey mirra"; "he mirra"; "hey mir"; "he mir"; "hey miro"; "he miro";
  "hey miruh"; "he miruh"; "hey meerah"; "he meerah"; "hey meira"; "he meira";
  "hei mira"; "hi mira"; "hey mere"; "he mere"; "hey murra"; "he murra";
  "hey mera"; "he mera"; "hey neera"; "he neera"; "hey murah"; "he murah";
  "hey mear"; "he mear"; "hey miras"; "he miras"; "hey miora"; "he miora"; "hey miri"; "he miri";
  "hey maura"; "he maura"; "hey maya"; "he maya"; "hey moora"; "he moora";
  "hey mihrah"; "he mihrah"; "ay mira"; "ey mira"; "yay mira"; "hey mihra";
  "hey mera"; "hey mira"; "hey mila"; "hey mirra"
].

(** The cleaning of [handleTranscription] and of [endsWithWakeWord]:
    lowercase, remove punctuation, normalize white space, trim. *)
Definition cleanText (text : string) : string :=
  Str.trim (Str.normalizeWhitespace
    (Str.removePunctuation (Str.toLowerCase text))).

(** [explicitWakeWords.some(word => cleanedText.includes(word))] *)
Definition hasWakeWord (cleanedText : string) : bool :=
  existsb (Str.includes cleanedText) explicitWakeWords.

(** *** [endsWithWakeWord] *)

(** The characters that [endsWithWakeWord] escapes, [[-/\\^$*+?.()|[\]{}]],
    and those that [removeWakeWord] escapes, the same without [-] and [/].
    An escaped character stands for itself in the pattern. *)
Definition is_special (c : ascii) : bool :=
  match c with
  | "-"%char | "/"%char | "\"%char | "^"%char | "$"%char | "*"%char
  | "+"%char | "?"%char | "."%char | "("%char | ")"%char | "|"%char
  | "["%char | "]"%char | "{"%char | "}"%char => true
  | _ => false
  end.

(** The whole of [s] is [w], ignoring case. *)
Fixpoint equals_ci (w s : string) : bool :=
  match w, s with
  | EmptyString, EmptyString => true
  | String a w', String b s' => Char.eqb_ci a b && equals_ci w' s'
  | _, _ => false
  end.

(** [new RegExp(word + '$', 'i').test(s)] for a word that stands for
    itself: some suffix of [s] is [word], ignoring case. *)
Fixpoint test_at_end (word s : string) : bool :=
  equals_ci word s ||
  match s with
  | EmptyString => false
  | String _ s' => test_at_end word s'
  end.

Definition endsWithWakeWord (text : string) : bool :=
  let cleanedText := cleanText text in
  existsb (fun word => test_at_end word cleanedText) explicitWakeWords.

(** *** [removeWakeWord] *)

(** [wakePatterns]: each wake word split at its spaces; between two pieces
    the pattern has [[\s,\.]*]. *)
Definition wakePatterns : list (list string) :=
  map (Str.split_space EmptyString) explicitWakeWords.

(** A literal piece at the head of [s], ignoring case: what is left of [s]. *)
Fixpoint match_literal (piece s : string) : option string :=
  match piece, s with
  | EmptyString, _ => Some s
  | String a piece', String b s' =>
      if Char.eqb_ci a b then match_literal piece' s' else None
  | String _ _, EmptyString => None
  end.

(** [[\s,\.]*], greedy. *)
Fixpoint skip_gap (s : string) : string :=
  match s with
  | EmptyString => EmptyString
  | String c s' => if Char.is_gap c then skip_gap s' else s
  end.

(** One alternative at the head of [s]. No piece of a wake word starts
    with a character of the gap class ([wakePatterns_start_outside_gap] below),
    so the greedy gap is the only one after which a piece can match. *)
Fixpoint match_pattern (pieces : list string) (s : string) : option string :=
  match pieces with
  | [] => Some s
  | [piece] => match_literal piece s
  | piece :: rest =>
      match match_literal piece s with
      | Some s1 => match_pattern rest (skip_gap s1)
      | None => None
      end
  end.

(** [(?:p1|p2|...)]: the first alternative, in the order of the list, that
    matches at the head of [s]. *)
Fixpoint match_alternatives (pats : list (list string)) (s : string)
  : option string :=
  match pats with
  | [] => None
  | p :: pats' =>
      match match_pattern p s with
      | Some rest => Some rest
      | None => match_alternatives pats' s
      end
  end.

(** [.*?(?:...)[\s,\.]*] from the head of [s]: the lazy [.*?] gives way to
    the alternatives at the first position where one matches, and does not
    cross a line terminator. *)
Fixpoint match_wakeRegex (pats : list (list string)) (s : string)
  : option string :=
  match match_alternatives pats s with
  | Some rest => Some (skip_gap rest)
  | None =>
      match s with
      | EmptyString => None
      | String c s' =>
          if Char.is_line_terminator c then None else match_wakeRegex pats s'
      end
  end.

(** [text.replace(wakeRegex, '')]: the leftmost match is removed (the
    regular expression has no [g] flag); without a match [text] is kept. *)
Fixpoint replace_wakeRegex (pats : list (list string)) (text : string)
  : string :=
  match match_wakeRegex pats text with
  | Some rest => rest
  | None =>
      match text with
      | EmptyString => EmptyString
      | String c text' => String c (replace_wakeRegex pats text')
      end
  end.

Definition removeWakeWord (text : string) : string :=
  Str.trim (replace_wakeRegex wakePatterns text).

End Wake.

Import Wake.

(** ** Values that cross the boundary as JSON *)

Module JS.

(** A JSON value as far as the code looks into it: the primitives, and
    [JUndefined] for a property that is not there. Arrays and objects
    nested inside a property are not embedded. *)
Inductive JVal :=
| JUndefined
| JNull
| JBool (b : bool)
| JNum (n : Z)
| JStr (s : string).

#[global] Instance JVal_eq_dec : EqDecision JVal.
Proof. solve_decision. Defined.

Definition JVal_encode (v : JVal) : unit + unit + bool + Z + string :=
  match v with
  | JUndefined => inl (inl (inl (inl tt)))
  | JNull => inl (inl (inl (inr tt)))
  | JBool b => inl (inl (inr b))
  | JNum n => inl (inr n)
  | JStr s => inr s
  end.

Definition JVal_decode (x : unit + unit + bool + Z + string) : JVal :=
  match x with
  | inl (inl (inl (inl _))) => JUndefined
  | inl (inl (inl (inr _))) => JNull
  | inl (inl (inr b)) => JBool b
  | inl (inr n) => JNum n
  | inr s => JStr s
  end.

#[global] Instance JVal_countable : Countable JVal.
Proof.
  apply (inj_countable' JVal_encode JVal_decode).
  intros []; reflexivity.
Defined.

(** [if (v)], [!v], [v ? a : b] *)
Definition truthy (v : JVal) : bool :=
  match v with
  | JUndefined | JNull => false
  | JBool b => b
  | JNum n => negb (n =? 0)
  | JStr s => negb (Str.is_empty s)
  end.

(** The string a template literal puts in place of [v]. *)
Definition to_string (v : JVal) : string :=
  match v with
  | JUndefined => "undefined"
  | JNull => "null"
  | JBool true => "true"
  | JBool false => "false"
  | JNum n => pretty n
  | JStr s => s
  end.

(** The element a [join] writes for [v]: nothing for [undefined] and
    [null]. *)
Definition join_element (v : JVal) : string :=
  match v with
  | JUndefined | JNull => EmptyString
  | _ => to_string v
  end.

(** A number that an operator gives: not a number, an infinity, or the
    finite value [m * 10^e]. *)
Inductive Number :=
| NaN
| Infinite (negative : bool)
| Finite (m e : Z).

(** The value of [c] as a digit in [base], when it is one. *)
Definition digit (base : Z) (c : ascii) : option Z :=
  let n := Z.of_N (Char.code c) in
  let value :=
    if (48 <=? n) && (n <=? 57) then Some (n - 48)
    else if (97 <=? n) && (n <=? 102) then Some (n - 87)
    else if (65 <=? n) && (n <=? 70) then Some (n - 55)
    else None in
  match value with
  | Some d => if d <? base then Some d else None
  | None => None
  end.

(** The digits in [base] at the head of [s]: their value when they
    follow digits of value [acc], how many they are, and what follows
    them. *)
Fixpoint digits (base acc : Z) (s : string) : Z * nat * string :=
  match s with
  | EmptyString => (acc, O, s)
  | String c s' =>
      match digit base c with
      | Some d =>
          let '(value, n, rest) := digits base (acc * base + d) s' in
          (value, S n, rest)
      | None => (acc, O, s)
      end
  end.

(** A sign at the head of [s], and what follows it. *)
Definition signed (s : string) : bool * string :=
  match s with
  | String "-"%char s' => (true, s')
  | String "+"%char s' => (false, s')
  | _ => (false, s)
  end.

(** [ExponentPart], if there is one, up to the end of the text: the
    exponent, and [None] when something else stands there. *)
Definition exponent (s : string) : option Z :=
  match s with
  | EmptyString => Some 0
  | String c s' =>
      if Ascii.eqb c "e" || Ascii.eqb c "E" then
        let '(negative, s'') := signed s' in
        match digits 10 0 s'' with
        | (value, S _, EmptyString) => Some (if negative then - value else value)
        | _ => None
        end
      else None
  end.

(** [StrUnsignedDecimalLiteral] without [Infinity]: digits, a point and
    digits, an exponent, with a digit on one side of the point at least.
    The value is [m * 10^e] for the pair [(m, e)] returned. *)
Definition unsignedDecimal (s : string) : option (Z * Z) :=
  let '(whole, n1, s1) := digits 10 0 s in
  let '(m, n2, s2) :=
    match s1 with
    | String "."%char s' => digits 10 whole s'
    | _ => (whole, O, s1)
    end in
  if Nat.eqb (n1 + n2) 0 then None
  else
    match exponent s2 with
    | Some e => Some (m, e - Z.of_nat n2)
    | None => None
    end.

(** [StrDecimalLiteral] *)
Definition decimalLiteral (s : string) : Number :=
  let '(negative, s') := signed s in
  if String.eqb s' "Infinity" then Infinite negative
  else
    match unsignedDecimal s' with
    | Some (m, e) => Finite (if negative then - m else m) e
    | None => NaN
    end.

(** [NonDecimalIntegerLiteral]: [0x], [0o] or [0b], in either case, and
    digits up to the end of the text. *)
Definition nonDecimalLiteral (s : string) : option Z :=
  match s with
  | String "0"%char (String c s') =>
      let base :=
        if Ascii.eqb c "x" || Ascii.eqb c "X" then 16
        else if Ascii.eqb c "o" || Ascii.eqb c "O" then 8
        else if Ascii.eqb c "b" || Ascii.eqb c "B" then 2
        else 0 in
      match digits base 0 s' with
      | (value, S _, EmptyString) => Some value
      | _ => None
      end
  | _ => None
  end.

(** [StringToNumber]: white space around the literal is skipped, the
    empty text is 0, and a text that is no literal is [NaN]. *)
Definition StringToNumber (s : string) : Number :=
  let literal := Str.trim s in
  if Str.is_empty literal then Finite 0 0
  else
    match nonDecimalLiteral literal with
    | Some value => Finite value 0
    | None => decimalLiteral literal
    end.

(** [ToNumber] *)
Definition to_number (v : JVal) : Number :=
  match v with
  | JUndefined => NaN
  | JNull => Finite 0 0
  | JBool b => Finite (if b then 1 else 0) 0
  | JNum n => Finite n 0
  | JStr s => StringToNumber s
  end.

(** [v * k] for a number [k] *)
Definition times (v : JVal) (k : Z) : Number :=
  match to_number v with
  | NaN => NaN
  | Infinite negative =>
      if k =? 0 then NaN else Infinite (xorb negative (k <? 0))
  | Finite m e => Finite (m * k) e
  end.

(** The greatest integer that is not above [m * 10^e], and the least
    that is not below it. The arithmetic is exact: a product that is not
    whole can differ from the double the host computes in its last
    place. *)
Definition floor (m e : Z) : Z :=
  if 0 <=? e then m * 10 ^ e else m / 10 ^ (- e).

Definition ceiling (m e : Z) : Z := - floor (- m) e.

(** [obj.name] on the own properties of a parsed object. *)
Definition prop (obj : gmap string JVal) (name : string) : JVal :=
  default JUndefined (obj !! name).

End JS.

Import JS.

(** ** The collaborators that are not among the sources *)

(** [TranscriptProcessor] and [wrapText] of [./utils]: taken as they are
    used, with no assumption on what they compute. *)
Class Utils := {
  TranscriptProcessor : Type;
  (** [new TranscriptProcessor(maxCharsPerLine, maxLines, maxFinal, isChinese)] *)
  newTranscriptProcessor : Z -> Z -> Z -> bool -> TranscriptProcessor;
  processString :
    TranscriptProcessor -> string -> bool -> TranscriptProcessor * string;
  getLastUserTranscript : TranscriptProcessor -> string;
  clear : TranscriptProcessor -> TranscriptProcessor;
  wrapText : string -> Z -> string
}.

(** ** The session: [TranscriptionManager] and what surrounds it *)

Module Session.

(** The argument of [handleTranscription]. *)
Record TranscriptionData := {
  text : string;
  isFinal : bool
}.

(** One call of [session.layouts.showTextWall]. *)
Record TextWall := {
  wall : string;
  durationMs : Z
}.

(** What a callback given to [setTimeout] does when it runs. *)
Inductive TimerTask :=
| DebounceTask (rawText : string) (timerDuration : Z)
    (* () => this.processQuery(text, timerDuration) *)
| CooldownTask
    (* () => { this.isProcessingQuery = false } *)
| SideEffectTask (labelText : string) (timerId : JVal).
    (* the callback of the timer_set event *)

(** A timer that [setTimeout] has scheduled and that has neither run nor
    been cleared. [delay] is the delay in milliseconds that the host
    gives it. *)
Record Timer := {
  handle : nat;
  setAt : Z;
  delay : Z;
  task : TimerTask
}.

(** An element of [segments] that is not [null] or [undefined];
    [seg_text] is its [text] property. *)
Record Segment := { seg_text : JVal }.

(** The value of [JSON.parse(responseText)] as far as [processQuery] looks
    into it: [segments] is [None] when the value has no array under
    [segments] (it is not an object, or the property is missing, falsy or
    not an array). An element of the array is [None] when it is [null]
    ([JSON.parse] gives no [undefined]). *)
Record TranscriptionResponse := {
  segments : option (list (option Segment))
}.

(** How [fetch(backendUrl)] and the reading of its body end:
    [FetchRejected] when [fetch] or [text()] rejects; otherwise the flag
    [ok] of the response, its body, and [json], the value of
    [JSON.parse(responseText)], [None] when it throws. *)
Inductive FetchOutcome :=
| FetchRejected
| FetchResponse (ok : bool) (responseText : string)
    (json : option TranscriptionResponse).

(** How [miraAgent.handleContext] ends: it rejects, it resolves to
    [undefined] or [null], or it resolves to a string. [parsed] is
    [JSON.parse(agentResponse)]: [None] when it throws, the properties of
    the object otherwise (none for a value that is not an object). *)
Inductive AgentOutcome :=
| AgentRejected
| AgentNothing
| AgentText (agentResponse : string) (parsed : option (gmap string JVal)).

Section WithUtils.

Context `{Utils}.

(** The fields of [TranscriptionManager], followed by the surroundings
    they act on: the timers pending, the display, the requests sent, and
    the runs of [processQuery] suspended at an [await]. *)
Record World := MkWorld {
  isProcessingQuery : bool;
  isListeningToQuery : bool;
  timeoutId : option nat;
  sessionId : string;
  transcriptionStartTime : Z;
  activeTimers : gmap JVal nat;
  serverUrl : string;
  transcriptProcessor : TranscriptProcessor;
  (* surroundings *)
  timers : list Timer;
  nextHandle : nat;
  display : list TextWall;       (* newest first *)
  fetches : list string;         (* URLs requested, newest first *)
  agentCalls : list string;      (* queries handed to the agent, newest first *)
  awaitingFetch : nat;           (* runs suspended at the fetch *)
  awaitingAgent : nat;           (* runs suspended at handleContext *)
  attached : bool                (* still in MiraServer.transcriptionManagers *)
}.

(** Assignments to one field. *)
Definition set_isProcessingQuery (v : bool) (w : World) : World :=
  let '(MkWorld a b c d e f g h i j k l m n o p) := w in
  MkWorld v b c d e f g h i j k l m n o p.
Definition set_isListeningToQuery (v : bool) (w : World) : World :=
  let '(MkWorld a b c d e f g h i j k l m n o p) := w in
  MkWorld a v c d e f g h i j k l m n o p.
Definition set_timeoutId (v : option nat) (w : World) : World :=
  let '(MkWorld a b c d e f g h i j k l m n o p) := w in
  MkWorld a b v d e f g h i j k l m n o p.
Definition set_transcriptionStartTime (v : Z) (w : World) : World :=
  let '(MkWorld a b c d e f g h i j k l m n o p) := w in
  MkWorld a b c d v f g h i j k l m n o p.
Definition set_activeTimers (v : gmap JVal nat) (w : World) : World :=
  let '(MkWorld a b c d e f g h i j k l m n o p) := w in
  MkWorld a b c d e v g h i j k l m n o p.
Definition set_transcriptProcessor (v : TranscriptProcessor) (w : World)
  : World :=
  let '(MkWorld a b c d e f g h i j k l m n o p) := w in
  MkWorld a b c d e f g v i j k l m n o p.
Definition set_timers (v : list Timer) (w : World) : World :=
  let '(MkWorld a b c d e f g h i j k l m n o p) := w in
  MkWorld a b c d e f g h v j k l m n o p.
Definition set_nextHandle (v : nat) (w : World) : World :=
  let '(MkWorld a b c d e f g h i j k l m n o p) := w in
  MkWorld a b c d e f g h i v k l m n o p.
Definition set_display (v : list TextWall) (w : World) : World :=
  let '(MkWorld a b c d e f g h i j k l m n o p) := w in
  MkWorld a b c d e f g h i j v l m n o p.
Definition set_fetches (v : list string) (w : World) : World :=
  let '(MkWorld a b c d e f g h i j k l m n o p) := w in
  MkWorld a b c d e f g h i j k v m n o p.
Definition set_agentCalls (v : list string) (w : World) : World :=
  let '(MkWorld a b c d e f g h i j k l m n o p) := w in
  MkWorld a b c d e f g h i j k l v n o p.
Definition set_awaitingFetch (v : nat) (w : World) : World :=
  let '(MkWorld a b c d e f g h i j k l m n o p) := w in
  MkWorld a b c d e f g h i j k l m v o p.
Definition set_awaitingAgent (v : nat) (w : World) : World :=
  let '(MkWorld a b c d e f g h i j k l m n o p) := w in
  MkWorld a b c d e f g h i j k l m n v p.
Definition set_attached (v : bool) (w : World) : World :=
  let '(MkWorld a b c d e f g h i j k l m n o p) := w in
  MkWorld a b c d e f g h i j k l m n o v.

(** [new TranscriptionManager(session, sessionId, userId, miraAgent,
    serverUrl)], registered in [MiraServer.transcriptionManagers]. *)
Definition newTranscriptionManager (sessionId serverUrl : string) : World :=
  {| isProcessingQuery := false;
     isListeningToQuery := false;
     timeoutId := None;
     sessionId := sessionId;
     transcriptionStartTime := 0;
     activeTimers := ∅;
     serverUrl := serverUrl;
     transcriptProcessor := newTranscriptProcessor 30 3 3 false;
     timers := [];
     nextHandle := 0;
     display := [];
     fetches := [];
     agentCalls := [];
     awaitingFetch := 0;
     awaitingAgent := 0;
     attached := true |}.

(** *** The primitives of the host *)

Definition showTextWall (t : string) (ms : Z) (w : World) : World :=
  set_display ({| wall := t; durationMs := ms |} :: display w) w.

(** The greatest delay of a timer of the host (Node.js), in
    milliseconds. *)
Definition TIMEOUT_MAX : Z := 2147483647.

(** The delay that the host gives a timer set for [after] milliseconds:
    [after] without its fraction when it is a number from 1 to
    [TIMEOUT_MAX], and 1 otherwise, [NaN] included. *)
Definition timeoutDelay (after : Number) : Z :=
  match after with
  | Finite m e =>
      if (1 <=? floor m e) && (ceiling m e <=? TIMEOUT_MAX) then floor m e
      else 1
  | _ => 1
  end.

(** [setTimeout(task, after)] at time [now]: the handle returned has never
    been given out before. *)
Definition setTimeout (now : Z) (tk : TimerTask) (after : Number) (w : World)
  : nat * World :=
  let h := nextHandle w in
  (h, set_nextHandle (S h)
        (set_timers
           (timers w ++
              [{| handle := h; setAt := now; delay := timeoutDelay after;
                  task := tk |}]) w)).

(** [t] is not the timer of handle [h]. *)
Definition other (h : nat) (t : Timer) : bool := negb (Nat.eqb (handle t) h).

(** [clearTimeout(h)]: nothing happens when [h] is no longer pending. *)
Definition clearTimeout (h : nat) (w : World) : World :=
  set_timers (List.filter (other h) (timers w)) w.

(** A pending timer may run once its delay has passed. *)
Definition due (now : Z) (t : Timer) : bool := setAt t + delay t <=? now.

(** *** [handleTranscription] *)

Definition newline : string := String (ascii_of_nat 10) EmptyString.
Definition quote : string := String (ascii_of_nat 34) EmptyString.

(** The [timerDuration] of [handleTranscription]. *)
Definition timerDurationOf (data : TranscriptionData) (cleanedText : string)
  : Z :=
  if isFinal data then
    if endsWithWakeWord cleanedText then 10000 else 1500
  else 3000.

(** The display step of [handleTranscription]. *)
Definition showListening (data : TranscriptionData) (w : World) : World :=
  let displayText := removeWakeWord (text data) in
  if Nat.eqb (String.length (Str.trim displayText)) 0 then
    let w :=
      if negb (Nat.eqb
           (String.length
              (Str.trim (getLastUserTranscript (transcriptProcessor w)))) 0)
      then set_transcriptProcessor
             (fst (processString (transcriptProcessor w) EmptyString false)) w
      else w in
    showTextWall "Listening..." 10000 w
  else
    let '(tp, out) :=
      processString (transcriptProcessor w) displayText (isFinal data) in
    let formatted := "Listening..." +:+ newline +:+ newline +:+ Str.trim out in
    showTextWall formatted 10000 (set_transcriptProcessor tp w).

(** The last step of [handleTranscription]: clear any existing timeout,
    set a new one. *)
Definition rearm (now : Z) (rawText : string) (timerDuration : Z) (w : World)
  : World :=
  let w :=
    match timeoutId w with
    | Some h => clearTimeout h w
    | None => w
    end in
  let '(h, w) :=
    setTimeout now (DebounceTask rawText timerDuration)
      (Finite timerDuration 0) w
  in
  set_timeoutId (Some h) w.

(** The middle of [handleTranscription]: the session listens, the time of
    the first detection is taken, the text is shown. *)
Definition listening (now : Z) (data : TranscriptionData) (w : World) : World :=
  let w := set_isListeningToQuery true w in
  let w :=
    if transcriptionStartTime w =? 0
    then set_transcriptionStartTime now w else w in
  showListening data w.

Definition handleTranscription (now : Z) (data : TranscriptionData)
  (w : World) : World :=
  if isProcessingQuery w then w
  else
    let cleanedText := cleanText (text data) in
    let hasWake := hasWakeWord cleanedText in
    if negb hasWake && negb (isListeningToQuery w) then w
    else
      rearm now (text data) (timerDurationOf data cleanedText)
        (listening now data w).

(** *** [processQuery] *)

(** [Math.ceil(ms / 1000)] *)
Definition ceil_seconds (ms : Z) : Z := - ((- ms) / 1000).

Definition durationSeconds (now timerDuration : Z) (w : World) : Z :=
  if 0 <? transcriptionStartTime w then
    Z.max 1 (ceil_seconds (now - transcriptionStartTime w))
  else if negb (timerDuration =? 0) then
    Z.max 1 (ceil_seconds timerDuration)
  else 3.

Definition backendUrl (now timerDuration : Z) (w : World) : string :=
  serverUrl w +:+ "/api/transcripts/" +:+ sessionId w +:+ "?duration=" +:+
  pretty (durationSeconds now timerDuration w).

(** From the call to the first [await]: the request is sent and the run
    is suspended. *)
Definition processQuery (now : Z) (rawText : string) (timerDuration : Z)
  (w : World) : World :=
  set_awaitingFetch (S (awaitingFetch w))
    (set_fetches (backendUrl now timerDuration w :: fetches w) w).

(** The first [try]: the value of [transcriptionResponse], or [None] when
    the [catch] is entered. *)
Definition transcriptionResponseOf (o : FetchOutcome)
  : option TranscriptionResponse :=
  match o with
  | FetchRejected => None
  | FetchResponse ok responseText json =>
      if negb ok then None
      else if Str.is_empty responseText
              || Str.is_empty (Str.trim responseText) then None
      else json
  end.

(** The [finally] block. *)
Definition finally (now : Z) (w : World) : World :=
  let w := set_transcriptionStartTime 0 w in
  let w :=
    match timeoutId w with
    | Some h => set_timeoutId None (clearTimeout h w)
    | None => w
    end in
  let w := set_isListeningToQuery false w in
  let w := set_transcriptProcessor (clear (transcriptProcessor w)) w in
  snd (setTimeout now CooldownTask (Finite 2000 0) w).

(** [segments.map(segment => segment.text)]: reading [text] of [null]
    throws a [TypeError], [None] here. *)
Fixpoint textsOf (segs : list (option Segment)) : option (list JVal) :=
  match segs with
  | [] => Some []
  | None :: _ => None
  | Some segment :: segs' =>
      match textsOf segs' with
      | Some texts => Some (seg_text segment :: texts)
      | None => None
      end
  end.

(** [segments.map(segment => segment.text).join(' ')] *)
Definition rawCombinedTextOf (segs : list (option Segment)) : option string :=
  match textsOf segs with
  | Some texts => Some (Str.join " " (map join_element texts))
  | None => None
  end.

(** From the settling of the fetch to the next [await], or to the end of
    the run when it does not reach the agent. The [TypeError] of
    [rawCombinedTextOf] is thrown between the two [try] statements:
    nothing catches it, and the run ends there. *)
Definition processQuery_afterFetch (now : Z) (o : FetchOutcome) (w : World)
  : World :=
  let w := set_awaitingFetch (Nat.pred (awaitingFetch w)) w in
  match transcriptionResponseOf o with
  | None =>
      showTextWall
        (wrapText
           "Sorry, there was an error retrieving your transcript. Please try again."
           30) 5000 w
  | Some transcriptionResponse =>
      match segments transcriptionResponse with
      | None =>
          showTextWall
            (wrapText
               "Sorry, the transcript format was invalid. Please try again."
               30) 5000 w
      | Some segs =>
          match rawCombinedTextOf segs with
          | None => w
          | Some rawCombinedText =>
              if isProcessingQuery w then w
              else
                let w := set_isProcessingQuery true w in
                let query := removeWakeWord rawCombinedText in
                if Nat.eqb (String.length (Str.trim query)) 0 then
                  finally now
                    (showTextWall (wrapText "No query provided." 30) 5000 w)
                else
                  let displayQuery :=
                    if Nat.ltb 60 (String.length query)
                    then Str.trim (Str.take 60 query) +:+ " ..."
                    else query in
                  let w :=
                    showTextWall
                      (wrapText ("Processing query: " +:+ displayQuery) 30)
                      8000 w in
                  set_awaitingAgent (S (awaitingAgent w))
                    (set_agentCalls (query :: agentCalls w) w)
          end
      end
  end.

(** [labelText] of the [timer_set] case. *)
Definition labelTextOf (parsed : gmap string JVal) : string :=
  if truthy (prop parsed "label")
  then " for " +:+ quote +:+ to_string (prop parsed "label") +:+ quote
  else EmptyString.

(** The [timer_set] case: the notice, the timer and its entry in
    [activeTimers]. *)
Definition timerSet (now : Z) (parsed : gmap string JVal) (w : World)
  : World :=
  let labelText := labelTextOf parsed in
  let w :=
    showTextWall
      (wrapText
         ("Timer set" +:+ labelText +:+ " for " +:+
          to_string (prop parsed "duration") +:+ " seconds.") 30) 5000 w in
  let '(timeout, w) :=
    setTimeout now (SideEffectTask labelText (prop parsed "timerId"))
      (times (prop parsed "duration") 1000) w in
  set_activeTimers (<[prop parsed "timerId" := timeout]> (activeTimers w)) w.

(** The generic event handler for tool outputs: the world after it, and
    whether the response was [handled]. *)
Definition handleEvent (now : Z) (parsed : option (gmap string JVal))
  (w : World) : World * bool :=
  match parsed with
  | Some obj =>
      if truthy (prop obj "event") then
        if bool_decide (prop obj "event" = JStr "timer_set") then
          if truthy (prop obj "duration") then (timerSet now obj w, true)
          else (w, false)
        else (w, false)
      else (w, false)
  | None => (w, false)
  end.

(** The second [try] once [handleContext] has settled, with its [catch]. *)
Definition answered (now : Z) (o : AgentOutcome) (w : World) : World :=
  match o with
  | AgentRejected =>
      showTextWall
        (wrapText "Sorry, there was an error processing your request." 30)
        5000 w
  | AgentNothing =>
      showTextWall
        (wrapText "Sorry, I couldn't find an answer to that." 30) 5000 w
  | AgentText agentResponse parsed =>
      if Str.is_empty agentResponse then
        showTextWall
          (wrapText "Sorry, I couldn't find an answer to that." 30) 5000 w
      else
        let '(w, handled) := handleEvent now parsed w in
        if handled then w
        else showTextWall (wrapText agentResponse 30) 8000 w
  end.

(** From the settling of [handleContext] to the end of the run. *)
Definition processQuery_afterAgent (now : Z) (o : AgentOutcome) (w : World)
  : World :=
  finally now
    (answered now o (set_awaitingAgent (Nat.pred (awaitingAgent w)) w)).

(** *** [cleanup] and the callbacks *)

Definition cleanup (w : World) : World :=
  let w :=
    match timeoutId w with
    | Some h => clearTimeout h w
    | None => w
    end in
  let w :=
    fold_right clearTimeout w (map snd (map_to_list (activeTimers w))) in
  set_activeTimers ∅ w.

(** What the callback of a timer does when it runs. *)
Definition runTask (now : Z) (tk : TimerTask) (w : World) : World :=
  match tk with
  | DebounceTask rawText timerDuration =>
      processQuery now rawText timerDuration w
  | CooldownTask => set_isProcessingQuery false w
  | SideEffectTask labelText timerId =>
      let w :=
        showTextWall (wrapText ("Timer" +:+ labelText +:+ " is up!") 30)
          8000 w in
      set_activeTimers (delete timerId (activeTimers w)) w
  end.

Definition pending (h : nat) (w : World) : option Timer :=
  List.find (fun t => Nat.eqb (handle t) h) (timers w).

(** *** The events of a session *)

Inductive Event :=
| OnTranscription (data : TranscriptionData)
| TimerFires (h : nat)
| FetchSettles (o : FetchOutcome)
| AgentSettles (o : AgentOutcome)
| OnStop.

(** One event at time [now]; [None] when the event cannot happen in [w]
    (a timer that is not pending or not due, a settling with no run
    suspended there). After [onStop] the manager receives no more
    transcriptions. *)
Definition step (now : Z) (e : Event) (w : World) : option World :=
  match e with
  | OnTranscription data =>
      Some (if attached w then handleTranscription now data w else w)
  | TimerFires h =>
      match pending h w with
      | Some t =>
          if due now t then Some (runTask now (task t) (clearTimeout h w))
          else None
      | None => None
      end
  | FetchSettles o =>
      match awaitingFetch w with
      | O => None
      | S _ => Some (processQuery_afterFetch now o w)
      end
  | AgentSettles o =>
      match awaitingAgent w with
      | O => None
      | S _ => Some (processQuery_afterAgent now o w)
      end
  | OnStop =>
      Some (if attached w then set_attached false (cleanup w) else w)
  end.

Fixpoint run (trace : list (Z * Event)) (w : World) : option World :=
  match trace with
  | [] => Some w
  | (now, e) :: trace' =>
      match step now e w with
      | Some w' => run trace' w'
      | None => None
      end
  end.

Definition reachable (w : World) : Prop :=
  exists sid url trace, run trace (newTranscriptionManager sid url) = Some w.

(** The debounce timers among the pending ones. *)
Definition is_debounce (t : Timer) : bool :=
  match task t with DebounceTask _ _ => true | _ => false end.

Definition is_cooldown (t : Timer) : bool :=
  match task t with CooldownTask => true | _ => false end.

Definition debounceTimers (w : World) : list Timer :=
  List.filter is_debounce (timers w).

Definition cooldownTimers (w : World) : list Timer :=
  List.filter is_cooldown (timers w).

End WithUtils.

End Session.

(** ** The wake-phrase operations in the words of the specification *)

Module WakeSpec.

(** [endsWithAny]: the text ends with a configured variant. *)
Definition endsWithVariant (s : string) : Prop :=
  exists word pre, In word explicitWakeWords /\ s = pre +:+ word.

(** [m] is a variant as it may be written: the words of the variant,
    ignoring case, with any white space, commas or periods between two
    of them. The variant is given by its words ([pieces]). *)
Inductive spells : list string -> string -> Prop :=
| spells_nil : spells [] EmptyString
| spells_one piece m :
    equals_ci piece m = true -> spells [piece] m
| spells_cons piece next rest m gap m' :
    equals_ci piece m = true ->
    Str.all Char.is_gap gap = true ->
    spells (next :: rest) m' ->
    spells (piece :: next :: rest) (m +:+ gap +:+ m').

(** A variant stands at the head of [s], and [rest] follows it. *)
Definition variantAtHead (s rest : string) : Prop :=
  exists word m,
    In word explicitWakeWords /\
    spells (Str.split_space EmptyString word) m /\
    s = m +:+ rest.

(** The variant [word] stands at the head of [s], and [rest] follows
    it. *)
Definition spelledAtHead (word s rest : string) : Prop :=
  exists m, spells (Str.split_space EmptyString word) m /\ s = m +:+ rest.

(** The variant that is read at the head of [s]: of the variants that
    stand there, the one that comes first in the list. [rest] follows
    it. *)
Definition firstVariantAtHead (s rest : string) : Prop :=
  exists before word after,
    explicitWakeWords = before ++ word :: after /\
    spelledAtHead word s rest /\
    forall word' rest', In word' before -> ~ spelledAtHead word' s rest'.

(** A variant occurs somewhere in [text]. *)
Definition variantOccurs (text : string) : Prop :=
  exists pre suf rest, text = pre +:+ suf /\ variantAtHead suf rest.

(** No variant starts inside [pre] when [pre] is followed by [suf]. *)
Definition noVariantStartsIn (pre suf : string) : Prop :=
  forall p1 p2 rest,
    pre = p1 +:+ p2 -> p2 <> EmptyString -> ~ variantAtHead (p2 +:+ suf) rest.

(** The same as computations. *)
Fixpoint noneStartsIn (pre suf : string) : bool :=
  match pre with
  | EmptyString => true
  | String _ pre' =>
      match match_alternatives wakePatterns (pre +:+ suf) with
      | Some _ => false
      | None => noneStartsIn pre' suf
      end
  end.

Fixpoint occurs (text : string) : bool :=
  match match_alternatives wakePatterns text with
  | Some _ => true
  | None =>
      match text with
      | EmptyString => false
      | String _ text' => occurs text'
      end
  end.

(** A piece of a pattern that starts outside the gap class. *)
Definition starts_outside_gap (piece : string) : bool :=
  match piece with
  | EmptyString => false
  | String c _ => negb (Char.is_gap (Char.canonicalize c))
  end.

(** [s] starts with a character outside the gap class. *)
Definition head_outside_gap (s : string) : Prop :=
  match s with
  | EmptyString => False
  | String c _ => Char.is_gap c = false
  end.

End WakeSpec.

(** ** What holds of every world a session can reach *)

Module Invariant.

Import Session.

(** [m * 10^e] is a whole number. *)
Definition whole (m e : Z) : Prop := floor m e = ceiling m e.

(** The delay in milliseconds of a timer that is set for a whole number
    of seconds, or for what is no finite number, case by case: the
    seconds in milliseconds when these are from 1 to [TIMEOUT_MAX], and 1
    millisecond when they are fewer or more, and for an infinity or
    [NaN]. *)
Inductive delayFor : Number -> Z -> Prop :=
| delay_kept m e :
    whole m e -> 1 <= floor m e * 1000 <= TIMEOUT_MAX ->
    delayFor (Finite m e) (floor m e * 1000)
| delay_short m e :
    whole m e -> floor m e * 1000 < 1 -> delayFor (Finite m e) 1
| delay_long m e :
    whole m e -> TIMEOUT_MAX < floor m e * 1000 -> delayFor (Finite m e) 1
| delay_infinite negative : delayFor (Infinite negative) 1
| delay_nan : delayFor NaN 1.

Section WithUtils.

Context `{Utils}.

(** Handles are given out once; the debounce timer pending, if any, is
    the one [timeoutId] names; the registry of side-effect timers names
    no cool-down timer. *)
Record structure_ok (w : World) : Prop := {
  inv_fresh :
    forall t, In t (timers w) -> (handle t < nextHandle w)%nat;
  inv_distinct : List.NoDup (map handle (timers w));
  inv_timeoutId :
    forall h, timeoutId w = Some h -> (h < nextHandle w)%nat;
  inv_debounce :
    forall t, In t (timers w) ->
      (is_debounce t = true <-> timeoutId w = Some (handle t));
  inv_registry_fresh :
    forall k h, activeTimers w !! k = Some h -> (h < nextHandle w)%nat;
  inv_registry :
    forall k t, In t (timers w) ->
      activeTimers w !! k = Some (handle t) -> is_cooldown t = false
}.

(** [isProcessingQuery] is set exactly while a run is with the agent or a
    cool-down is pending, and there is one of these at most. *)
Definition accounted (w : World) : Prop :=
  (awaitingAgent w + length (cooldownTimers w))%nat =
  (if isProcessingQuery w then 1 else 0)%nat.

Definition invariant (w : World) : Prop := structure_ok w /\ accounted w.

(** The parts of a world the invariant reads. *)
Definition frame (w : World)
  : list Timer * nat * option nat * gmap JVal nat :=
  (timers w, nextHandle w, timeoutId w, activeTimers w).

Definition shape (w : World)
  : list Timer * nat * option nat * gmap JVal nat * nat * bool :=
  (frame w, awaitingAgent w, isProcessingQuery w).

(** The timers left when the one [timeoutId] names has been cleared. *)
Definition withoutDebounce (w : World) : list Timer :=
  match timeoutId w with
  | Some h => List.filter (other h) (timers w)
  | None => timers w
  end.

(** The timer that [setTimeout] adds in [w]. *)
Definition newTimer (now : Z) (tk : TimerTask) (after : Number) (w : World)
  : Timer :=
  {| handle := nextHandle w; setAt := now; delay := timeoutDelay after;
     task := tk |}.

Definition sideEffectTimer (now : Z) (parsed : gmap string JVal) (w : World) : Timer :=
  newTimer now (SideEffectTask (labelTextOf parsed) (prop parsed "timerId"))
    (times (prop parsed "duration") 1000) w.

(** [t] is kept when the handles [hs] are cleared. *)
Definition kept (hs : list nat) (t : Timer) : bool :=
  forallb (fun h => other h t) hs.

(** The handles that [activeTimers] holds. *)
Definition registered (w : World) : list nat := map snd (map_to_list (activeTimers w)).

(** The fragment is not ignored: no query is being processed, and the
    wake phrase is contained or the session is already listening. *)
Definition accepted (data : TranscriptionData) (w : World) : Prop :=
  isProcessingQuery w = false /\
  (hasWakeWord (cleanText (text data)) = true \/ isListeningToQuery w = true).

(** The debounce timer that an accepted fragment sets. *)
Definition debounceTimer (now : Z) (data : TranscriptionData) (h : nat)
  : Timer :=
  let d := timerDurationOf data (cleanText (text data)) in
  {| handle := h; setAt := now; delay := d;
     task := DebounceTask (text data) d |}.

(** Fragments handled one after the other, each with its time. *)
Definition handleAll (frags : list (Z * TranscriptionData)) (w : World)
  : World :=
  fold_left (fun w f => handleTranscription (fst f) (snd f) w) frags w.

(** The segments of a transcript that was fetched and is well formed. *)
Definition segmentsOf (o : FetchOutcome)
  : option (list (option Segment)) :=
  match transcriptionResponseOf o with
  | Some transcriptionResponse => segments transcriptionResponse
  | None => None
  end.

(** The notices that the claims name. *)
Definition listeningPlaceholder : TextWall :=
  {| wall := "Listening..."; durationMs := 10000 |}.

Definition noQueryProvided : TextWall :=
  {| wall := wrapText "No query provided." 30; durationMs := 5000 |}.

Definition timerIsUp (labelText : string) : TextWall :=
  {| wall := wrapText ("Timer" +:+ labelText +:+ " is up!") 30;
     durationMs := 8000 |}.

(** The side-effect timer [t] was set for the identifier [k]. *)
Definition carries (k : JVal) (t : Timer) : bool :=
  match task t with
  | SideEffectTask _ k' => bool_decide (k' = k)
  | _ => false
  end.

(** The event is an answer of the agent that sets a timer under [k]. *)
Definition registers (k : JVal) (e : Event) : bool :=
  match e with
  | AgentSettles (AgentText agentResponse (Some obj)) =>
      negb (Str.is_empty agentResponse) &&
      truthy (prop obj "event") &&
      bool_decide (prop obj "event" = JStr "timer_set") &&
      truthy (prop obj "duration") &&
      bool_decide (prop obj "timerId" = k)
  | _ => false
  end.

(** The event leaves the timer [h], set under [k], as it is: it is not
    the end of the session, not the running of [h], and no other timer is
    set under [k]. *)
Definition undisturbed (k : JVal) (h : nat) (e : Event) : bool :=
  match e with
  | OnStop => false
  | TimerFires h' => negb (Nat.eqb h' h)
  | _ => negb (registers k e)
  end.



(** The timer [tm], of handle [h], is pending and is the one that
    [activeTimers] holds under [k], and no other pending timer was set
    under [k]. *)
Definition tracked (k : JVal) (h : nat) (tm : Timer) (w : World) : Prop :=
  In tm (timers w) /\
  activeTimers w !! k = Some h /\
  forall t, In t (timers w) -> carries k t = true -> t = tm.

End WithUtils.

End Invariant.

(** ** A session to run the model on *)

Module Sample.

Import Session Invariant.

(** Modelled from the spec: [TranscriptProcessor] and [wrapText] of
    [./utils], which are not among the sources. The formatter keeps the
    text of the fragment it rendered last: [processString] replaces the
    current partial by the text and returns it as its rendering (an empty
    text clears the partial), [getLastUserTranscript] returns it, and
    [clear] resets to the empty state. The wrapping of lines is left out:
    [wrapText] returns its text. *)
Definition plainUtils : Utils := {|
  TranscriptProcessor := string;
  newTranscriptProcessor := fun _ _ _ _ => EmptyString;
  processString := fun _ text _ => (text, text);
  getLastUserTranscript := fun lastText => lastText;
  clear := fun _ => EmptyString;
  wrapText := fun text _ => text
|}.

#[export] Existing Instance plainUtils.

Definition start : World := newTranscriptionManager "session-1" "https://cloud".

Definition fragment (t : string) (final : bool) : Event :=
  OnTranscription {| text := t; isFinal := final |}.

Definition quoted (s : string) : string := quote +:+ s +:+ quote.

(** The body [{"segments":[{"text":t}]}] and the outcome of fetching it. *)
Definition transcriptOf (t : string) : FetchOutcome :=
  FetchResponse true
    ("{" +:+ quoted "segments" +:+ ":[{" +:+ quoted "text" +:+ ":" +:+
     quoted t +:+ "}]}")
    (Some {| segments := Some [Some {| seg_text := JStr t |}] |}).

(** The body [{"segments":[]}]. *)
Definition emptyTranscript : FetchOutcome :=
  FetchResponse true ("{" +:+ quoted "segments" +:+ ":[]}")
    (Some {| segments := Some [] |}).

(** A response with status 500. *)
Definition serverError : FetchOutcome :=
  FetchResponse false "Internal Server Error" None.

(** The answer [{"event":"timer_set","duration":d,"timerId":id}]. *)
Definition timerSetEvent (d : Z) (id : string) : gmap string JVal :=
  {[ "event" := JStr "timer_set"; "duration" := JNum d;
     "timerId" := JStr id ]}.

Definition timerSetAnswer (d : Z) (id : string) : AgentOutcome :=
  AgentText
    ("{" +:+ quoted "event" +:+ ":" +:+ quoted "timer_set" +:+ "," +:+
     quoted "duration" +:+ ":" +:+ pretty d +:+ "," +:+
     quoted "timerId" +:+ ":" +:+ quoted id +:+ "}")
    (Some (timerSetEvent d id)).

Definition after (trace : list (Z * Event)) : World :=
  default start (run trace start).

(** The wake phrase alone: the session listens. *)
Definition wakeOnly : list (Z * Event) :=
  [(100, fragment "hey mira" false)].

(** A query is spoken and its debounce timer runs: the run is at the
    fetch. *)
Definition toFetch : list (Z * Event) :=
  [(100, fragment "Hey Mira, what time is it" true);
   (1600, TimerFires 0)].

(** The transcript arrives: the run is with the agent. *)
Definition toAgent : list (Z * Event) :=
  toFetch ++
  [(1700, FetchSettles (transcriptOf "Hey Mira, what time is it"))].

(** While the first run is at the fetch another fragment arrives, and its
    debounce timer runs when the first run is with the agent. *)
Definition racing : list (Z * Event) :=
  toFetch ++
  [(1650, fragment "and the date" true);
   (1700, FetchSettles (transcriptOf "Hey Mira, what time is it"));
   (3150, TimerFires 1)].


(** A timer is asked for; the agent is about to answer. *)
Definition timerAsked : list (Z * Event) :=
  [(100, fragment "hey mira set a timer" true);
   (1600, TimerFires 0);
   (1700, FetchSettles (transcriptOf "hey mira set a timer"))].




(** The body [{"segments":[null,{"text":t}]}]. *)
Definition transcriptWithNull (t : string) : FetchOutcome :=
  FetchResponse true
    ("{" +:+ quoted "segments" +:+ ":[null,{" +:+ quoted "text" +:+ ":" +:+
     quoted t +:+ "}]}")
    (Some {| segments := Some [None; Some {| seg_text := JStr t |}] |}).

(** The wake phrase alone, as a final fragment. *)
Definition heyMira : TranscriptionData :=
  {| text := "hey mira"; isFinal := true |}.

End Sample.

(** ** [NotificationsManager] and [handlePhoneNotifications] *)

Module Notifications.

Section WithNotification.

(** What a notification is does not matter to the manager ([any]). *)
Context {A : Type}.

(** [notificationsPerUser] is a [gmap string (list A)] below. *)

(** [arr.slice(start)]: a negative [start] counts from the end, and the
    start taken is kept within the array. *)
Definition slice (start : Z) (arr : list A) : list A :=
  let len := Z.of_nat (length arr) in
  let k := if start <? 0 then Z.max (len + start) 0 else Z.min start len in
  drop (Z.to_nat k) arr.

Definition addNotifications (userId : string) (notifications : list A)
  (m : gmap string (list A))
  : gmap string (list A) :=
  let m :=
    match m !! userId with
    | Some _ => m
    | None => <[userId := []]> m
    end in
  let existing := default [] (m !! userId) in
  <[userId := existing ++ notifications]> m.

(** [count] is [None] when the argument is left out: it is 5 then. *)
Definition getLatestNotifications (userId : string) (count : option Z)
  (m : gmap string (list A)) : list A :=
  let count := default 5 count in
  let all := default [] (m !! userId) in
  slice (- count) all.

Definition clearNotifications (userId : string) (m : gmap string (list A))
  : gmap string (list A) :=
  delete userId m.

(** The argument of [handlePhoneNotifications]: an array, another truthy
    value, or a falsy one. *)
Inductive PhoneNotifications :=
| PhoneArray (notifications : list A)
| PhoneOne (notification : A)
| PhoneNothing.

Definition handlePhoneNotifications (phoneNotifications : PhoneNotifications)
  (userId : string) (m : gmap string (list A))
  : gmap string (list A) :=
  match phoneNotifications with
  | PhoneArray notifications => addNotifications userId notifications m
  | PhoneOne notification => addNotifications userId [notification] m
  | PhoneNothing => m
  end.

(** Everything stored for a user, oldest first. *)
Definition stored (userId : string) (m : gmap string (list A))
  : list A :=
  default [] (m !! userId).

End WithNotification.

End Notifications.

(** ** [getCleanServerUrl] *)

Module ServerUrl.

(** [s.slice(n)] for [0 <= n] *)
Fixpoint dropChars (n : nat) (s : string) : string :=
  match n, s with
  | S n', String _ s' => dropChars n' s'
  | _, _ => s
  end.

(** [url.replace(/^wss?:\/\//, '')] *)
Definition removeScheme (url : string) : string :=
  if Str.startsWith "wss://" url then dropChars 6 url
  else if Str.startsWith "ws://" url then dropChars 5 url
  else url.

(** [url.replace(/suffix$/, '')] for a suffix that stands for itself: the
    regular expression has no [m] flag, so [$] is the end of the text. *)
Fixpoint removeSuffix (suffix url : string) : string :=
  if String.eqb url suffix then EmptyString
  else
    match url with
    | EmptyString => EmptyString
    | String c url' => String c (removeSuffix suffix url')
    end.

(** [rawUrl] is [None] for [undefined]. *)
Definition getCleanServerUrl (rawUrl : option string) : string :=
  match rawUrl with
  | None => EmptyString
  | Some rawUrl =>
      if Str.is_empty rawUrl then EmptyString
      else
        let url := removeScheme rawUrl in
        let url := removeSuffix "/tpa-ws" url in
        "https://" +:+ url
  end.

End ServerUrl.

(** ** [handleLocation] *)

Module Location.

(** [a || b] *)
Definition orElse (a b : JVal) : JVal := if truthy a then a else b.

Record Timezone := {
  name : JVal;
  shortName : JVal;
  fullName : JVal;
  offsetSec : JVal;
  isDst : bool
}.

(** The argument of [MiraAgent.updateLocationContext]. *)
Record LocationContext := {
  city : JVal;
  state : JVal;
  country : JVal;
  timezone : Timezone
}.

Definition fallbackLocationContext : LocationContext :=
  {| city := JStr "Unknown";
     state := JStr "Unknown";
     country := JStr "Unknown";
     timezone :=
       {| name := JStr "Unknown";
          shortName := JStr "Unknown";
          fullName := JStr "Unknown";
          offsetSec := JNum 0;
          isDst := false |} |}.

(** How a request to LocationIQ ends: something is thrown inside the
    [try] (the [fetch] or the reading of the body rejects, the body is
    [null]), the response is not [ok], or the body is read. [Data] holds
    the property looked at ([address], [timezone]): [None] when it is
    falsy, its own properties otherwise. *)
Inductive Lookup :=
| Thrown
| NotOk
| Data (found : option (gmap string JVal)).

Definition reverseUrl (token lat lng : JVal) : string :=
  "https://us1.locationiq.com/v1/reverse.php?key=" +:+ to_string token +:+
  "&lat=" +:+ to_string lat +:+ "&lon=" +:+ to_string lng +:+ "&format=json".

Definition timezoneUrl (token lat lng : JVal) : string :=
  "https://us1.locationiq.com/v1/timezone?key=" +:+ to_string token +:+
  "&lat=" +:+ to_string lat +:+ "&lon=" +:+ to_string lng +:+ "&format=json".

(** The first inner [try]: reverse geocoding. *)
Definition geocoded (geo : Lookup) (locationInfo : LocationContext)
  : LocationContext :=
  match geo with
  | Data (Some address) =>
      {| city :=
           orElse (prop address "city")
             (orElse (prop address "town")
                (orElse (prop address "village") (JStr "Unknown city")));
         state := orElse (prop address "state") (JStr "Unknown state");
         country := orElse (prop address "country") (JStr "Unknown country");
         timezone := timezone locationInfo |}
  | _ => locationInfo
  end.

(** The second inner [try]: the time zone. *)
Definition timezoned (tz : Lookup) (locationInfo : LocationContext)
  : LocationContext :=
  match tz with
  | Data (Some zone) =>
      {| city := city locationInfo;
         state := state locationInfo;
         country := country locationInfo;
         timezone :=
           {| name := orElse (prop zone "name") (JStr "Unknown");
              shortName := orElse (prop zone "short_name") (JStr "Unknown");
              fullName := orElse (prop zone "full_name") (JStr "Unknown");
              offsetSec := orElse (prop zone "offset_sec") (JNum 0);
              isDst := truthy (prop zone "now_in_dst") |} |}
  | _ => locationInfo
  end.

(** [handleLocation]: the requests sent, in order, and the context handed
    to [updateLocationContext]. [locationData] is [None] when it is
    [null] or [undefined] (the destructuring throws), and holds its own
    properties otherwise; [token] is [LOCATIONIQ_TOKEN]; [geo] and [tz]
    are how the two requests end. *)
Definition handleLocation (token : JVal)
  (locationData : option (gmap string JVal)) (geo tz : Lookup)
  : list string * LocationContext :=
  match locationData with
  | None => ([], fallbackLocationContext)
  | Some data =>
      let lat := prop data "lat" in
      let lng := prop data "lng" in
      if negb (truthy lat) || negb (truthy lng) then
        ([], fallbackLocationContext)
      else
        let locationInfo := fallbackLocationContext in
        let locationInfo := geocoded geo locationInfo in
        let locationInfo := timezoned tz locationInfo in
        ([reverseUrl token lat lng; timezoneUrl token lat lng], locationInfo)
  end.

(** Every text of the context is truthy. *)
Definition wellFilled (c : LocationContext) : Prop :=
  truthy (city c) = true /\ truthy (state c) = true /\
  truthy (country c) = true /\ truthy (name (timezone c)) = true /\
  truthy (shortName (timezone c)) = true /\
  truthy (fullName (timezone c)) = true /\
  (truthy (offsetSec (timezone c)) = true \/ offsetSec (timezone c) = JNum 0).

(** A request that gives nothing to read. *)
Definition fruitless (l : Lookup) : Prop :=
  l = Thrown \/ l = NotOk \/ l = Data None.

(** The coordinates cannot be used: there is no location data, or [lat]
    or [lng] is falsy (missing, [null], 0). *)
Definition unusable (locationData : option (gmap string JVal)) : Prop :=
  match locationData with
  | None => True
  | Some data =>
      truthy (prop data "lat") = false \/ truthy (prop data "lng") = false
  end.

End Location.

(** ** More on the wake words *)

Module WakeMore.

(** Text as the cleaning leaves it: no upper case, no punctuation, single
    spaces as the only white space, none at either end. *)
Definition clean (s : string) : Prop :=
  Str.all Str.lower_fixed s = true /\
  Str.all Str.not_punct s = true /\
  Str.tidy false s = true /\
  Str.trim s = s.

(** A configured variant stands somewhere in [s], as it is written. *)
Definition containsVariant (s : string) : Prop :=
  exists word pre suf,
    In word explicitWakeWords /\ s = pre +:+ word +:+ suf.

End WakeMore.

(** ** More on the session *)

Module SessionMore.

Import Session Invariant.

Section WithUtils.

Context `{Utils}.

(** [displayQuery] of [processQuery]. *)
Definition displayQueryOf (query : string) : string :=
  if Nat.ltb 60 (String.length query)
  then Str.trim (Str.take 60 query) +:+ " ..."
  else query.

(** The notice shown when the query goes to the agent. *)
Definition processingNotice (query : string) : TextWall :=
  {| wall := wrapText ("Processing query: " +:+ displayQueryOf query) 30;
     durationMs := 8000 |}.

Definition retrievalError : TextWall :=
  {| wall :=
       wrapText
         "Sorry, there was an error retrieving your transcript. Please try again."
         30;
     durationMs := 5000 |}.

Definition formatError : TextWall :=
  {| wall :=
       wrapText "Sorry, the transcript format was invalid. Please try again."
         30;
     durationMs := 5000 |}.

Definition processingError : TextWall :=
  {| wall :=
       wrapText "Sorry, there was an error processing your request." 30;
     durationMs := 5000 |}.

Definition noAnswer : TextWall :=
  {| wall := wrapText "Sorry, I couldn't find an answer to that." 30;
     durationMs := 5000 |}.

(** The query that the segments of a transcript give: their joined text
    with the wake word removed, and [None] when reading them throws. *)
Definition queryOf (segs : list (option Segment)) : option string :=
  match rawCombinedTextOf segs with
  | Some rawCombinedText => Some (removeWakeWord rawCombinedText)
  | None => None
  end.

(** The URL of a transcript request. *)
Definition transcriptUrl (url sid : string) (d : Z) : string :=
  url +:+ "/api/transcripts/" +:+ sid +:+ "?duration=" +:+ pretty d.

(** The manager that [MiraServer.onSession] creates: [rawUrl] is what
    [session.getServerUrl()] returns. *)
Definition onSession (rawUrl : option string) (sessionId : string) : World :=
  newTranscriptionManager sessionId (ServerUrl.getCleanServerUrl rawUrl).

(** [MiraServer.onStop] has removed the manager, and no debounce timer is
    pending. *)
Definition stopped (w : World) : Prop :=
  attached w = false /\ debounceTimers w = [].

(** The run whose fetch ends as [o] in [w] goes on to the agent with
    [query]: the transcript has an array of segments, none of them is
    [null], no query is being processed, and the query is not empty. *)
Definition reachesAgentWith (query : string) (o : FetchOutcome) (w : World)
  : Prop :=
  exists segs,
    segmentsOf o = Some segs /\
    queryOf segs = Some query /\
    isProcessingQuery w = false /\
    Str.trim query <> EmptyString.

Definition reachesAgent (o : FetchOutcome) (w : World) : Prop :=
  exists query, reachesAgentWith query o w.

(** The event leaves the timer [h], set under [k], as it is, or is a
    stop. *)
Definition undisturbedOrStop (k : JVal) (h : nat) (e : Event) : bool :=
  match e with
  | OnStop => true
  | _ => undisturbed k h e
  end.

(** The fields that a session is created with, and the requests sent. *)
Definition requestsOf (w : World) : string * string * list string :=
  (serverUrl w, sessionId w, fetches w).

End WithUtils.

End SessionMore.

(** ** More sessions to run the model on *)

Module MoreSample.

Import Session Invariant Sample SessionMore.

(** The agent answers with a text: the cool-down is pending. *)
Definition answeredTrace : list (Z * Event) :=
  toAgent ++ [(2500, AgentSettles (AgentText "It is noon." None))].

(** A timer is asked for, and the session stops while the run is with the
    agent. *)
Definition stoppedWithAgent : list (Z * Event) :=
  timerAsked ++ [(1800, OnStop)].

(** What still happens to a session that has stopped. *)
Definition afterStop : list (Z * Event) :=
  [(2100, OnStop); (2200, fragment "hey mira" true)].

(** The URL that [session.getServerUrl()] returns. *)
Definition rawSessionUrl : string := "wss://cloud.example/tpa-ws".

(** The session of [rawSessionUrl] after [trace]. *)
Definition afterOn (trace : list (Z * Event)) : World :=
  let w0 := onSession (Some rawSessionUrl) "session-1" in
  default w0 (run trace w0).

(** Notifications of two users. *)
Definition inbox : gmap string (list string) :=
  {[ "u1" := ["a"; "b"; "c"]; "u2" := ["d"] ]}.

(** Location data whose latitude is 0. *)
Definition onEquator : option (gmap string JVal) :=
  Some {[ "lat" := JNum 0; "lng" := JNum 12 ]}.

Definition inTown : option (gmap string JVal) :=
  Some {[ "lat" := JNum 48; "lng" := JNum 2 ]}.

End MoreSample.

(** * Properties *)

(** ** Code units *)

Module CharFacts.

Import Char.

Ltac by_cases c :=
  destruct c as [[|] [|] [|] [|] [|] [|] [|] [|]]; vm_compute;
  try reflexivity; try discriminate; try tauto.

Lemma lower_idem c : lower (lower c) = lower c.
Proof. by_cases c. Qed.

Lemma lower_canonicalize c : lower (canonicalize c) = lower c.
Proof. by_cases c. Qed.

Lemma space_not_punct c : is_space c = true -> is_punct c = false.
Proof. by_cases c. Qed.

Lemma gap_canonicalize c : is_gap c = true -> is_gap (canonicalize c) = true.
Proof. by_cases c. Qed.

Lemma eqb_ci_refl c : eqb_ci c c = true.
Proof. unfold eqb_ci. apply Ascii.eqb_refl. Qed.

Lemma eqb_ci_eq a b : eqb_ci a b = true -> canonicalize a = canonicalize b.
Proof. unfold eqb_ci. apply Ascii.eqb_eq. Qed.

(** A code unit that lowering leaves alone and that equals [a] up to case
    is the lower-case form of [a]. *)
Lemma eqb_ci_lower_fixed a b :
  eqb_ci a b = true -> lower b = b -> b = lower a.
Proof.
  intros Hab Hb. apply eqb_ci_eq in Hab.
  rewrite <- Hb, <- (lower_canonicalize b), <- Hab.
  apply lower_canonicalize.
Qed.

(** Up to case, nothing outside the gap class equals a gap character. *)
Lemma eqb_ci_outside_gap a b :
  eqb_ci a b = true -> is_gap (canonicalize a) = false -> is_gap b = false.
Proof.
  intros Hab Ha. apply eqb_ci_eq in Hab. rewrite Hab in Ha.
  destruct (is_gap b) eqn:Hb; [|reflexivity].
  apply gap_canonicalize in Hb. congruence.
Qed.

End CharFacts.

(** ** Strings *)

Module StrFacts.

Import Char Str CharFacts.

Lemma all_cons p c s : all p (String c s) = true <-> p c = true /\ all p s = true.
Proof. simpl. apply andb_true_iff. Qed.

Lemma all_app p s t : all p (s +:+ t) = all p s && all p t.
Proof.
  induction s as [|c s IH]; simpl; [reflexivity|].
  rewrite IH. apply andb_assoc.
Qed.

(** *** Each stage of the cleaning, and what it establishes *)

Lemma toLowerCase_lower_fixed s : all lower_fixed (toLowerCase s) = true.
Proof.
  induction s as [|c s IH]; simpl; [reflexivity|].
  rewrite IH, andb_true_r. unfold lower_fixed.
  rewrite lower_idem. apply Ascii.eqb_refl.
Qed.

Lemma toLowerCase_fixed s : all lower_fixed s = true -> toLowerCase s = s.
Proof.
  induction s as [|c s IH]; simpl; [reflexivity|].
  intros [Hc Hs]%andb_true_iff. apply Ascii.eqb_eq in Hc.
  rewrite Hc, IH by assumption. reflexivity.
Qed.

Lemma removePunctuation_all p s :
  all p s = true -> all p (removePunctuation s) = true.
Proof.
  induction s as [|c s IH]; simpl; [reflexivity|].
  intros [Hc Hs]%andb_true_iff.
  destruct (is_punct c); simpl; [auto|]. rewrite Hc. simpl. auto.
Qed.

Lemma removePunctuation_not_punct s :
  all not_punct (removePunctuation s) = true.
Proof.
  induction s as [|c s IH]; simpl; [reflexivity|].
  destruct (is_punct c) eqn:Hc; simpl; [assumption|].
  unfold not_punct at 1. rewrite Hc. simpl. assumption.
Qed.

Lemma removePunctuation_fixed s :
  all not_punct s = true -> removePunctuation s = s.
Proof.
  induction s as [|c s IH]; simpl; [reflexivity|].
  intros [Hc Hs]%andb_true_iff. unfold not_punct in Hc.
  apply negb_true_iff in Hc. rewrite Hc, IH by assumption. reflexivity.
Qed.

Lemma collapse_all p b s :
  p " "%char = true -> all p s = true -> all p (collapse b s) = true.
Proof.
  intros Hsp. revert b.
  induction s as [|c s IH]; intros b; simpl; [reflexivity|].
  intros [Hc Hs]%andb_true_iff.
  destruct (is_space c); [destruct b|]; simpl;
    rewrite ?Hsp, ?Hc; simpl; auto.
Qed.

Lemma trimStart_all p s : all p s = true -> all p (trimStart s) = true.
Proof.
  induction s as [|c s IH]; simpl; [reflexivity|].
  intros [Hc Hs]%andb_true_iff.
  destruct (is_space c); simpl; [auto|]. rewrite Hc, Hs. reflexivity.
Qed.

Lemma trimEnd_all p s : all p s = true -> all p (trimEnd s) = true.
Proof.
  induction s as [|c s IH]; simpl; [reflexivity|].
  intros [Hc Hs]%andb_true_iff.
  destruct (is_space c && is_empty (trimEnd s)); simpl; [reflexivity|].
  rewrite Hc. simpl. auto.
Qed.

Lemma trim_all p s : all p s = true -> all p (trim s) = true.
Proof. intros Hs. unfold trim. apply trimEnd_all, trimStart_all, Hs. Qed.

Lemma collapse_tidy b s : tidy b (collapse b s) = true.
Proof.
  revert b. induction s as [|c s IH]; intros b; simpl; [reflexivity|].
  destruct (is_space c) eqn:Hc.
  - destruct b; [apply IH|]. simpl. apply IH.
  - simpl. rewrite Hc. apply IH.
Qed.

Lemma collapse_fixed b s : tidy b s = true -> collapse b s = s.
Proof.
  revert b. induction s as [|c s IH]; intros b; simpl; [reflexivity|].
  destruct (is_space c) eqn:Hc.
  - intros [[Heq Hb]%andb_true_iff Hs]%andb_true_iff.
    apply Ascii.eqb_eq in Heq. apply negb_true_iff in Hb. subst b c.
    rewrite IH by assumption. reflexivity.
  - intros Hs. rewrite IH by assumption. reflexivity.
Qed.

Lemma tidy_weaken s : tidy true s = true -> tidy false s = true.
Proof.
  destruct s as [|c s]; simpl; [reflexivity|].
  destruct (is_space c); [|auto].
  rewrite andb_false_r. discriminate.
Qed.

Lemma trimStart_tidy s : tidy false s = true -> tidy false (trimStart s) = true.
Proof.
  induction s as [|c s IH]; [reflexivity|].
  intros Hs. simpl in *. destruct (is_space c) eqn:Hc.
  - apply andb_true_iff in Hs as [_ Hs]. apply IH, tidy_weaken, Hs.
  - simpl. rewrite Hc. exact Hs.
Qed.

Lemma trimEnd_tidy b s : tidy b s = true -> tidy b (trimEnd s) = true.
Proof.
  revert b. induction s as [|c s IH]; intros b; [reflexivity|].
  intros Hs. simpl in *.
  destruct (is_space c) eqn:Hc; simpl.
  - destruct (is_empty (trimEnd s)); [reflexivity|]. simpl. rewrite Hc.
    apply andb_true_iff in Hs as [Hs1 Hs2]. rewrite Hs1. simpl. auto.
  - rewrite Hc. auto.
Qed.

Lemma trimStart_head s :
  trimStart s = EmptyString \/
  exists c s', trimStart s = String c s' /\ is_space c = false.
Proof.
  induction s as [|c s IH]; simpl; [left; reflexivity|].
  destruct (is_space c) eqn:Hc; [exact IH|]. right. eauto.
Qed.

Lemma trimEnd_idem s : trimEnd (trimEnd s) = trimEnd s.
Proof.
  induction s as [|c s IH]; simpl; [reflexivity|].
  destruct (is_space c && is_empty (trimEnd s)) eqn:E; [reflexivity|].
  simpl. rewrite IH, E. reflexivity.
Qed.

Lemma trimStart_trim s : trimStart (trim s) = trim s.
Proof.
  unfold trim. destruct (trimStart_head s) as [->|(c & s' & -> & Hc)];
    [reflexivity|].
  simpl. rewrite Hc. simpl. rewrite Hc. reflexivity.
Qed.

Lemma trim_idem s : trim (trim s) = trim s.
Proof.
  unfold trim at 1. rewrite trimStart_trim. unfold trim. apply trimEnd_idem.
Qed.

Lemma trim_tidy s : tidy false s = true -> tidy false (trim s) = true.
Proof. intros Hs. unfold trim. apply trimEnd_tidy, trimStart_tidy, Hs. Qed.

Lemma is_empty_true s : is_empty s = true <-> s = EmptyString.
Proof. destruct s; simpl; split; congruence. Qed.

Lemma length_zero s : Nat.eqb (String.length s) 0 = is_empty s.
Proof. destruct s; reflexivity. Qed.

Lemma app_nil s : EmptyString +:+ s = s.
Proof. reflexivity. Qed.

Lemma app_cons c s t : String c s +:+ t = String c (s +:+ t).
Proof. reflexivity. Qed.

Lemma app_empty_r s : s +:+ EmptyString = s.
Proof.
  induction s as [|c s IH]; [reflexivity|]. rewrite app_cons, IH. reflexivity.
Qed.

Lemma app_assoc s t u : (s +:+ t) +:+ u = s +:+ t +:+ u.
Proof.
  induction s as [|c s IH]; [reflexivity|].
  rewrite !app_cons, IH. reflexivity.
Qed.

End StrFacts.

(** ** Wake words *)

Module WakeFacts.

Import Char Str CharFacts StrFacts Wake WakeSpec.

(** *** The cleaning is idempotent *)

Lemma cleanText_lower_fixed x : all lower_fixed (cleanText x) = true.
Proof.
  unfold cleanText, normalizeWhitespace.
  apply trim_all, collapse_all; [reflexivity|].
  apply removePunctuation_all, toLowerCase_lower_fixed.
Qed.

Lemma cleanText_not_punct x : all not_punct (cleanText x) = true.
Proof.
  unfold cleanText, normalizeWhitespace.
  apply trim_all, collapse_all; [reflexivity|].
  apply removePunctuation_not_punct.
Qed.

Lemma cleanText_tidy x : tidy false (cleanText x) = true.
Proof. unfold cleanText, normalizeWhitespace. apply trim_tidy, collapse_tidy. Qed.

Lemma cleanText_trimmed x : trim (cleanText x) = cleanText x.
Proof. unfold cleanText. apply trim_idem. Qed.

Lemma cleanText_idempotent x : cleanText (cleanText x) = cleanText x.
Proof.
  unfold cleanText at 1, normalizeWhitespace.
  rewrite toLowerCase_fixed by apply cleanText_lower_fixed.
  rewrite removePunctuation_fixed by apply cleanText_not_punct.
  rewrite collapse_fixed by apply cleanText_tidy.
  apply cleanText_trimmed.
Qed.

(** C10: the cleaning of fragment text (lowercase, remove [.,!?;:],
    collapse white space, trim) is idempotent, and so [endsWithWakeWord]
    gives the same answer on the raw text and on the cleaned text. *)
Theorem cleanText_idempotent_endsWithWakeWord :
  forall x : string,
    cleanText (cleanText x) = cleanText x /\
    endsWithWakeWord (cleanText x) = endsWithWakeWord x.
Proof.
  intros x. split; [apply cleanText_idempotent|].
  unfold endsWithWakeWord. rewrite cleanText_idempotent. reflexivity.
Qed.

(** *** [endsWithWakeWord] and ending with a variant *)

Lemma equals_ci_refl w : equals_ci w w = true.
Proof.
  induction w as [|c w IH]; simpl; [reflexivity|].
  rewrite eqb_ci_refl, IH. reflexivity.
Qed.

Lemma equals_ci_lower_fixed w t :
  equals_ci w t = true -> all lower_fixed t = true -> t = toLowerCase w.
Proof.
  revert t. induction w as [|a w IH]; intros [|b t]; simpl;
    try discriminate; [reflexivity|].
  intros [Hab Hwt]%andb_true_iff [Hb Ht]%andb_true_iff.
  apply Ascii.eqb_eq in Hb.
  rewrite (eqb_ci_lower_fixed a b Hab Hb), (IH t Hwt Ht). reflexivity.
Qed.

Lemma test_at_end_spec w s :
  test_at_end w s = true <->
  exists pre t, s = pre +:+ t /\ equals_ci w t = true.
Proof.
  induction s as [|c s IH]; simpl.
  - rewrite orb_false_r. split.
    + intros Hw. exists EmptyString, EmptyString. auto.
    + intros (pre & t & Hs & Hw). destruct pre; [|discriminate].
      rewrite app_nil in Hs. subst t. exact Hw.
  - rewrite orb_true_iff, IH. split.
    + intros [Hw|(pre & t & -> & Hw)].
      * exists EmptyString, (String c s). auto.
      * exists (String c pre), t. auto.
    + intros (pre & t & Hs & Hw). destruct pre as [|c' pre].
      * rewrite app_nil in Hs. subst t. left. exact Hw.
      * rewrite app_cons in Hs. injection Hs as -> ->. right. eauto.
Qed.

Lemma wake_words_closed_under_lowering :
  forallb
    (fun w => existsb (String.eqb (toLowerCase w)) explicitWakeWords)
    explicitWakeWords = true.
Proof. vm_compute. reflexivity. Qed.

Lemma toLowerCase_wake_word w :
  In w explicitWakeWords -> In (toLowerCase w) explicitWakeWords.
Proof.
  intros Hw.
  pose proof wake_words_closed_under_lowering as Hall.
  rewrite forallb_forall in Hall. specialize (Hall w Hw).
  apply existsb_exists in Hall as (w' & Hw' & Heq).
  apply String.eqb_eq in Heq. subst w'. exact Hw'.
Qed.

(** On text that is already clean, the regular expressions of
    [endsWithWakeWord] say exactly that the text ends with a variant. *)
Lemma endsWithWakeWord_variant x :
  endsWithWakeWord (cleanText x) = true <-> endsWithVariant (cleanText x).
Proof.
  unfold endsWithWakeWord. rewrite cleanText_idempotent.
  rewrite existsb_exists. split.
  - intros (w & Hw & Ht). apply test_at_end_spec in Ht as (pre & t & Hs & Ht).
    exists (toLowerCase w), pre. split; [apply toLowerCase_wake_word, Hw|].
    rewrite Hs. f_equal. apply equals_ci_lower_fixed; [exact Ht|].
    pose proof (cleanText_lower_fixed x) as Hall.
    rewrite Hs, all_app in Hall. apply andb_true_iff in Hall. tauto.
  - intros (w & pre & Hw & Hs). exists w. split; [exact Hw|].
    apply test_at_end_spec. exists pre, w. split; [exact Hs|].
    apply equals_ci_refl.
Qed.

End WakeFacts.

(** ** [removeWakeWord] against the words of the specification *)

Module RemoveFacts.

Import Char Str CharFacts StrFacts Wake WakeSpec WakeFacts.

Lemma match_literal_sound piece s rest :
  match_literal piece s = Some rest ->
  exists m, equals_ci piece m = true /\ s = m +:+ rest.
Proof.
  revert s. induction piece as [|a piece IH]; intros s; simpl.
  - intros [= ->]. exists EmptyString. auto.
  - destruct s as [|b s]; [discriminate|].
    destruct (eqb_ci a b) eqn:Hab; [|discriminate].
    intros (m & Hm & ->)%IH. exists (String b m). simpl.
    rewrite Hab, Hm. auto.
Qed.

Lemma match_literal_complete piece m rest :
  equals_ci piece m = true -> match_literal piece (m +:+ rest) = Some rest.
Proof.
  revert m. induction piece as [|a piece IH]; intros [|b m]; simpl;
    try discriminate; [reflexivity|].
  intros [Hab Hm]%andb_true_iff. rewrite ?app_cons. simpl. rewrite Hab. apply IH, Hm.
Qed.

Lemma skip_gap_app gap s :
  all is_gap gap = true -> skip_gap (gap +:+ s) = skip_gap s.
Proof.
  induction gap as [|c gap IH]; [reflexivity|].
  intros [Hc Hg]%andb_true_iff. rewrite app_cons. simpl. rewrite Hc. auto.
Qed.

Lemma skip_gap_split s :
  exists gap, all is_gap gap = true /\ s = gap +:+ skip_gap s.
Proof.
  induction s as [|c s (gap & Hg & Hs)]; simpl.
  - exists EmptyString. auto.
  - destruct (is_gap c) eqn:Hc.
    + exists (String c gap). simpl. rewrite Hc, Hg, app_cons, <- Hs. auto.
    + exists EmptyString. auto.
Qed.

Lemma skip_gap_head s : head_outside_gap s -> skip_gap s = s.
Proof. destruct s as [|c s]; simpl; [tauto|]. intros ->. reflexivity. Qed.

Lemma equals_ci_head piece m :
  starts_outside_gap piece = true -> equals_ci piece m = true ->
  forall r, head_outside_gap (m +:+ r).
Proof.
  destruct piece as [|a piece]; [discriminate|].
  destruct m as [|b m]; [discriminate|]. simpl.
  intros Ha%negb_true_iff [Hab _]%andb_true_iff r.
  apply (eqb_ci_outside_gap a b Hab Ha).
Qed.

Lemma spells_head pieces m :
  pieces <> [] -> forallb starts_outside_gap pieces = true ->
  spells pieces m -> forall r, head_outside_gap (m +:+ r).
Proof.
  intros Hne Hall Hsp. destruct Hsp as [|piece m Hm|piece next rest m gap m' Hm];
    [congruence| |]; simpl in Hall; apply andb_true_iff in Hall as [Hp _];
    intros r.
  - apply (equals_ci_head piece m Hp Hm).
  - rewrite app_assoc. apply (equals_ci_head piece m Hp Hm).
Qed.

Lemma match_pattern_sound pieces s rest :
  match_pattern pieces s = Some rest ->
  exists m, spells pieces m /\ s = m +:+ rest.
Proof.
  revert s. induction pieces as [|piece pieces IH]; intros s.
  - simpl. intros [= ->]. exists EmptyString. split; [constructor|auto].
  - destruct pieces as [|next pieces'].
    + simpl. intros (m & Hm & ->)%match_literal_sound.
      exists m. split; [constructor; exact Hm|reflexivity].
    + change (match_pattern (piece :: next :: pieces') s) with
        (match match_literal piece s with
         | Some s1 => match_pattern (next :: pieces') (skip_gap s1)
         | None => None
         end).
      destruct (match_literal piece s) as [s1|] eqn:Hlit; [|discriminate].
      apply match_literal_sound in Hlit as (m & Hm & ->).
      intros (m' & Hsp & Hs1)%IH.
      destruct (skip_gap_split s1) as (gap & Hg & Hsplit).
      exists (m +:+ gap +:+ m'). split; [constructor; assumption|].
      rewrite Hsplit, Hs1, !app_assoc. reflexivity.
Qed.

Lemma match_pattern_complete pieces m rest :
  forallb starts_outside_gap pieces = true ->
  spells pieces m -> match_pattern pieces (m +:+ rest) = Some rest.
Proof.
  intros Hall Hsp. induction Hsp as
    [|piece m Hm|piece next pieces' m gap m' Hm Hg Hsp IH].
  - reflexivity.
  - simpl. apply match_literal_complete, Hm.
  - change (match_pattern (piece :: next :: pieces') ((m +:+ gap +:+ m') +:+ rest))
      with
        (match match_literal piece ((m +:+ gap +:+ m') +:+ rest) with
         | Some s1 => match_pattern (next :: pieces') (skip_gap s1)
         | None => None
         end).
    rewrite app_assoc, (match_literal_complete piece m _ Hm).
    rewrite app_assoc, skip_gap_app by exact Hg.
    simpl in Hall. apply andb_true_iff in Hall as [_ Hall].
    rewrite skip_gap_head; [apply IH, Hall|].
    apply (spells_head (next :: pieces') m'); [discriminate|exact Hall|exact Hsp].
Qed.

Lemma match_alternatives_some pats s rest :
  match_alternatives pats s = Some rest ->
  exists p, In p pats /\ match_pattern p s = Some rest.
Proof.
  induction pats as [|p pats IH]; simpl; [discriminate|].
  destruct (match_pattern p s) as [r|] eqn:Hp.
  - intros [= ->]. exists p. auto.
  - intros (p' & Hin & Hm)%IH. exists p'. auto.
Qed.

Lemma match_alternatives_none pats s :
  match_alternatives pats s = None <->
  forall p, In p pats -> match_pattern p s = None.
Proof.
  induction pats as [|p pats IH]; simpl; [split; [tauto|reflexivity]|].
  destruct (match_pattern p s) as [r|] eqn:Hp.
  - split; [discriminate|]. intros Hall.
    rewrite (Hall p) in Hp by auto. discriminate.
  - rewrite IH. split.
    + intros Hall p' [<-|Hin]; auto.
    + intros Hall p' Hin. apply Hall. auto.
Qed.

Lemma wakePatterns_start_outside_gap :
  forallb (forallb starts_outside_gap) wakePatterns = true.
Proof. vm_compute. reflexivity. Qed.

(** The characters that the two escapings of the source protect do not
    occur in a wake word, but for the hyphen: each wake word stands for
    itself in both regular expressions. *)
Lemma wake_words_are_literal :
  forallb (all (fun c => negb (is_special c) || Ascii.eqb c "-"%char))
    explicitWakeWords = true.
Proof. vm_compute. reflexivity. Qed.

Lemma pattern_good p :
  In p wakePatterns -> forallb starts_outside_gap p = true.
Proof.
  intros Hin. pose proof wakePatterns_start_outside_gap as Hall.
  rewrite forallb_forall in Hall. apply Hall, Hin.
Qed.

(** The alternatives match at the head of [s] exactly when a variant
    stands there. *)
Lemma variantAtHead_alternatives s :
  (exists rest, variantAtHead s rest) <->
  (exists rest, match_alternatives wakePatterns s = Some rest).
Proof.
  split.
  - intros (rest & word & m & Hw & Hsp & ->).
    destruct (match_alternatives wakePatterns (m +:+ rest)) as [r|] eqn:Hm;
      [eauto|].
    rewrite match_alternatives_none in Hm.
    assert (Hin : In (split_space EmptyString word) wakePatterns)
      by (apply in_map, Hw).
    specialize (Hm _ Hin).
    rewrite (match_pattern_complete _ m rest (pattern_good _ Hin) Hsp) in Hm.
    discriminate.
  - intros (rest & (p & Hin & Hm)%match_alternatives_some).
    apply in_map_iff in Hin as (word & <- & Hw).
    apply match_pattern_sound in Hm as (m & Hsp & ->).
    exists rest, word, m. auto.
Qed.

Lemma alternatives_variantAtHead s rest :
  match_alternatives wakePatterns s = Some rest -> variantAtHead s rest.
Proof.
  intros (p & Hin & Hm)%match_alternatives_some.
  apply in_map_iff in Hin as (word & <- & Hw).
  apply match_pattern_sound in Hm as (m & Hsp & ->).
  exists word, m. auto.
Qed.

Lemma no_variant_alternatives s :
  (forall rest, ~ variantAtHead s rest) ->
  match_alternatives wakePatterns s = None.
Proof.
  intros Hno. destruct (match_alternatives wakePatterns s) as [r|] eqn:Hm;
    [|reflexivity].
  exfalso. apply (Hno r), alternatives_variantAtHead, Hm.
Qed.

Lemma occurs_eq text :
  occurs text =
  match match_alternatives wakePatterns text with
  | Some _ => true
  | None =>
      match text with
      | EmptyString => false
      | String _ text' => occurs text'
      end
  end.
Proof. destruct text; reflexivity. Qed.

Lemma match_wakeRegex_eq pats s :
  match_wakeRegex pats s =
  match match_alternatives pats s with
  | Some rest => Some (skip_gap rest)
  | None =>
      match s with
      | EmptyString => None
      | String c s' =>
          if is_line_terminator c then None else match_wakeRegex pats s'
      end
  end.
Proof. destruct s; reflexivity. Qed.

Lemma replace_wakeRegex_eq pats text :
  replace_wakeRegex pats text =
  match match_wakeRegex pats text with
  | Some rest => rest
  | None =>
      match text with
      | EmptyString => EmptyString
      | String c text' => String c (replace_wakeRegex pats text')
      end
  end.
Proof. destruct text; reflexivity. Qed.

Lemma variantAtHead_some s rest :
  variantAtHead s rest -> match_alternatives wakePatterns s <> None.
Proof.
  intros Hv Hnone.
  assert (Hex : exists rest, variantAtHead s rest) by eauto.
  apply variantAtHead_alternatives in Hex as [r Hr]. congruence.
Qed.

Lemma occurs_spec text : occurs text = true <-> variantOccurs text.
Proof.
  induction text as [|c text IH]; rewrite occurs_eq;
    destruct (match_alternatives wakePatterns _) as [r|] eqn:Hm.
  - split; [intros _|intros _; reflexivity].
    exists EmptyString, EmptyString, r. split; [reflexivity|].
    apply alternatives_variantAtHead, Hm.
  - split; [discriminate|]. intros (pre & suf & rest & Ht & Hv).
    destruct pre; [|discriminate]. rewrite app_nil in Ht. subst suf.
    destruct (variantAtHead_some _ _ Hv Hm).
  - split; [intros _|intros _; reflexivity].
    exists EmptyString, (String c text), r. split; [reflexivity|].
    apply alternatives_variantAtHead, Hm.
  - rewrite IH. split.
    + intros (pre & suf & rest & -> & Hv).
      exists (String c pre), suf, rest. auto.
    + intros (pre & suf & rest & Ht & Hv). destruct pre as [|c' pre].
      * rewrite app_nil in Ht. subst suf.
        destruct (variantAtHead_some _ _ Hv Hm).
      * rewrite app_cons in Ht. injection Ht as -> ->.
        exists pre, suf, rest. auto.
Qed.

Lemma match_wakeRegex_no_match text :
  occurs text = false -> match_wakeRegex wakePatterns text = None.
Proof.
  induction text as [|c text IH]; rewrite occurs_eq, match_wakeRegex_eq;
    destruct (match_alternatives wakePatterns _); try discriminate;
    [reflexivity|].
  intros Ht. rewrite (IH Ht). destruct (is_line_terminator c); reflexivity.
Qed.

(** Without a variant anywhere, the regular expression has no match. *)
Lemma replace_no_match text :
  occurs text = false -> replace_wakeRegex wakePatterns text = text.
Proof.
  induction text as [|c text IH]; intros Hocc;
    rewrite replace_wakeRegex_eq, (match_wakeRegex_no_match _ Hocc);
    [reflexivity|].
  rewrite IH; [reflexivity|].
  rewrite occurs_eq in Hocc.
  destruct (match_alternatives wakePatterns (String c text));
    [discriminate|exact Hocc].
Qed.

(** With the first variant at the head of [suf], after a prefix that has
    no line terminator, the match starts at the start of the text. *)
Lemma match_wakeRegex_first pre suf rest :
  all (fun c => negb (is_line_terminator c)) pre = true ->
  noVariantStartsIn pre suf ->
  match_alternatives wakePatterns suf = Some rest ->
  match_wakeRegex wakePatterns (pre +:+ suf) = Some (skip_gap rest).
Proof.
  intros Hlt Hno Hm. induction pre as [|c pre IH].
  - rewrite app_nil, match_wakeRegex_eq, Hm. reflexivity.
  - apply andb_true_iff in Hlt as [Hc%negb_true_iff Hlt].
    rewrite match_wakeRegex_eq, no_variant_alternatives.
    + rewrite app_cons, Hc. apply IH; [exact Hlt|].
      intros p1 p2 r -> Hp2. apply (Hno (String c p1) p2 r); auto.
    + intros r.
      apply (Hno EmptyString (String c pre) r); [reflexivity|discriminate].
Qed.

Lemma replace_match_at_start text rest :
  match_wakeRegex wakePatterns text = Some rest ->
  replace_wakeRegex wakePatterns text = rest.
Proof. intros Hm. rewrite replace_wakeRegex_eq, Hm. reflexivity. Qed.

(** The alternatives give [rest] at the head of [s] exactly when the
    first variant of the list that stands there leaves [rest]. *)
Lemma match_alternatives_first words s rest :
  (forall word, In word words ->
     forallb starts_outside_gap (split_space EmptyString word) = true) ->
  match_alternatives (map (split_space EmptyString) words) s = Some rest <->
  exists before word after,
    words = before ++ word :: after /\
    spelledAtHead word s rest /\
    forall word' rest', In word' before -> ~ spelledAtHead word' s rest'.
Proof.
  induction words as [|w ws IH]; intros Hgood.
  - simpl. split; [discriminate|].
    intros (before & word & after & Heq & _). destruct before; discriminate.
  - assert (Hw : forallb starts_outside_gap (split_space EmptyString w) = true)
      by (apply Hgood; left; reflexivity).
    assert (Hws : forall word, In word ws ->
              forallb starts_outside_gap (split_space EmptyString word) = true)
      by (intros word Hin; apply Hgood; right; exact Hin).
    assert (Hcomplete : forall r, spelledAtHead w s r ->
              match_pattern (split_space EmptyString w) s = Some r).
    { intros r (m & Hsp & ->). apply match_pattern_complete; assumption. }
    simpl.
    destruct (match_pattern (split_space EmptyString w) s) as [r|] eqn:Hm.
    + split.
      * intros [= ->]. exists [], w, ws. split; [reflexivity|].
        split; [apply match_pattern_sound, Hm|]. intros word' rest' [].
      * intros ([|b before] & word & after & Heq & Hsp & Hnone).
        -- injection Heq as <- _. apply Hcomplete in Hsp. congruence.
        -- injection Heq as <- _. exfalso.
           apply (Hnone w r); [left; reflexivity|].
           apply match_pattern_sound, Hm.
    + rewrite (IH Hws). split.
      * intros (before & word & after & -> & Hsp & Hnone).
        exists (w :: before), word, after. split; [reflexivity|].
        split; [exact Hsp|]. intros word' rest' [<-|Hin].
        -- intros Hx%Hcomplete. congruence.
        -- apply Hnone, Hin.
      * intros ([|b before] & word & after & Heq & Hsp & Hnone).
        -- injection Heq as <- _. apply Hcomplete in Hsp. congruence.
        -- injection Heq as <- ->. exists before, word, after.
           split; [reflexivity|]. split; [exact Hsp|].
           intros word' rest' Hin. apply Hnone. right. exact Hin.
Qed.

Lemma firstVariantAtHead_alternatives s rest :
  firstVariantAtHead s rest <->
  match_alternatives wakePatterns s = Some rest.
Proof.
  unfold firstVariantAtHead, wakePatterns.
  rewrite match_alternatives_first; [reflexivity|].
  intros word Hin. apply pattern_good, in_map, Hin.
Qed.

(** C6, as the code has it: without a variant in the text,
    [removeWakeWord] returns the text trimmed; with a variant at the head
    of [suf] and none starting before, after a prefix without line
    terminator, it removes the prefix, the variant read at the head of
    [suf], which is the first of the list among those that stand there,
    and the white space, commas and periods that follow it, and returns
    the remainder trimmed. Wherever a variant stands, one of them is the
    first of the list. *)
Theorem removeWakeWord_strips_first_variant :
  forall text : string,
    (~ variantOccurs text -> removeWakeWord text = trim text) /\
    (forall pre suf rest,
        text = pre +:+ suf ->
        all (fun c => negb (is_line_terminator c)) pre = true ->
        noVariantStartsIn pre suf ->
        firstVariantAtHead suf rest ->
        removeWakeWord text = trim (skip_gap rest)) /\
    (forall suf,
        (exists rest, variantAtHead suf rest) ->
        exists rest, firstVariantAtHead suf rest).
Proof.
  intros text. split; [|split].
  - intros Hno. unfold removeWakeWord. rewrite replace_no_match; [reflexivity|].
    destruct (occurs text) eqn:Hocc; [|reflexivity].
    apply occurs_spec in Hocc. contradiction.
  - intros pre suf rest -> Hlt Hfirst Hm%firstVariantAtHead_alternatives.
    unfold removeWakeWord. f_equal.
    apply replace_match_at_start, match_wakeRegex_first; assumption.
  - intros suf [rest Hm]%variantAtHead_alternatives.
    exists rest. apply firstVariantAtHead_alternatives, Hm.
Qed.

End RemoveFacts.

(** ** Lists of timers *)

Module TimerFacts.

Import Session.

Lemma filter_filter_comm {A} (p q : A -> bool) l :
  List.filter p (List.filter q l) = List.filter q (List.filter p l).
Proof.
  induction l as [|x l IH]; simpl; [reflexivity|].
  destruct (p x) eqn:Hp, (q x) eqn:Hq; simpl; rewrite ?Hp, ?Hq, IH; reflexivity.
Qed.

Lemma filter_none {A} (p : A -> bool) l :
  (forall x, In x l -> p x = false) -> List.filter p l = [].
Proof.
  induction l as [|x l IH]; simpl; [reflexivity|]. intros Hall.
  rewrite (Hall x) by auto. apply IH. auto.
Qed.

Lemma filter_all {A} (p : A -> bool) l :
  (forall x, In x l -> p x = true) -> List.filter p l = l.
Proof.
  induction l as [|x l IH]; simpl; [reflexivity|]. intros Hall.
  rewrite (Hall x) by auto. f_equal. apply IH. auto.
Qed.

Lemma other_true h t : other h t = true <-> handle t <> h.
Proof.
  unfold other. rewrite negb_true_iff, Nat.eqb_neq. reflexivity.
Qed.

Lemma In_others h t l :
  In t (List.filter (other h) l) <-> In t l /\ handle t <> h.
Proof. rewrite filter_In, other_true. reflexivity. Qed.

Lemma NoDup_others h l :
  List.NoDup (map handle l) -> List.NoDup (map handle (List.filter (other h) l)).
Proof.
  induction l as [|t l IH]; simpl; [auto|].
  intros [Hnotin Hnd]%List.NoDup_cons_iff.
  destruct (other h t); simpl; [|auto].
  apply List.NoDup_cons; [|auto].
  intros (t' & Heq & [Hin _]%In_others)%in_map_iff.
  apply Hnotin, in_map_iff. eauto.
Qed.

Lemma NoDup_fresh n l t :
  (forall t', In t' l -> (handle t' < n)%nat) -> handle t = n ->
  List.NoDup (map handle l) -> List.NoDup (map handle (l ++ [t])).
Proof.
  intros Hfresh Ht Hnd. rewrite map_app. simpl.
  apply List.NoDup_app; [exact Hnd|apply List.NoDup_cons; [simpl; tauto|constructor]|].
  intros h (t' & <- & Hin)%in_map_iff [Heq|[]].
  specialize (Hfresh t' Hin). lia.
Qed.

(** With distinct handles, the timers picked by [p] that all bear the
    handle [h] are one at most. *)
Lemma at_most_one (p : Timer -> bool) h l :
  List.NoDup (map handle l) ->
  (forall t, In t l -> p t = true -> handle t = h) ->
  (length (List.filter p l) <= 1)%nat.
Proof.
  induction l as [|t l IH]; simpl; [lia|].
  intros [Hnotin Hnd]%List.NoDup_cons_iff Hall.
  destruct (p t) eqn:Hp; [|apply IH; auto].
  rewrite (filter_none p l); [simpl; lia|].
  intros t' Hin. destruct (p t') eqn:Hp'; [|reflexivity].
  exfalso. apply Hnotin, in_map_iff. exists t'. split; [|exact Hin].
  rewrite (Hall t), (Hall t'); auto.
Qed.

Lemma find_pending h l t :
  List.find (fun t => Nat.eqb (handle t) h) l = Some t ->
  In t l /\ handle t = h.
Proof. intros [Hin Heq%Nat.eqb_eq]%find_some. auto. Qed.


Lemma find_unique h l t :
  List.NoDup (map handle l) -> In t l -> handle t = h ->
  List.find (fun t => Nat.eqb (handle t) h) l = Some t.
Proof.
  induction l as [|t' l IH]; simpl; [tauto|].
  intros [Hnotin Hnd]%List.NoDup_cons_iff [->|Hin] Heq.
  - rewrite Heq, Nat.eqb_refl. reflexivity.
  - destruct (Nat.eqb (handle t') h) eqn:E; [|auto].
    apply Nat.eqb_eq in E. exfalso. apply Hnotin, in_map_iff.
    exists t. split; [congruence|exact Hin].
Qed.

End TimerFacts.

(** ** The invariant of a session *)

Module SessionFacts.

Import Session Invariant TimerFacts WakeSpec.

#[local] Opaque removeWakeWord cleanText hasWakeWord endsWithWakeWord.

Section WithUtils.

Context `{Utils}.

Implicit Types (w : World) (t : Timer).

(** *** Changes that the invariant does not see *)

Lemma structure_ok_frame w w' :
  frame w = frame w' -> structure_ok w -> structure_ok w'.
Proof.
  unfold frame. intros [= Ht Hn Hid Hreg] [].
  split; rewrite <- ?Ht, <- ?Hn, <- ?Hid, <- ?Hreg; assumption.
Qed.

Lemma structure_ok_shape w w' :
  shape w = shape w' -> structure_ok w -> structure_ok w'.
Proof.
  unfold shape, frame. intros [= Ht Hn Hid Hreg _ _].
  apply structure_ok_frame. unfold frame. congruence.
Qed.

Lemma accounted_shape w w' : shape w = shape w' -> accounted w -> accounted w'.
Proof.
  unfold shape, frame, accounted, cooldownTimers. intros [= Ht _ _ _ Ha Hp].
  rewrite <- Ht, <- Ha, <- Hp. auto.
Qed.

Lemma invariant_shape w w' : shape w = shape w' -> invariant w -> invariant w'.
Proof.
  intros Hs [Hok Hacc]. split;
    [apply (structure_ok_shape w)|apply (accounted_shape w)]; assumption.
Qed.

Lemma shape_showTextWall s ms w : shape (showTextWall s ms w) = shape w.
Proof. destruct w; reflexivity. Qed.

Lemma shape_showListening data w : shape (showListening data w) = shape w.
Proof.
  unfold showListening.
  destruct (Nat.eqb _ 0).
  - destruct (negb _); destruct w; reflexivity.
  - destruct (processString _ _ _). destruct w; reflexivity.
Qed.

(** *** Removing and adding timers *)

Lemma structure_ok_filter q w :
  structure_ok w -> structure_ok (set_timers (List.filter q (timers w)) w).
Proof.
  intros []. destruct w; simpl in *. split; simpl; try assumption.
  - intros t [Hin _]%filter_In. auto.
  - clear -inv_distinct0. induction timers0 as [|t l IH]; simpl; [constructor|].
    apply List.NoDup_cons_iff in inv_distinct0 as [Hnotin Hnd].
    destruct (q t); simpl; [|auto]. apply List.NoDup_cons; [|auto].
    intros (t' & Heq & [Hin _]%filter_In)%in_map_iff.
    apply Hnotin, in_map_iff. eauto.
  - intros t [Hin _]%filter_In. auto.
  - intros k t [Hin _]%filter_In. eauto.
Qed.

Lemma cooldown_others h (l : list Timer) :
  (forall t, In t l -> handle t = h -> is_cooldown t = false) ->
  List.filter is_cooldown (List.filter (other h) l) = List.filter is_cooldown l.
Proof.
  intros Hall. rewrite filter_filter_comm. apply filter_all.
  intros t [Hin Hc]%filter_In. apply other_true. intros Heq.
  rewrite (Hall t Hin Heq) in Hc. discriminate.
Qed.

Lemma debounce_not_cooldown t : is_debounce t = true -> is_cooldown t = false.
Proof. unfold is_debounce, is_cooldown. destruct (task t); congruence. Qed.

Lemma withoutDebounce_In w t : In t (withoutDebounce w) -> In t (timers w).
Proof.
  unfold withoutDebounce. destruct (timeoutId w); [|auto].
  intros [Hin _]%In_others. exact Hin.
Qed.

Lemma withoutDebounce_none w t :
  structure_ok w -> In t (withoutDebounce w) -> is_debounce t = false.
Proof.
  intros Hok Hin. destruct (is_debounce t) eqn:Hd; [|reflexivity].
  pose proof (withoutDebounce_In w t Hin) as Hin'.
  apply (inv_debounce w Hok t Hin') in Hd.
  unfold withoutDebounce in Hin. rewrite Hd in Hin.
  apply In_others in Hin as [_ Hne]. congruence.
Qed.

Lemma withoutDebounce_cooldown w :
  structure_ok w ->
  List.filter is_cooldown (withoutDebounce w) = cooldownTimers w.
Proof.
  intros Hok. unfold withoutDebounce, cooldownTimers.
  destruct (timeoutId w) as [h|] eqn:Hid; [|reflexivity].
  apply cooldown_others. intros t Hin Heq.
  apply debounce_not_cooldown, (inv_debounce w Hok t Hin). congruence.
Qed.

Lemma withoutDebounce_structure w :
  structure_ok w -> structure_ok (set_timers (withoutDebounce w) w).
Proof.
  intros Hok. unfold withoutDebounce. destruct (timeoutId w) eqn:Hid.
  - apply structure_ok_filter, Hok.
  - apply (structure_ok_frame w); [destruct w; reflexivity|exact Hok].
Qed.

Lemma setTimeout_timers now tk d w :
  timers (snd (setTimeout now tk d w)) = timers w ++ [newTimer now tk d w].
Proof. destruct w; reflexivity. Qed.

Lemma setTimeout_nextHandle now tk d w :
  nextHandle (snd (setTimeout now tk d w)) = S (nextHandle w).
Proof. destruct w; reflexivity. Qed.

Lemma setTimeout_handle now tk d w :
  fst (setTimeout now tk d w) = nextHandle w.
Proof. reflexivity. Qed.

Lemma setTimeout_structure now tk d w :
  structure_ok w ->
  (forall x y, tk <> DebounceTask x y) ->
  structure_ok (snd (setTimeout now tk d w)).
Proof.
  intros [] Htk. destruct w; simpl in *. split; simpl.
  - intros t [Hin|[<-|[]]]%in_app_or; [|simpl; lia].
    specialize (inv_fresh0 t Hin). lia.
  - apply (NoDup_fresh nextHandle0); auto.
  - intros h Hh. specialize (inv_timeoutId0 h Hh). lia.
  - intros t [Hin|[<-|[]]]%in_app_or; [auto|].
    unfold is_debounce. simpl. split.
    + destruct tk; try discriminate. destruct (Htk rawText timerDuration eq_refl).
    + intros Hid. specialize (inv_timeoutId0 _ Hid). lia.
  - intros k h Hk. specialize (inv_registry_fresh0 k h Hk). lia.
  - intros k t [Hin|[<-|[]]]%in_app_or Hk; [eauto|].
    simpl in Hk. specialize (inv_registry_fresh0 k _ Hk). lia.
Qed.

Lemma setTimeout_cooldown now tk d w :
  cooldownTimers (snd (setTimeout now tk d w)) =
  cooldownTimers w ++
  (if is_cooldown (newTimer now tk d w) then [newTimer now tk d w] else []).
Proof.
  unfold cooldownTimers. rewrite setTimeout_timers, List.filter_app. reflexivity.
Qed.

(** *** [rearm] *)

(** The delays of the debounce timer are among those the host keeps. *)
Lemma timeoutDelay_timerDurationOf data cleanedText :
  timeoutDelay (Finite (timerDurationOf data cleanedText) 0) =
  timerDurationOf data cleanedText.
Proof.
  unfold timerDurationOf.
  destruct (isFinal data); [destruct (endsWithWakeWord cleanedText)|];
    reflexivity.
Qed.

Lemma rearm_eq now x d w :
  rearm now x d w =
  set_timeoutId (Some (nextHandle w))
    (snd (setTimeout now (DebounceTask x d) (Finite d 0)
            (set_timers (withoutDebounce w) w))).
Proof.
  unfold rearm, withoutDebounce, clearTimeout. destruct w; simpl.
  destruct timeoutId0; reflexivity.
Qed.

Lemma add_debounce_structure now x d w :
  structure_ok w ->
  (forall t, In t (timers w) -> is_debounce t = false) ->
  structure_ok
    (set_timeoutId (Some (nextHandle w))
       (snd (setTimeout now (DebounceTask x d) (Finite d 0) w))).
Proof.
  intros [] Hnone. destruct w; simpl in *. split; simpl.
  - intros t [Hin|[<-|[]]]%in_app_or; [|simpl; lia].
    specialize (inv_fresh0 t Hin). lia.
  - apply (NoDup_fresh nextHandle0); auto.
  - intros h [= <-]. lia.
  - intros t [Hin|[<-|[]]]%in_app_or.
    + rewrite (Hnone t Hin). split; [discriminate|].
      intros [= Heq]. specialize (inv_fresh0 t Hin). lia.
    + split; reflexivity.
  - intros k h Hk. specialize (inv_registry_fresh0 k h Hk). lia.
  - intros k t [Hin|[<-|[]]]%in_app_or Hk; [eauto|reflexivity].
Qed.

Lemma rearm_structure now x d w :
  structure_ok w -> structure_ok (rearm now x d w).
Proof.
  intros Hok. rewrite rearm_eq.
  pose proof (add_debounce_structure now x d
                (set_timers (withoutDebounce w) w)) as Hadd.
  replace (nextHandle (set_timers (withoutDebounce w) w))
    with (nextHandle w) in Hadd by (destruct w; reflexivity).
  apply Hadd; [apply withoutDebounce_structure, Hok|].
  replace (timers (set_timers (withoutDebounce w) w))
    with (withoutDebounce w) by (destruct w; reflexivity).
  intros t. apply withoutDebounce_none, Hok.
Qed.

Lemma rearm_timers now x d w :
  timers (rearm now x d w) =
  withoutDebounce w ++ [newTimer now (DebounceTask x d) (Finite d 0) w].
Proof. rewrite rearm_eq. destruct w; reflexivity. Qed.


Lemma rearm_kept now x d w :
  (isProcessingQuery (rearm now x d w), isListeningToQuery (rearm now x d w),
   transcriptionStartTime (rearm now x d w), activeTimers (rearm now x d w),
   transcriptProcessor (rearm now x d w), display (rearm now x d w),
   fetches (rearm now x d w), agentCalls (rearm now x d w),
   awaitingFetch (rearm now x d w), awaitingAgent (rearm now x d w),
   attached (rearm now x d w)) =
  (isProcessingQuery w, isListeningToQuery w, transcriptionStartTime w,
   activeTimers w, transcriptProcessor w, display w, fetches w, agentCalls w,
   awaitingFetch w, awaitingAgent w, attached w).
Proof. rewrite rearm_eq. destruct w; reflexivity. Qed.

Lemma rearm_cooldown now x d w :
  structure_ok w -> cooldownTimers (rearm now x d w) = cooldownTimers w.
Proof.
  intros Hok. unfold cooldownTimers at 1.
  rewrite rearm_timers, List.filter_app, withoutDebounce_cooldown by exact Hok.
  simpl. apply app_nil_r.
Qed.

Lemma rearm_debounce now x d w :
  structure_ok w ->
  debounceTimers (rearm now x d w) =
  [newTimer now (DebounceTask x d) (Finite d 0) w].
Proof.
  intros Hok. unfold debounceTimers.
  rewrite rearm_timers, List.filter_app.
  rewrite (filter_none is_debounce (withoutDebounce w)); [reflexivity|].
  intros t. apply withoutDebounce_none, Hok.
Qed.

Lemma rearm_accounted now x d w :
  structure_ok w -> accounted w -> accounted (rearm now x d w).
Proof.
  intros Hok Hacc. unfold accounted.
  rewrite (rearm_cooldown now x d w Hok).
  pose proof (rearm_kept now x d w) as [= -> _ _ _ _ _ _ _ _ -> _].
  exact Hacc.
Qed.

(** *** [handleTranscription] *)

Lemma shape_listening now data w : shape (listening now data w) = shape w.
Proof.
  unfold listening. rewrite shape_showListening.
  destruct (_ =? 0); destruct w; reflexivity.
Qed.

Lemma handleTranscription_accepted now data w :
  accepted data w ->
  handleTranscription now data w =
  rearm now (text data) (timerDurationOf data (cleanText (text data)))
    (listening now data w).
Proof.
  intros [Hp Hacc]. unfold handleTranscription. rewrite Hp.
  destruct (negb _ && negb _) eqn:E; [|reflexivity].
  apply andb_true_iff in E as [E1%negb_true_iff E2%negb_true_iff].
  destruct Hacc; congruence.
Qed.

Lemma handleTranscription_ignored now data w :
  ~ accepted data w -> handleTranscription now data w = w.
Proof.
  intros Hno. unfold handleTranscription.
  destruct (isProcessingQuery w) eqn:Hp; [reflexivity|].
  destruct (negb _ && negb _) eqn:E; [reflexivity|].
  exfalso. apply Hno. split; [exact Hp|].
  apply andb_false_iff in E as [E%negb_false_iff|E%negb_false_iff]; auto.
Qed.

Lemma accepted_dec data w : accepted data w \/ ~ accepted data w.
Proof.
  unfold accepted.
  destruct (isProcessingQuery w), (hasWakeWord _), (isListeningToQuery w);
    intuition congruence.
Qed.

Lemma handleTranscription_invariant now data w :
  invariant w -> invariant (handleTranscription now data w).
Proof.
  intros [Hok Hacc]. destruct (accepted_dec data w) as [Ha|Hn].
  - rewrite (handleTranscription_accepted now data w Ha).
    pose proof (shape_listening now data w) as Hs. symmetry in Hs.
    split.
    + apply rearm_structure, (structure_ok_shape w), Hok. exact Hs.
    + apply rearm_accounted.
      * apply (structure_ok_shape w), Hok. exact Hs.
      * apply (accounted_shape w), Hacc. exact Hs.
  - rewrite (handleTranscription_ignored now data w Hn). split; assumption.
Qed.

(** *** The [finally] block *)

Lemma finally_frame now w :
  frame (finally now w) =
  frame (snd (setTimeout now CooldownTask (Finite 2000 0)
                (set_timeoutId None (set_timers (withoutDebounce w) w)))).
Proof.
  unfold finally, withoutDebounce, clearTimeout. destruct w; simpl.
  destruct timeoutId0; reflexivity.
Qed.

Lemma clear_timeoutId_structure w :
  structure_ok w ->
  (forall t, In t (timers w) -> is_debounce t = false) ->
  structure_ok (set_timeoutId None w).
Proof.
  intros [] Hnone. destruct w; simpl in *. split; simpl; try assumption.
  - discriminate.
  - intros t Hin. rewrite (Hnone t Hin). split; discriminate.
Qed.

Lemma finally_structure now w : structure_ok w -> structure_ok (finally now w).
Proof.
  intros Hok. eapply structure_ok_frame; [symmetry; apply finally_frame|].
  apply setTimeout_structure; [|discriminate].
  apply clear_timeoutId_structure.
  - apply withoutDebounce_structure, Hok.
  - replace (timers (set_timers (withoutDebounce w) w))
      with (withoutDebounce w) by (destruct w; reflexivity).
    intros t. apply withoutDebounce_none, Hok.
Qed.

Lemma finally_timers now w :
  timers (finally now w) =
  withoutDebounce w ++ [newTimer now CooldownTask (Finite 2000 0) w].
Proof.
  unfold finally, withoutDebounce, clearTimeout. destruct w; simpl.
  destruct timeoutId0; reflexivity.
Qed.

(** What the [finally] block leaves in the fields of the manager. *)
Lemma finally_fields now w :
  transcriptionStartTime (finally now w) = 0 /\
  timeoutId (finally now w) = None /\
  isListeningToQuery (finally now w) = false /\
  transcriptProcessor (finally now w) = clear (transcriptProcessor w) /\
  isProcessingQuery (finally now w) = isProcessingQuery w /\
  activeTimers (finally now w) = activeTimers w.
Proof.
  unfold finally, clearTimeout. destruct w; simpl.
  destruct timeoutId0; simpl; repeat split.
Qed.

Lemma finally_kept now w :
  (display (finally now w), fetches (finally now w), agentCalls (finally now w),
   awaitingFetch (finally now w), awaitingAgent (finally now w),
   attached (finally now w), nextHandle (finally now w)) =
  (display w, fetches w, agentCalls w, awaitingFetch w, awaitingAgent w,
   attached w, S (nextHandle w)).
Proof.
  unfold finally, clearTimeout. destruct w; simpl.
  destruct timeoutId0; reflexivity.
Qed.

Lemma finally_cooldown now w :
  structure_ok w ->
  cooldownTimers (finally now w) =
  cooldownTimers w ++ [newTimer now CooldownTask (Finite 2000 0) w].
Proof.
  intros Hok. unfold cooldownTimers at 1.
  rewrite finally_timers, List.filter_app, withoutDebounce_cooldown by exact Hok.
  reflexivity.
Qed.

(** The [finally] block ends a run that holds the processing flag and is
    not with the agent any more. *)
Lemma finally_accounted now w :
  structure_ok w ->
  isProcessingQuery w = true -> awaitingAgent w = 0%nat ->
  cooldownTimers w = [] ->
  accounted (finally now w).
Proof.
  intros Hok Hp Ha Hc. unfold accounted.
  rewrite (finally_cooldown now w Hok), Hc.
  destruct (finally_fields now w) as (_ & _ & _ & _ & -> & _).
  pose proof (finally_kept now w) as [= _ _ _ _ -> _ _].
  rewrite Hp, Ha. reflexivity.
Qed.

(** *** [processQuery], up to the agent *)

Lemma shape_processQuery now x d w : shape (processQuery now x d w) = shape w.
Proof. destruct w; reflexivity. Qed.

Lemma accounted_idle w :
  accounted w -> isProcessingQuery w = false ->
  awaitingAgent w = 0%nat /\ cooldownTimers w = [].
Proof.
  unfold accounted. intros Hacc Hp. rewrite Hp in Hacc.
  destruct (cooldownTimers w); [split; [lia|reflexivity]|].
  simpl in Hacc. exfalso. lia.
Qed.

Lemma accounted_with_agent w :
  accounted w -> awaitingAgent w <> 0%nat ->
  isProcessingQuery w = true /\ awaitingAgent w = 1%nat /\
  cooldownTimers w = [].
Proof.
  unfold accounted. intros Hacc Ha.
  destruct (isProcessingQuery w); [|exfalso; lia].
  destruct (cooldownTimers w);
    [split; [reflexivity|split; [lia|reflexivity]]|].
  simpl in Hacc. exfalso. lia.
Qed.

Lemma processQuery_afterFetch_invariant now o w :
  invariant w -> invariant (processQuery_afterFetch now o w).
Proof.
  intros Hinv. unfold processQuery_afterFetch.
  set (w1 := set_awaitingFetch _ w).
  assert (Hs1 : shape w = shape w1) by (destruct w; reflexivity).
  assert (Hinv1 : invariant w1) by (apply (invariant_shape w); assumption).
  destruct (transcriptionResponseOf o) as [resp|].
  2:{ apply (invariant_shape w1); [|exact Hinv1].
      symmetry. apply shape_showTextWall. }
  destruct (segments resp) as [segs|].
  2:{ apply (invariant_shape w1); [|exact Hinv1].
      symmetry. apply shape_showTextWall. }
  destruct (rawCombinedTextOf segs) as [rawCombinedText|]; [|exact Hinv1].
  destruct (isProcessingQuery w1) eqn:Hp; [exact Hinv1|].
  destruct Hinv1 as [Hok Hacc].
  destruct (accounted_idle w1 Hacc Hp) as [Ha Hc].
  destruct (Nat.eqb _ 0).
  - set (w2 := showTextWall _ _ _).
    assert (Hf : frame w1 = frame w2) by (destruct w1; reflexivity).
    assert (Hok2 : structure_ok w2) by (apply (structure_ok_frame w1); assumption).
    split; [apply finally_structure, Hok2|].
    apply finally_accounted; [exact Hok2|destruct w1; reflexivity| |].
    + rewrite <- Ha. destruct w1; reflexivity.
    + rewrite <- Hc. destruct w1; reflexivity.
  - set (w2 := showTextWall _ _ _). set (w3 := set_awaitingAgent _ _).
    assert (Hf : frame w1 = frame w3) by (destruct w1; reflexivity).
    split; [apply (structure_ok_frame w1); assumption|].
    unfold accounted.
    replace (cooldownTimers w3) with (cooldownTimers w1)
      by (destruct w1; reflexivity).
    replace (isProcessingQuery w3) with true by (destruct w1; reflexivity).
    replace (awaitingAgent w3) with (S (awaitingAgent w1))
      by (destruct w1; reflexivity).
    rewrite Ha, Hc. reflexivity.
Qed.

(** *** The [timer_set] event and the end of a run *)

Lemma timerSet_timers now parsed w :
  timers (timerSet now parsed w) = timers w ++ [sideEffectTimer now parsed w].
Proof. destruct w; reflexivity. Qed.

Lemma timerSet_activeTimers now parsed w :
  activeTimers (timerSet now parsed w) =
  <[prop parsed "timerId" := nextHandle w]> (activeTimers w).
Proof. destruct w; reflexivity. Qed.

Lemma timerSet_display now parsed w :
  display (timerSet now parsed w) =
  {| wall :=
       wrapText
         ("Timer set" +:+ labelTextOf parsed +:+ " for " +:+
          to_string (prop parsed "duration") +:+ " seconds.") 30;
     durationMs := 5000 |} :: display w.
Proof. destruct w; reflexivity. Qed.

Lemma timerSet_kept now parsed w :
  (isProcessingQuery (timerSet now parsed w),
   isListeningToQuery (timerSet now parsed w),
   timeoutId (timerSet now parsed w),
   transcriptionStartTime (timerSet now parsed w),
   transcriptProcessor (timerSet now parsed w),
   awaitingAgent (timerSet now parsed w),
   nextHandle (timerSet now parsed w)) =
  (isProcessingQuery w, isListeningToQuery w, timeoutId w,
   transcriptionStartTime w, transcriptProcessor w, awaitingAgent w,
   S (nextHandle w)).
Proof. destruct w; reflexivity. Qed.

Lemma timerSet_structure now parsed w :
  structure_ok w -> structure_ok (timerSet now parsed w).
Proof.
  intros Hok.
  pose proof (setTimeout_structure now
    (SideEffectTask (labelTextOf parsed) (prop parsed "timerId"))
    (times (prop parsed "duration") 1000) w Hok) as Hset.
  specialize (Hset ltac:(discriminate)).
  destruct Hok, Hset. destruct w; simpl in *. split; simpl; try assumption.
  - intros k h [[_ <-]|[_ Hk]]%lookup_insert_Some; [lia|eauto].
  - intros k t Hin [[_ Hh]|[_ Hk]]%lookup_insert_Some; [|eauto].
    apply in_app_or in Hin as [Hin|[<-|[]]]; [|reflexivity].
    specialize (inv_fresh0 t Hin). lia.
Qed.

Lemma timerSet_cooldown now parsed w :
  cooldownTimers (timerSet now parsed w) = cooldownTimers w.
Proof.
  unfold cooldownTimers. rewrite timerSet_timers, List.filter_app. simpl.
  apply app_nil_r.
Qed.

Lemma handleEvent_cases now parsed w :
  handleEvent now parsed w = (w, false) \/
  exists obj,
    parsed = Some obj /\
    prop obj "event" = JStr "timer_set" /\
    truthy (prop obj "duration") = true /\
    handleEvent now parsed w = (timerSet now obj w, true).
Proof.
  unfold handleEvent. destruct parsed as [obj|]; [|auto].
  destruct (truthy (prop obj "event")); [|auto].
  case_bool_decide; [|auto].
  destruct (truthy (prop obj "duration")) eqn:Hd; [|auto].
  right. exists obj. auto.
Qed.

Lemma processQuery_afterAgent_eq now o w :
  processQuery_afterAgent now o w =
  finally now
    (answered now o (set_awaitingAgent (Nat.pred (awaitingAgent w)) w)).
Proof. reflexivity. Qed.

Lemma answered_cases now o w :
  shape (answered now o w) = shape w \/
  exists obj, answered now o w = timerSet now obj w.
Proof.
  destruct o as [| |resp parsed]; simpl;
    try (left; apply shape_showTextWall).
  destruct (Str.is_empty resp); [left; apply shape_showTextWall|].
  destruct (handleEvent_cases now parsed w) as [->|(obj & _ & _ & _ & ->)].
  - left. apply shape_showTextWall.
  - right. eauto.
Qed.

Lemma answered_structure now o w :
  structure_ok w -> structure_ok (answered now o w).
Proof.
  intros Hok. destruct (answered_cases now o w) as [Hs|[obj ->]].
  - apply (structure_ok_shape w); auto.
  - apply timerSet_structure, Hok.
Qed.

Lemma answered_counts now o w :
  isProcessingQuery (answered now o w) = isProcessingQuery w /\
  awaitingAgent (answered now o w) = awaitingAgent w /\
  cooldownTimers (answered now o w) = cooldownTimers w.
Proof.
  destruct (answered_cases now o w) as [Hs|[obj ->]].
  - unfold shape, frame, cooldownTimers in *.
    injection Hs as -> _ _ _ -> ->. auto.
  - rewrite timerSet_cooldown.
    pose proof (timerSet_kept now obj w) as [= -> _ _ _ _ -> _]. auto.
Qed.

Lemma processQuery_afterAgent_invariant now o w :
  awaitingAgent w <> 0%nat ->
  invariant w -> invariant (processQuery_afterAgent now o w).
Proof.
  intros Hawait [Hok Hacc]. rewrite processQuery_afterAgent_eq.
  destruct (accounted_with_agent w Hacc Hawait) as (Hp & Ha & Hc).
  set (w1 := set_awaitingAgent _ w).
  assert (Hok1 : structure_ok w1)
    by (apply (structure_ok_frame w); [destruct w; reflexivity|exact Hok]).
  pose proof (answered_structure now o w1 Hok1) as Hok2.
  destruct (answered_counts now o w1) as (Hp2 & Ha2 & Hc2).
  split; [apply finally_structure, Hok2|].
  apply finally_accounted; [exact Hok2| | |].
  - rewrite Hp2, <- Hp. destruct w; reflexivity.
  - rewrite Ha2. unfold w1. rewrite Ha. destruct w; reflexivity.
  - rewrite Hc2, <- Hc. destruct w; reflexivity.
Qed.

(** *** [cleanup] *)

Lemma filter_filter_and {A} (p q : A -> bool) l :
  List.filter p (List.filter q l) = List.filter (fun x => p x && q x) l.
Proof.
  induction l as [|x l IH]; simpl; [reflexivity|].
  destruct (q x); simpl; rewrite ?andb_false_r, ?andb_true_r;
    [destruct (p x)|]; rewrite IH; reflexivity.
Qed.

Lemma clearTimeout_all hs w :
  fold_right clearTimeout w hs = set_timers (List.filter (kept hs) (timers w)) w.
Proof.
  induction hs as [|h hs IH]; simpl.
  - unfold kept. simpl. rewrite filter_all by reflexivity.
    destruct w; reflexivity.
  - rewrite IH. unfold clearTimeout. destruct w; simpl. f_equal.
    apply filter_filter_and.
Qed.

Lemma registered_In w h :
  In h (registered w) <-> exists k, activeTimers w !! k = Some h.
Proof.
  unfold registered. rewrite in_map_iff. split.
  - intros ([k h'] & <- & Hin). exists k.
    apply list_elem_of_In, elem_of_map_to_list in Hin. exact Hin.
  - intros [k Hk]. exists (k, h). split; [reflexivity|].
    apply list_elem_of_In, elem_of_map_to_list. exact Hk.
Qed.

Lemma kept_false hs t : kept hs t = false -> In (handle t) hs.
Proof.
  unfold kept. induction hs as [|h hs IH]; simpl; [discriminate|].
  destruct (other h t) eqn:E; simpl; [auto|]. intros _. left.
  unfold other in E. apply negb_false_iff, Nat.eqb_eq in E. auto.
Qed.


Lemma cleanup_timers w :
  timers (cleanup w) = List.filter (kept (registered w)) (withoutDebounce w).
Proof.
  unfold cleanup. rewrite clearTimeout_all.
  unfold withoutDebounce, registered, clearTimeout.
  destruct w; simpl. destruct timeoutId0; reflexivity.
Qed.

Lemma cleanup_kept w :
  (isProcessingQuery (cleanup w), isListeningToQuery (cleanup w),
   timeoutId (cleanup w), transcriptionStartTime (cleanup w),
   transcriptProcessor (cleanup w), nextHandle (cleanup w),
   display (cleanup w), fetches (cleanup w), agentCalls (cleanup w),
   awaitingFetch (cleanup w), awaitingAgent (cleanup w)) =
  (isProcessingQuery w, isListeningToQuery w, timeoutId w,
   transcriptionStartTime w, transcriptProcessor w, nextHandle w,
   display w, fetches w, agentCalls w, awaitingFetch w, awaitingAgent w).
Proof.
  unfold cleanup. rewrite clearTimeout_all. unfold clearTimeout.
  destruct w; simpl. destruct timeoutId0; reflexivity.
Qed.

Lemma cleanup_activeTimers w : activeTimers (cleanup w) = ∅.
Proof. unfold cleanup. destruct (fold_right _ _ _). reflexivity. Qed.

Lemma cleanup_structure w : structure_ok w -> structure_ok (cleanup w).
Proof.
  intros Hok.
  pose proof (structure_ok_filter (kept (registered w)) _
                (withoutDebounce_structure w Hok)) as [].
  pose proof (cleanup_timers w) as Ht.
  pose proof (cleanup_kept w) as [= _ _ Hid _ _ Hn _ _ _ _ _].
  pose proof (cleanup_activeTimers w) as Hreg.
  replace (timers (set_timers (withoutDebounce w) w))
    with (withoutDebounce w) in * by (destruct w; reflexivity).
  replace (timers (set_timers _ (set_timers (withoutDebounce w) w)))
    with (List.filter (kept (registered w)) (withoutDebounce w)) in *
    by (destruct w; reflexivity).
  replace (nextHandle (set_timers _ (set_timers (withoutDebounce w) w)))
    with (nextHandle w) in * by (destruct w; reflexivity).
  replace (timeoutId (set_timers _ (set_timers (withoutDebounce w) w)))
    with (timeoutId w) in * by (destruct w; reflexivity).
  split; rewrite ?Ht, ?Hid, ?Hn, ?Hreg; try assumption.
  - intros k h Hk. rewrite lookup_empty in Hk. discriminate.
  - intros k t _ Hk. rewrite lookup_empty in Hk. discriminate.
Qed.

Lemma cleanup_cooldown w :
  structure_ok w -> cooldownTimers (cleanup w) = cooldownTimers w.
Proof.
  intros Hok. unfold cooldownTimers at 1.
  rewrite cleanup_timers, filter_filter_comm.
  rewrite withoutDebounce_cooldown by exact Hok.
  apply filter_all. intros t [Hin Hc]%filter_In.
  destruct (kept (registered w) t) eqn:E; [reflexivity|].
  apply kept_false, registered_In in E as [k Hk].
  rewrite (inv_registry w Hok k t Hin Hk) in Hc. discriminate.
Qed.

Lemma cleanup_invariant w : invariant w -> invariant (cleanup w).
Proof.
  intros [Hok Hacc]. split; [apply cleanup_structure, Hok|].
  unfold accounted. rewrite (cleanup_cooldown w Hok).
  pose proof (cleanup_kept w) as [= -> _ _ _ _ _ _ _ _ _ ->]. exact Hacc.
Qed.

(** *** A timer runs *)

Lemma same_handle (l : list Timer) t t' :
  List.NoDup (map handle l) -> In t l -> In t' l ->
  handle t = handle t' -> t = t'.
Proof.
  induction l as [|x l IH]; simpl; [tauto|].
  intros [Hnotin Hnd]%List.NoDup_cons_iff [->|Hin] [->|Hin'] Heq; auto.
  - exfalso. apply Hnotin, in_map_iff. exists t'. auto.
  - exfalso. apply Hnotin, in_map_iff. exists t. auto.
Qed.

Lemma pending_In h w t :
  pending h w = Some t -> In t (timers w) /\ handle t = h.
Proof. apply find_pending. Qed.

Lemma clearTimeout_structure h w :
  structure_ok w -> structure_ok (clearTimeout h w).
Proof. apply structure_ok_filter. Qed.

Lemma clearTimeout_cooldown_other h w t :
  structure_ok w -> pending h w = Some t -> is_cooldown t = false ->
  cooldownTimers (clearTimeout h w) = cooldownTimers w.
Proof.
  intros Hok [Hin Hh]%pending_In Hc.
  unfold cooldownTimers, clearTimeout.
  replace (timers (set_timers (List.filter (other h) (timers w)) w))
    with (List.filter (other h) (timers w)) by (destruct w; reflexivity).
  apply cooldown_others. intros t' Hin' Hh'.
  rewrite (same_handle (timers w) t' t); auto; [apply Hok|congruence].
Qed.

Lemma clearTimeout_cooldown_self h w t :
  structure_ok w -> accounted w ->
  pending h w = Some t -> is_cooldown t = true ->
  isProcessingQuery w = true /\ awaitingAgent w = 0%nat /\
  cooldownTimers (clearTimeout h w) = [].
Proof.
  intros Hok Hacc [Hin Hh]%pending_In Hc. unfold accounted in Hacc.
  assert (Hinc : In t (cooldownTimers w)) by (apply filter_In; auto).
  destruct (cooldownTimers w) as [|t0 [|t1 l]] eqn:Hcd; [destruct Hinc| |].
  2:{ destruct (isProcessingQuery w); simpl in Hacc; exfalso; lia. }
  destruct Hinc as [->|[]].
  destruct (isProcessingQuery w); [|simpl in Hacc; exfalso; lia].
  split; [reflexivity|]. split; [simpl in Hacc; lia|].
  unfold cooldownTimers, clearTimeout.
  replace (timers (set_timers (List.filter (other h) (timers w)) w))
    with (List.filter (other h) (timers w)) by (destruct w; reflexivity).
  rewrite filter_filter_comm. unfold cooldownTimers in Hcd. rewrite Hcd.
  simpl. unfold other. rewrite Hh, Nat.eqb_refl. reflexivity.
Qed.

Lemma clearTimeout_kept h w :
  (isProcessingQuery (clearTimeout h w), timeoutId (clearTimeout h w),
   activeTimers (clearTimeout h w), nextHandle (clearTimeout h w),
   awaitingAgent (clearTimeout h w)) =
  (isProcessingQuery w, timeoutId w, activeTimers w, nextHandle w,
   awaitingAgent w).
Proof. destruct w; reflexivity. Qed.

Lemma timer_runs_invariant now h w t :
  pending h w = Some t ->
  invariant w -> invariant (runTask now (task t) (clearTimeout h w)).
Proof.
  intros Hpend [Hok Hacc].
  pose proof (clearTimeout_structure h w Hok) as Hok1.
  pose proof (clearTimeout_kept h w) as [= Hp1 Hid1 Hreg1 Hn1 Ha1].
  destruct (task t) as [x d| |label k] eqn:Htask; simpl.
  - assert (Hc : is_cooldown t = false)
      by (unfold is_cooldown; rewrite Htask; reflexivity).
    apply (invariant_shape (clearTimeout h w));
      [symmetry; apply shape_processQuery|].
    split; [exact Hok1|]. unfold accounted.
    rewrite (clearTimeout_cooldown_other h w t Hok Hpend Hc), Hp1, Ha1.
    exact Hacc.
  - assert (Hc : is_cooldown t = true)
      by (unfold is_cooldown; rewrite Htask; reflexivity).
    destruct (clearTimeout_cooldown_self h w t Hok Hacc Hpend Hc)
      as (Hp & Ha & Hcd).
    split.
    + apply (structure_ok_frame (clearTimeout h w));
        [destruct (clearTimeout h w); reflexivity|exact Hok1].
    + unfold accounted.
      replace (cooldownTimers (set_isProcessingQuery false (clearTimeout h w)))
        with (cooldownTimers (clearTimeout h w))
        by (destruct (clearTimeout h w); reflexivity).
      replace (awaitingAgent (set_isProcessingQuery false (clearTimeout h w)))
        with (awaitingAgent (clearTimeout h w))
        by (destruct (clearTimeout h w); reflexivity).
      replace (isProcessingQuery
                 (set_isProcessingQuery false (clearTimeout h w)))
        with false by (destruct (clearTimeout h w); reflexivity).
      rewrite Hcd, Ha1, Ha. reflexivity.
  - assert (Hc : is_cooldown t = false)
      by (unfold is_cooldown; rewrite Htask; reflexivity).
    set (w1 := clearTimeout h w) in *.
    split.
    + destruct Hok1. destruct w1; simpl in *. split; simpl; try assumption.
      * intros k' h' [_ Hk]%lookup_delete_Some. eauto.
      * intros k' t' Hin [_ Hk]%lookup_delete_Some. eauto.
    + unfold accounted.
      replace (cooldownTimers _) with (cooldownTimers w1)
        by (destruct w1; reflexivity).
      replace (awaitingAgent _) with (awaitingAgent w1)
        by (destruct w1; reflexivity).
      replace (isProcessingQuery _) with (isProcessingQuery w1)
        by (destruct w1; reflexivity).
      subst w1.
      rewrite (clearTimeout_cooldown_other h w t Hok Hpend Hc), Hp1, Ha1.
      exact Hacc.
Qed.

(** *** Every reachable world *)

Lemma new_invariant sid url : invariant (newTranscriptionManager sid url).
Proof.
  split; [split|reflexivity]; simpl; try tauto; try discriminate;
    try constructor.
Qed.

Lemma step_invariant now e w w' :
  step now e w = Some w' -> invariant w -> invariant w'.
Proof.
  destruct e as [data|h|o|o|]; simpl.
  - intros [= <-] Hinv. destruct (attached w); [|exact Hinv].
    apply handleTranscription_invariant, Hinv.
  - destruct (pending h w) as [t|] eqn:Hpend; [|discriminate].
    destruct (due now t); [|discriminate].
    intros [= <-]. apply timer_runs_invariant, Hpend.
  - destruct (awaitingFetch w); [discriminate|].
    intros [= <-]. apply processQuery_afterFetch_invariant.
  - destruct (awaitingAgent w) eqn:Ha; [discriminate|].
    intros [= <-]. apply processQuery_afterAgent_invariant. lia.
  - intros [= <-] Hinv. destruct (attached w); [|exact Hinv].
    apply (invariant_shape (cleanup w));
      [destruct (cleanup w); reflexivity|].
    apply cleanup_invariant, Hinv.
Qed.

Lemma run_invariant trace w w' :
  run trace w = Some w' -> invariant w -> invariant w'.
Proof.
  revert w. induction trace as [|[now e] trace IH]; intros w; simpl.
  - intros [= <-]. auto.
  - destruct (step now e w) as [w1|] eqn:Hstep; [|discriminate].
    intros Hrun Hinv. apply (IH w1 Hrun), (step_invariant now e w), Hinv.
    exact Hstep.
Qed.

Lemma reachable_invariant w : reachable w -> invariant w.
Proof.
  intros (sid & url & trace & Hrun).
  apply (run_invariant trace _ w Hrun), new_invariant.
Qed.

End WithUtils.

End SessionFacts.

(** ** What the specification states of the session *)

Module SessionClaims.

Import Session Invariant TimerFacts WakeSpec WakeFacts SessionFacts.

#[local] Opaque removeWakeWord cleanText hasWakeWord endsWithWakeWord.

Section WithUtils.

Context `{Utils}.

Implicit Types (w : World) (t : Timer).

(** *** Fragments while a query is processed *)

(** C3, as the code has it: while [isProcessingQuery] is set a fragment
    is ignored entirely, nothing is shown, no field changes and no timer
    is set; at most one run is with the agent; and a run whose fetch
    settles while the flag is set calls no agent, whatever the response
    is, and sets no timer. More than one run can be in flight all the
    same: a debounce timer that was set before the flag still runs. *)
Theorem processing_ignores_fragments :
  (forall now data w,
      isProcessingQuery w = true -> handleTranscription now data w = w) /\
  (forall w, reachable w -> (awaitingAgent w <= 1)%nat) /\
  (forall now o w,
      isProcessingQuery w = true ->
      let w' := processQuery_afterFetch now o w in
      agentCalls w' = agentCalls w /\
      awaitingAgent w' = awaitingAgent w /\
      isProcessingQuery w' = true /\
      timers w' = timers w).
Proof.
  split; [|split].
  - intros now data w Hp. unfold handleTranscription. rewrite Hp. reflexivity.
  - intros w [_ Hacc]%reachable_invariant. unfold accounted in Hacc.
    destruct (isProcessingQuery w); lia.
  - intros now o w Hp. simpl. unfold processQuery_afterFetch.
    destruct (transcriptionResponseOf o) as [resp|];
      [|destruct w; simpl in *; auto].
    destruct (segments resp) as [segs|]; [|destruct w; simpl in *; auto].
    destruct (rawCombinedTextOf segs) as [rawCombinedText|];
      [|destruct w; simpl in *; auto].
    replace (isProcessingQuery (set_awaitingFetch _ w)) with true
      by (destruct w; simpl in *; congruence).
    destruct w; simpl in *; auto.
Qed.

(** *** The debounce timer *)

Lemma accepted_again now data data' w :
  accepted data w -> accepted data' (handleTranscription now data w).
Proof.
  intros Hacc. rewrite (handleTranscription_accepted now data w Hacc).
  destruct Hacc as [Hp _].
  pose proof (rearm_kept now (text data)
                (timerDurationOf data (cleanText (text data)))
                (listening now data w)) as [= Hp' Hl' _ _ _ _ _ _ _ _ _].
  split.
  - rewrite Hp', <- Hp.
    exact (f_equal snd (shape_listening now data w)).
  - right. rewrite Hl'. unfold listening, showListening.
    destruct (Nat.eqb _ 0).
    + destruct (negb _); destruct (_ =? 0); destruct w; reflexivity.
    + destruct (processString _ _ _).
      destruct (_ =? 0); destruct w; reflexivity.
Qed.

Lemma nextHandle_listening now data w :
  nextHandle (listening now data w) = nextHandle w.
Proof.
  exact (f_equal (fun s => snd (fst (fst (fst (fst s)))))
           (shape_listening now data w)).
Qed.

Lemma handleTranscription_debounce now data w :
  structure_ok w -> accepted data w ->
  debounceTimers (handleTranscription now data w) =
  [debounceTimer now data (nextHandle w)].
Proof.
  intros Hok Hacc. rewrite (handleTranscription_accepted now data w Hacc).
  rewrite rearm_debounce.
  - unfold newTimer, debounceTimer.
    rewrite nextHandle_listening, timeoutDelay_timerDurationOf. reflexivity.
  - apply (structure_ok_shape w); [symmetry; apply shape_listening|exact Hok].
Qed.

Lemma last_default {A} (b d d' : A) l :
  List.last (b :: l) d = List.last (b :: l) d'.
Proof.
  revert b. induction l as [|c l IH]; intros b; [reflexivity|].
  change (List.last (c :: l) d = List.last (c :: l) d'). apply IH.
Qed.

Lemma last_cons_default {A} (a d : A) l :
  List.last (a :: l) d = List.last l a.
Proof.
  destruct l as [|b l]; [reflexivity|].
  change (List.last (b :: l) d = List.last (b :: l) a). apply last_default.
Qed.

Lemma handleAll_debounce first rest w :
  invariant w -> accepted (snd first) w ->
  exists h,
    debounceTimers (handleAll (first :: rest) w) =
    [debounceTimer (fst (List.last rest first)) (snd (List.last rest first)) h].
Proof.
  revert first w. induction rest as [|next rest IH]; intros first w Hinv Hacc.
  - exists (nextHandle w). simpl.
    apply handleTranscription_debounce; [apply Hinv|exact Hacc].
  - change (handleAll (first :: next :: rest) w) with
      (handleAll (next :: rest)
         (handleTranscription (fst first) (snd first) w)).
    rewrite last_cons_default.
    apply IH.
    + apply handleTranscription_invariant, Hinv.
    + apply accepted_again, Hacc.
Qed.

(** C4: in every world a session reaches, one debounce timer at most is
    pending. Handling an accepted fragment leaves exactly one, set for the
    duration computed for that fragment; and so does a sequence of
    accepted fragments, with the duration computed for the last one. *)
Theorem one_debounce_timer :
  (forall w, reachable w -> (length (debounceTimers w) <= 1)%nat) /\
  (forall w now data,
      reachable w -> accepted data w ->
      debounceTimers (handleTranscription now data w) =
      [debounceTimer now data (nextHandle w)]) /\
  (forall w first rest,
      reachable w -> accepted (snd first) w ->
      exists h,
        debounceTimers (handleAll (first :: rest) w) =
        [debounceTimer (fst (List.last rest first)) (snd (List.last rest first)) h]).
Proof.
  split; [|split].
  - intros w [Hok _]%reachable_invariant.
    destruct (timeoutId w) as [h|] eqn:Hid.
    + apply (at_most_one is_debounce h); [apply Hok|].
      intros t Hin Hd. apply (inv_debounce w Hok t Hin) in Hd. congruence.
    + unfold debounceTimers. rewrite filter_none; [simpl; lia|].
      intros t Hin. destruct (is_debounce t) eqn:Hd; [|reflexivity].
      apply (inv_debounce w Hok t Hin) in Hd. congruence.
  - intros w now data [Hok _]%reachable_invariant.
    apply handleTranscription_debounce, Hok.
  - intros w first rest Hinv%reachable_invariant.
    apply handleAll_debounce, Hinv.
Qed.


(** *** The display while listening *)

Lemma showListening_display data w w' :
  transcriptProcessor w = transcriptProcessor w' -> display w = display w' ->
  display (showListening data w) = display (showListening data w').
Proof.
  intros Htp Hd. unfold showListening. rewrite <- Htp.
  destruct (Nat.eqb (String.length (Str.trim (removeWakeWord (text data)))) 0).
  - destruct (negb _); destruct w, w'; simpl in *; congruence.
  - destruct (processString _ _ _). destruct w, w'; simpl in *; congruence.
Qed.

Lemma handleTranscription_display now data w :
  accepted data w ->
  display (handleTranscription now data w) =
  display (showListening data w).
Proof.
  intros Hacc. rewrite (handleTranscription_accepted now data w Hacc).
  pose proof (rearm_kept now (text data)
                (timerDurationOf data (cleanText (text data)))
                (listening now data w)) as [= _ _ _ _ _ -> _ _ _ _ _].
  unfold listening. apply showListening_display;
    destruct (_ =? 0); destruct w; reflexivity.
Qed.

(** C7 (the code departs from the claim): for an accepted fragment whose
    text is empty once the wake phrase is stripped, the placeholder
    "Listening..." is shown again although the last fragment shown was
    already empty: the test on the last fragment only decides whether the
    formatter is cleared. *)
Theorem placeholder_redrawn_when_last_was_empty :
  forall now data w,
    accepted data w ->
    Str.trim (removeWakeWord (text data)) = EmptyString ->
    Str.trim (getLastUserTranscript (transcriptProcessor w)) = EmptyString ->
    display (handleTranscription now data w) =
    listeningPlaceholder :: display w.
Proof.
  intros now data w Hacc Hempty Hlast.
  rewrite (handleTranscription_display now data w Hacc).
  unfold showListening. rewrite Hempty, Hlast. simpl.
  destruct w; reflexivity.
Qed.

(** *** The end of a run *)

(** C1 (the code departs from the claim): a run whose transcript cannot be
    fetched or parsed, or has no list of segments, returns before the
    [finally] block: [transcriptionStartTime], [timeoutId],
    [isListeningToQuery] and the formatter stay as they were, and no
    cool-down is scheduled. *)
Theorem failed_fetch_resets_nothing :
  forall now o w,
    segmentsOf o = None ->
    let w' := processQuery_afterFetch now o w in
    transcriptionStartTime w' = transcriptionStartTime w /\
    timeoutId w' = timeoutId w /\
    isListeningToQuery w' = isListeningToQuery w /\
    transcriptProcessor w' = transcriptProcessor w /\
    isProcessingQuery w' = isProcessingQuery w /\
    timers w' = timers w.
Proof.
  intros now o w Hseg. unfold segmentsOf in Hseg. simpl.
  unfold processQuery_afterFetch.
  destruct (transcriptionResponseOf o) as [resp|];
    [rewrite Hseg|]; destruct w; repeat split.
Qed.

(** A run that reaches the [finally] block is reset as the claim says,
    and the cool-down timer, once it runs, clears the flag. *)
Lemma finally_resets now w :
  structure_ok w ->
  let w' := finally now w in
  transcriptionStartTime w' = 0 /\
  timeoutId w' = None /\
  debounceTimers w' = [] /\
  isListeningToQuery w' = false /\
  transcriptProcessor w' = clear (transcriptProcessor w) /\
  In (newTimer now CooldownTask (Finite 2000 0) w) (timers w').
Proof.
  intros Hok. destruct (finally_fields now w) as (H1 & H2 & H3 & H4 & _).
  simpl. repeat split; try assumption.
  - unfold debounceTimers. rewrite finally_timers, List.filter_app. simpl.
    rewrite app_nil_r. apply filter_none.
    intros t. apply withoutDebounce_none, Hok.
  - rewrite finally_timers. apply in_or_app. right. left. reflexivity.
Qed.

Lemma cooldown_clears_flag T w :
  isProcessingQuery (runTask T CooldownTask w) = false.
Proof. destruct w; reflexivity. Qed.

Lemma answered_transcriptProcessor now o w :
  transcriptProcessor (answered now o w) = transcriptProcessor w.
Proof.
  destruct o as [| |resp parsed]; simpl; try (destruct w; reflexivity).
  destruct (Str.is_empty resp); [destruct w; reflexivity|].
  destruct (handleEvent_cases now parsed w) as [->|(obj & _ & _ & _ & ->)];
    [destruct w; reflexivity|].
  pose proof (timerSet_kept now obj w) as [= _ _ _ _ -> _ _]. reflexivity.
Qed.

(** What C1 says does hold of the runs that pass the guard: whatever the
    agent does, answer, no answer or error, the session is reset and the
    cool-down of 2000 ms is scheduled. *)
Lemma run_with_agent_resets now o w :
  structure_ok w ->
  let w' := processQuery_afterAgent now o w in
  transcriptionStartTime w' = 0 /\
  timeoutId w' = None /\
  debounceTimers w' = [] /\
  isListeningToQuery w' = false /\
  transcriptProcessor w' = clear (transcriptProcessor w) /\
  exists h,
    In {| handle := h; setAt := now; delay := 2000;
          task := CooldownTask |} (timers w').
Proof.
  intros Hok. rewrite processQuery_afterAgent_eq.
  set (w1 := set_awaitingAgent _ w).
  assert (Hok1 : structure_ok (answered now o w1)).
  { apply answered_structure, (structure_ok_frame w);
      [destruct w; reflexivity|exact Hok]. }
  destruct (finally_resets now (answered now o w1) Hok1)
    as (H1 & H2 & H3 & H4 & H5 & H6).
  simpl. repeat split; try assumption.
  - rewrite H5, answered_transcriptProcessor. destruct w; reflexivity.
  - eexists. exact H6.
Qed.

(** *** The processing flag *)

Lemma segmentsOf_some o segs :
  segmentsOf o = Some segs ->
  exists resp, transcriptionResponseOf o = Some resp /\
               segments resp = Some segs.
Proof.
  unfold segmentsOf. destruct (transcriptionResponseOf o) as [resp|];
    [eauto|discriminate].
Qed.

Lemma textsOf_none segs : textsOf segs = None <-> In None segs.
Proof.
  induction segs as [|[segment|] segs IH]; simpl.
  - split; [discriminate|intros []].
  - destruct (textsOf segs).
    + split; [discriminate|]. intros [Hx|Hin]; [discriminate|].
      apply IH in Hin. discriminate.
    + split; [|reflexivity]. intros _. right. apply IH. reflexivity.
  - split; [auto|reflexivity].
Qed.

(** Joining the texts throws exactly when an element is [null]. *)
Lemma rawCombinedTextOf_none segs :
  rawCombinedTextOf segs = None <-> In None segs.
Proof.
  unfold rawCombinedTextOf. rewrite <- textsOf_none.
  destruct (textsOf segs); split; congruence.
Qed.


(** A run whose transcript has an array of segments ends without a trace
    when the flag is set as the transcript arrives, and when an element
    of the array is [null]. *)
Lemma processQuery_afterFetch_ends now o w segs :
  segmentsOf o = Some segs ->
  isProcessingQuery w = true \/ In None segs ->
  processQuery_afterFetch now o w =
  set_awaitingFetch (Nat.pred (awaitingFetch w)) w.
Proof.
  intros (resp & Hr & Hs)%segmentsOf_some Hend.
  unfold processQuery_afterFetch. rewrite Hr, Hs.
  destruct (rawCombinedTextOf segs) as [raw|] eqn:E; [|reflexivity].
  destruct Hend as [Hp|Hnull].
  - replace (isProcessingQuery (set_awaitingFetch _ w)) with true
      by (destruct w; simpl in *; congruence).
    reflexivity.
  - apply rawCombinedTextOf_none in Hnull. congruence.
Qed.


(** *** An empty query *)

(** C8, as the code has it: when the transcript is well formed and the
    text of its segments is empty once the wake phrase is stripped, the
    agent is not called; "No query provided." is shown when the run
    passes the guard ([isProcessingQuery] not set), and nothing is shown
    when it ends at the guard. *)
Theorem empty_query_is_not_sent :
  forall now o w segs rawCombinedText,
    segmentsOf o = Some segs ->
    rawCombinedTextOf segs = Some rawCombinedText ->
    Str.trim (removeWakeWord rawCombinedText) = EmptyString ->
    let w' := processQuery_afterFetch now o w in
    agentCalls w' = agentCalls w /\
    awaitingAgent w' = awaitingAgent w /\
    (isProcessingQuery w = false -> display w' = noQueryProvided :: display w) /\
    (isProcessingQuery w = true -> display w' = display w).
Proof.
  intros now o w segs raw (resp & Hr & Hs)%segmentsOf_some Hraw Hempty. simpl.
  unfold processQuery_afterFetch. rewrite Hr, Hs, Hraw, Hempty. simpl.
  replace (isProcessingQuery (set_awaitingFetch _ w))
    with (isProcessingQuery w) by (destruct w; reflexivity).
  destruct (isProcessingQuery w) eqn:Hp.
  - repeat split; try discriminate; destruct w; reflexivity.
  - set (w2 := showTextWall _ _ _).
    pose proof (finally_kept now w2) as [= -> _ -> _ -> _ _].
    subst w2. repeat split; try discriminate; destruct w; reflexivity.
Qed.

End WithUtils.

End SessionClaims.

(** ** Side-effect timers *)

Module TimerClaims.

Import Session Invariant TimerFacts WakeSpec WakeFacts SessionFacts.

#[local] Opaque removeWakeWord cleanText hasWakeWord endsWithWakeWord.

Section WithUtils.

Context `{Utils}.

Implicit Types (w : World) (t : Timer).

(** *** Timers are only ever removed, or added under new handles *)






Lemma rearm_nextHandle now x d w :
  nextHandle (rearm now x d w) = S (nextHandle w).
Proof. rewrite rearm_eq. destruct w; reflexivity. Qed.









(** The ways in which a run goes on when its fetch has settled. *)
Lemma processQuery_afterFetch_cases now o w :
  frame (processQuery_afterFetch now o w) = frame w \/
  exists w2,
    frame w2 = frame w /\ processQuery_afterFetch now o w = finally now w2.
Proof.
  unfold processQuery_afterFetch.
  destruct (transcriptionResponseOf o) as [resp|];
    [|left; destruct w; reflexivity].
  destruct (segments resp) as [segs|]; [|left; destruct w; reflexivity].
  destruct (rawCombinedTextOf segs) as [rawCombinedText|];
    [|left; destruct w; reflexivity].
  destruct (isProcessingQuery _); [left; destruct w; reflexivity|].
  destruct (Nat.eqb _ 0).
  - right. eexists. split; [|reflexivity]. destruct w; reflexivity.
  - left. destruct w; reflexivity.
Qed.




Lemma frame_runTask_other now tk w :
  (forall label k, tk <> SideEffectTask label k) ->
  frame (runTask now tk w) = frame w.
Proof.
  destruct tk as [x d| |label k]; intros Hne; try (destruct w; reflexivity).
  destruct (Hne label k eq_refl).
Qed.







(** *** A timer that stays registered *)

Section Tracked.

Variables (k : JVal) (h : nat) (tm : Timer).
Hypothesis tm_handle : handle tm = h.
Hypothesis tm_carries : carries k tm = true.

Lemma carrier_task t : carries k t = true -> exists label, task t = SideEffectTask label k.
Proof.
  unfold carries. destruct (task t) as [| |label k']; try discriminate.
  intros ->%bool_decide_eq_true. eauto.
Qed.

Lemma carrier_not_debounce t : carries k t = true -> is_debounce t = false.
Proof. intros [label Ht]%carrier_task. unfold is_debounce. rewrite Ht. reflexivity. Qed.

Lemma tracked_timers w w' :
  tracked k h tm w ->
  In tm (timers w') ->
  (forall t, In t (timers w') -> In t (timers w) \/ carries k t = false) ->
  activeTimers w' !! k = activeTimers w !! k ->
  tracked k h tm w'.
Proof.
  intros (Hin & Hreg & Honly) Hin' Hsub Hreg'. repeat split; [exact Hin'|congruence|].
  intros t [Ht|Ht]%Hsub Hc; [auto|congruence].
Qed.

Lemma tracked_frame w w' :
  frame w = frame w' -> tracked k h tm w -> tracked k h tm w'.
Proof.
  unfold frame, tracked. intros [= Ht _ _ Hreg]. rewrite <- Ht, <- Hreg. auto.
Qed.

Lemma withoutDebounce_keeps w t :
  structure_ok w -> In t (timers w) -> is_debounce t = false ->
  In t (withoutDebounce w).
Proof.
  intros Hok Hin Hd. unfold withoutDebounce.
  destruct (timeoutId w) as [h0|] eqn:Hid; [|exact Hin].
  apply In_others. split; [exact Hin|]. intros Heq.
  assert (is_debounce t = true)
    by (apply (inv_debounce w Hok t Hin); congruence).
  congruence.
Qed.

(** The timers pending are those left of [w] once the debounce timer is
    cleared, and one more that was not set under [k]. *)
Lemma tracked_rearmed w w' x :
  structure_ok w ->
  timers w' = withoutDebounce w ++ [x] -> carries k x = false ->
  activeTimers w' = activeTimers w ->
  tracked k h tm w -> tracked k h tm w'.
Proof.
  intros Hok Ht Hx Hreg Htr. apply (tracked_timers w); [exact Htr| | |congruence].
  - rewrite Ht. apply in_or_app. left.
    apply withoutDebounce_keeps; [exact Hok|apply Htr|].
    apply carrier_not_debounce, tm_carries.
  - rewrite Ht. intros t [Hin%withoutDebounce_In|[<-|[]]]%in_app_or; auto.
Qed.

Lemma tracked_rearm now x d w :
  structure_ok w -> tracked k h tm w -> tracked k h tm (rearm now x d w).
Proof.
  intros Hok. apply (tracked_rearmed w _ _ Hok (rearm_timers now x d w));
    [reflexivity|].
  pose proof (rearm_kept now x d w) as [= _ _ _ -> _ _ _ _ _ _ _]. reflexivity.
Qed.

Lemma tracked_finally now w :
  structure_ok w -> tracked k h tm w -> tracked k h tm (finally now w).
Proof.
  intros Hok. apply (tracked_rearmed w _ _ Hok (finally_timers now w));
    [reflexivity|].
  apply (finally_fields now w).
Qed.

Lemma tracked_timerSet now obj w :
  prop obj "timerId" <> k ->
  tracked k h tm w -> tracked k h tm (timerSet now obj w).
Proof.
  intros Hne Htr. apply (tracked_timers w); [exact Htr| | |].
  - rewrite timerSet_timers. apply in_or_app. left. apply Htr.
  - rewrite timerSet_timers. intros t [Hin|[<-|[]]]%in_app_or; [auto|].
    right. unfold carries. simpl. apply bool_decide_eq_false, Hne.
  - rewrite timerSet_activeTimers. apply lookup_insert_ne, Hne.
Qed.

Lemma tracked_clearTimeout h' w :
  h' <> h -> tracked k h tm w -> tracked k h tm (clearTimeout h' w).
Proof.
  intros Hne Htr.
  assert (Ht : timers (clearTimeout h' w) = List.filter (other h') (timers w))
    by (destruct w; reflexivity).
  apply (tracked_timers w); [exact Htr| | |destruct w; reflexivity].
  - rewrite Ht. apply In_others. split; [apply Htr|congruence].
  - rewrite Ht. intros t [Hin _]%In_others. auto.
Qed.

Lemma tracked_handleTranscription now data w :
  structure_ok w -> tracked k h tm w ->
  tracked k h tm (handleTranscription now data w).
Proof.
  intros Hok Htr. destruct (accepted_dec data w) as [Ha|Hn].
  - rewrite (handleTranscription_accepted now data w Ha).
    pose proof (shape_listening now data w) as Hs.
    assert (Hf : frame w = frame (listening now data w))
      by (symmetry; exact (f_equal (fun s => fst (fst s)) Hs)).
    apply tracked_rearm.
    + apply (structure_ok_frame w); assumption.
    + apply (tracked_frame w); assumption.
  - rewrite (handleTranscription_ignored now data w Hn). exact Htr.
Qed.

Lemma tracked_afterFetch now o w :
  structure_ok w -> tracked k h tm w ->
  tracked k h tm (processQuery_afterFetch now o w).
Proof.
  intros Hok Htr.
  destruct (processQuery_afterFetch_cases now o w) as [Hf|(w2 & Hf & ->)].
  - apply (tracked_frame w); auto.
  - apply tracked_finally.
    + apply (structure_ok_frame w); auto.
    + apply (tracked_frame w); auto.
Qed.

Lemma answered_sets_timer now o w :
  shape (answered now o w) = shape w \/
  exists agentResponse obj,
    o = AgentText agentResponse (Some obj) /\
    registers (prop obj "timerId") (AgentSettles o) = true /\
    answered now o w = timerSet now obj w.
Proof.
  destruct o as [| |resp parsed]; simpl;
    try (left; apply shape_showTextWall).
  destruct (Str.is_empty resp) eqn:Hresp; [left; apply shape_showTextWall|].
  destruct (handleEvent_cases now parsed w)
    as [->|(obj & -> & Hev & Hdur & ->)].
  - left. apply shape_showTextWall.
  - right. exists resp, obj. repeat split.
    unfold registers. rewrite Hev, Hdur. simpl.
    rewrite !bool_decide_eq_true_2 by reflexivity. reflexivity.
Qed.

Lemma tracked_afterAgent now o w :
  registers k (AgentSettles o) = false ->
  structure_ok w -> tracked k h tm w ->
  tracked k h tm (processQuery_afterAgent now o w).
Proof.
  intros Hreg Hok Htr. rewrite processQuery_afterAgent_eq.
  set (w1 := set_awaitingAgent _ w).
  assert (Hf : frame w = frame w1) by (destruct w; reflexivity).
  assert (Hok1 : structure_ok w1) by (apply (structure_ok_frame w); assumption).
  assert (Htr1 : tracked k h tm w1) by (apply (tracked_frame w); assumption).
  apply tracked_finally; [apply answered_structure, Hok1|].
  destruct (answered_sets_timer now o w1) as [Hs|(resp & obj & -> & Hr & ->)].
  - apply (tracked_frame w1); [|exact Htr1].
    symmetry. exact (f_equal (fun s => fst (fst s)) Hs).
  - apply tracked_timerSet; [|exact Htr1]. intros Heq.
    rewrite Heq in Hr. congruence.
Qed.

Lemma tracked_timer_runs now h' t' w :
  h' <> h -> structure_ok w -> pending h' w = Some t' ->
  tracked k h tm w ->
  tracked k h tm (runTask now (task t') (clearTimeout h' w)).
Proof.
  intros Hne Hok [Hin' Hh']%pending_In Htr.
  pose proof (tracked_clearTimeout h' w Hne Htr) as Htr1.
  destruct (task t') as [x d| |label k'] eqn:Htask.
  - apply (tracked_frame (clearTimeout h' w)); [|exact Htr1].
    symmetry. apply frame_runTask_other. discriminate.
  - apply (tracked_frame (clearTimeout h' w)); [|exact Htr1].
    symmetry. apply frame_runTask_other. discriminate.
  - assert (Hk : k' <> k).
    { intros ->. destruct Htr as (_ & _ & Honly).
      assert (t' = tm).
      { apply Honly; [exact Hin'|]. unfold carries. rewrite Htask.
        apply bool_decide_eq_true_2. reflexivity. }
      congruence. }
    set (w1 := clearTimeout h' w) in *.
    apply (tracked_timers w1); [exact Htr1| | |].
    + destruct w1; apply Htr1.
    + intros t Hin. left. destruct w1; exact Hin.
    + replace (activeTimers (runTask now (SideEffectTask label k') w1))
        with (delete k' (activeTimers w1)) by (destruct w1; reflexivity).
      apply lookup_delete_ne, Hk.
Qed.

Lemma step_tracked now e w w' :
  undisturbed k h e = true -> step now e w = Some w' ->
  structure_ok w -> tracked k h tm w -> tracked k h tm w'.
Proof.
  destruct e as [data|h'|o|o|]; simpl.
  - intros _ [= <-] Hok Htr. destruct (attached w); [|exact Htr].
    apply tracked_handleTranscription; assumption.
  - intros Hne%negb_true_iff%Nat.eqb_neq.
    destruct (pending h' w) as [t'|] eqn:Hpend; [|discriminate].
    destruct (due now t'); [|discriminate]. intros [= <-] Hok Htr.
    apply tracked_timer_runs; assumption.
  - intros _. destruct (awaitingFetch w); [discriminate|]. intros [= <-].
    apply tracked_afterFetch.
  - intros Hreg%negb_true_iff.
    destruct (awaitingAgent w); [discriminate|]. intros [= <-].
    apply tracked_afterAgent, Hreg.
  - discriminate.
Qed.


End Tracked.

(** *** The [timer_set] event *)

Lemma afterAgent_timer_set now agentResponse obj w :
  Str.is_empty agentResponse = false ->
  prop obj "event" = JStr "timer_set" ->
  truthy (prop obj "duration") = true ->
  processQuery_afterAgent now (AgentText agentResponse (Some obj)) w =
  finally now
    (timerSet now obj (set_awaitingAgent (Nat.pred (awaitingAgent w)) w)).
Proof.
  intros Hresp Hev Hdur. rewrite processQuery_afterAgent_eq. f_equal.
  unfold answered, handleEvent. rewrite Hresp, Hev, Hdur. simpl.
  rewrite ?bool_decide_eq_true_2 by reflexivity. reflexivity.
Qed.

Lemma registered_after_timer_set now obj w :
  structure_ok w ->
  (forall t, In t (timers w) -> carries (prop obj "timerId") t = false) ->
  let ts := timerSet now obj w in
  tracked (prop obj "timerId") (nextHandle w) (sideEffectTimer now obj w)
    (finally now ts) /\
  List.filter (carries (prop obj "timerId")) (timers (finally now ts)) =
  [sideEffectTimer now obj w].
Proof.
  intros Hok Hnone ts.
  set (k := prop obj "timerId") in *. set (tm := sideEffectTimer now obj w).
  assert (Hok' : structure_ok ts) by apply timerSet_structure, Hok.
  assert (Hts : timers ts = timers w ++ [tm]) by apply timerSet_timers.
  assert (Hc : carries k tm = true)
    by (unfold carries; simpl; apply bool_decide_eq_true_2; reflexivity).
  assert (Hkeep : In tm (withoutDebounce ts)).
  { apply withoutDebounce_keeps; [exact Hok'| |].
    - rewrite Hts. apply in_or_app. right. left. reflexivity.
    - apply (carrier_not_debounce k), Hc. }
  split.
  - repeat split.
    + rewrite finally_timers. apply in_or_app. left. exact Hkeep.
    + destruct (finally_fields now ts) as (_ & _ & _ & _ & _ & ->).
      unfold ts. rewrite timerSet_activeTimers. apply lookup_insert_eq.
    + rewrite finally_timers.
      intros t [Hin%withoutDebounce_In|[<-|[]]]%in_app_or Ht;
        [|discriminate].
      rewrite Hts in Hin. apply in_app_or in Hin as [Hin|[<-|[]]];
        [|reflexivity].
      rewrite (Hnone t Hin) in Ht. discriminate.
  - rewrite finally_timers, List.filter_app. simpl. rewrite app_nil_r.
    assert (Hall : List.filter (carries k) (timers ts) = [tm]).
    { rewrite Hts, List.filter_app, (filter_none _ _ Hnone). simpl.
      rewrite Hc. reflexivity. }
    unfold withoutDebounce in *.
    destruct (timeoutId ts) as [h0|]; [|exact Hall].
    rewrite filter_filter_comm, Hall. simpl.
    apply In_others in Hkeep as [_ Hne%other_true]. rewrite Hne. reflexivity.
Qed.







Lemma delayFor_unique after ms ms' :
  delayFor after ms -> delayFor after ms' -> ms = ms'.
Proof.
  intros H1 H2. inversion H1; subst; inversion H2; subst;
    try reflexivity; lia.
Qed.


End WithUtils.

End TimerClaims.

(** ** The claims on a session that runs *)

Module Examples.

Import Session Invariant WakeSpec WakeFacts RemoveFacts SessionFacts
  SessionClaims TimerClaims Sample.

Lemma reachable_after trace w :
  run trace start = Some w -> reachable w.
Proof. intros Hrun. exists "session-1", "https://cloud", trace. exact Hrun. Qed.

(** *** [removeWakeWord] *)

(** C6, where the claim fails: no variant occurs in [" hi"], and
    [removeWakeWord] does not return it unchanged but trimmed; and after
    a variant, the comma and the space that follow are removed with it. *)
Lemma removeWakeWord_trims_unmatched_text :
  ~ variantOccurs " hi" /\
  removeWakeWord " hi" <> " hi" /\
  removeWakeWord "hey mira, what" <> Str.trim ", what".
Proof.
  split; [|split].
  - intros Hocc%occurs_spec. vm_compute in Hocc. discriminate.
  - vm_compute. discriminate.
  - vm_compute. discriminate.
Qed.

Lemma noVariantStartsIn_checked pre suf :
  noneStartsIn pre suf = true -> noVariantStartsIn pre suf.
Proof.
  intros Hcheck p1 p2 rest -> Hne Hv. revert Hcheck.
  induction p1 as [|c p1 IH].
  - destruct p2 as [|c p2]; [congruence|].
    rewrite StrFacts.app_nil.
    change (noneStartsIn (String c p2) suf) with
      (match match_alternatives wakePatterns (String c p2 +:+ suf) with
       | Some _ => false
       | None => noneStartsIn p2 suf
       end).
    destruct (match_alternatives wakePatterns (String c p2 +:+ suf)) eqn:Hm;
      [discriminate|].
    destruct (variantAtHead_some _ _ Hv Hm).
  - change (noneStartsIn (String c p1 +:+ p2) suf) with
      (match match_alternatives wakePatterns
               ((String c p1 +:+ p2) +:+ suf) with
       | Some _ => false
       | None => noneStartsIn (p1 +:+ p2) suf
       end).
    destruct (match_alternatives wakePatterns _); [discriminate|]. exact IH.
Qed.

Lemma removeWakeWord_strips_first_variant_witness :
  removeWakeWord " hi" = Str.trim " hi" /\
  removeWakeWord "ok so Hey, Mira. what time is it" =
    Str.trim (skip_gap ". what time is it") /\
  removeWakeWord "hey mira what time is it" =
    Str.trim (skip_gap " what time is it").
Proof.
  split; [|split].
  - apply (removeWakeWord_strips_first_variant " hi").
    intros Hocc%occurs_spec. vm_compute in Hocc. discriminate.
  - apply (proj1 (proj2 (removeWakeWord_strips_first_variant
                           "ok so Hey, Mira. what time is it"))
             "ok so " "Hey, Mira. what time is it").
    + reflexivity.
    + reflexivity.
    + apply noVariantStartsIn_checked. vm_compute. reflexivity.
    + apply firstVariantAtHead_alternatives. vm_compute. reflexivity.
  - apply (proj1 (proj2 (removeWakeWord_strips_first_variant
                           "hey mira what time is it"))
             EmptyString "hey mira what time is it").
    + reflexivity.
    + reflexivity.
    + intros p1 p2 rest Heq Hne. destruct p1 as [|c p1].
      * rewrite StrFacts.app_nil in Heq. congruence.
      * rewrite StrFacts.app_cons in Heq. discriminate.
    + apply firstVariantAtHead_alternatives. vm_compute. reflexivity.
Defined.

(** *** Fragments *)

(** C3, where the claim fails: the first run is with the agent and the
    flag is set, and the debounce timer of a fragment that arrived during
    the fetch has run: a second run is in flight, its request sent. *)
Lemma several_runs_in_flight :
  run racing start = Some (after racing) /\
  isProcessingQuery (after racing) = true /\
  awaitingAgent (after racing) = 1%nat /\
  awaitingFetch (after racing) = 1%nat /\
  length (fetches (after racing)) = 2%nat.
Proof. vm_compute. repeat split. Qed.

Lemma processing_ignores_fragments_witness :
  handleTranscription 2000 heyMira (after toAgent) = after toAgent /\
  (awaitingAgent (after toAgent) <= 1)%nat /\
  let w' :=
    processQuery_afterFetch 3200
      (transcriptOf "Hey Mira, and the date") (after racing) in
  agentCalls w' = agentCalls (after racing) /\
  awaitingAgent w' = awaitingAgent (after racing) /\
  isProcessingQuery w' = true /\
  timers w' = timers (after racing).
Proof.
  split; [|split].
  - apply (proj1 processing_ignores_fragments). reflexivity.
  - apply (proj1 (proj2 processing_ignores_fragments)).
    apply (reachable_after toAgent). vm_compute. reflexivity.
  - apply (proj2 (proj2 processing_ignores_fragments)). reflexivity.
Defined.

Lemma one_debounce_timer_witness :
  (length (debounceTimers (after wakeOnly)) <= 1)%nat /\
  debounceTimers (handleTranscription 200 heyMira (after wakeOnly)) =
  [debounceTimer 200 heyMira (nextHandle (after wakeOnly))] /\
  exists h,
    debounceTimers
      (handleAll
         [(100, {| text := "hey mira"; isFinal := false |});
          (150, {| text := "hey mira what"; isFinal := false |});
          (200, {| text := "hey mira what time is it"; isFinal := true |})]
         start) =
    [debounceTimer 200
       {| text := "hey mira what time is it"; isFinal := true |} h].
Proof.
  destruct one_debounce_timer as (Hmost & Hone & Hseq).
  split; [|split].
  - apply Hmost, (reachable_after wakeOnly). vm_compute. reflexivity.
  - apply Hone.
    + apply (reachable_after wakeOnly). vm_compute. reflexivity.
    + split; [reflexivity|]. left. vm_compute. reflexivity.
  - apply (Hseq start (100, {| text := "hey mira"; isFinal := false |})).
    + apply (reachable_after []). reflexivity.
    + split; [reflexivity|]. left. vm_compute. reflexivity.
Defined.


(** C7, at a failing input: the session has just shown the placeholder for
    "hey mira" and the formatter holds no text; the same fragment again
    draws the placeholder a second time. *)
Lemma placeholder_redrawn_witness :
  display (handleTranscription 200 heyMira (after wakeOnly)) =
  [listeningPlaceholder; listeningPlaceholder].
Proof.
  change [listeningPlaceholder; listeningPlaceholder]
    with (listeningPlaceholder :: display (after wakeOnly)).
  apply placeholder_redrawn_when_last_was_empty.
  - split; [reflexivity|]. left. vm_compute. reflexivity.
  - vm_compute. reflexivity.
  - vm_compute. reflexivity.
Defined.

(** *** The end of a run *)

(** C1, at a failing input: the transcript store answers with status 500;
    afterwards the session still listens, still holds the time of the
    first detection and the handle of its timer, and no cool-down is
    pending. *)
Lemma failed_fetch_witness :
  let w := after toFetch in
  let w' := processQuery_afterFetch 1700 serverError w in
  (transcriptionStartTime w' = transcriptionStartTime w /\
   timeoutId w' = timeoutId w /\
   isListeningToQuery w' = isListeningToQuery w /\
   transcriptProcessor w' = transcriptProcessor w /\
   isProcessingQuery w' = isProcessingQuery w /\
   timers w' = timers w) /\
  transcriptionStartTime w' = 100 /\
  timeoutId w' = Some 0%nat /\
  isListeningToQuery w' = true /\
  cooldownTimers w' = [].
Proof.
  split.
  - apply (failed_fetch_resets_nothing 1700 serverError (after toFetch)).
    reflexivity.
  - vm_compute. repeat split.
Defined.



(** C8, where the claim fails: a run whose transcript has no segment
    arrives while another run is with the agent; it ends at the guard and
    shows nothing. *)
Lemma guarded_run_shows_nothing :
  run racing start = Some (after racing) /\
  segmentsOf emptyTranscript = Some [] /\
  exists w',
    step 3200 (FetchSettles emptyTranscript) (after racing) = Some w' /\
    display w' = display (after racing) /\
    ~ In noQueryProvided (display w').
Proof.
  split; [vm_compute; reflexivity|]. split; [reflexivity|].
  eexists. split; [vm_compute; reflexivity|]. split; [reflexivity|].
  vm_compute. intuition discriminate.
Qed.

Lemma empty_query_is_not_sent_witness :
  let w' := processQuery_afterFetch 1700 emptyTranscript (after toFetch) in
  agentCalls w' = agentCalls (after toFetch) /\
  awaitingAgent w' = awaitingAgent (after toFetch) /\
  (isProcessingQuery (after toFetch) = false ->
   display w' = noQueryProvided :: display (after toFetch)) /\
  (isProcessingQuery (after toFetch) = true ->
   display w' = display (after toFetch)).
Proof.
  apply (empty_query_is_not_sent 1700 emptyTranscript (after toFetch) []
           EmptyString).
  - reflexivity.
  - reflexivity.
  - vm_compute. reflexivity.
Defined.

(** *** Side-effect timers *)



End Examples.

(** * More of the code *)

(** ** The matching of wake words *)

Module WakeMoreFacts.

Import Char Str CharFacts StrFacts Wake WakeSpec WakeFacts RemoveFacts WakeMore.

Lemma startsWith_spec w s :
  startsWith w s = true <-> exists suf, s = w +:+ suf.
Proof.
  revert s. induction w as [|a w IH]; intros s; simpl.
  - split; [intros _; exists s; reflexivity|reflexivity].
  - destruct s as [|b s].
    + split; [discriminate|]. intros [suf Hs]. discriminate.
    + rewrite andb_true_iff, IH. split.
      * intros [->%Ascii.eqb_eq [suf ->]]. exists suf. reflexivity.
      * intros [suf Hs]. rewrite app_cons in Hs. injection Hs as -> ->.
        split; [apply Ascii.eqb_refl|eauto].
Qed.

Lemma includes_spec s w :
  includes s w = true <-> exists pre suf, s = pre +:+ w +:+ suf.
Proof.
  induction s as [|c s IH].
  - simpl. rewrite orb_false_r, startsWith_spec. split.
    + intros [suf Hs]. exists EmptyString, suf. exact Hs.
    + intros (pre & suf & Hs). destruct pre; [|discriminate].
      exists suf. exact Hs.
  - change (includes (String c s) w)
      with (startsWith w (String c s) || includes s w).
    rewrite orb_true_iff, startsWith_spec, IH. split.
    + intros [[suf Hs]|(pre & suf & ->)].
      * exists EmptyString, suf. exact Hs.
      * exists (String c pre), suf. reflexivity.
    + intros (pre & suf & Hs). destruct pre as [|c' pre].
      * left. exists suf. exact Hs.
      * rewrite app_cons in Hs. injection Hs as -> ->. right. eauto.
Qed.

(** X1: the texts that the cleaning leaves as they are, are the clean
    ones, and every cleaned text is one of them. *)
Theorem cleanText_fixes_clean_text :
  forall x : string,
    clean (cleanText x) /\ (cleanText x = x <-> clean x).
Proof.
  assert (Hout : forall x, clean (cleanText x)).
  { intros x. repeat split;
      [apply cleanText_lower_fixed|apply cleanText_not_punct|
       apply cleanText_tidy|apply cleanText_trimmed]. }
  intros x. split; [apply Hout|]. split.
  - intros <-. apply Hout.
  - intros (Hl & Hp & Ht & Htrim). unfold cleanText, normalizeWhitespace.
    rewrite toLowerCase_fixed, removePunctuation_fixed, collapse_fixed
      by assumption.
    exact Htrim.
Qed.

(** X2: [hasWakeWord] holds exactly when a configured variant stands
    somewhere in the text, inside a longer word or not. *)
Theorem hasWakeWord_is_containment :
  forall s : string, hasWakeWord s = true <-> containsVariant s.
Proof.
  intros s. unfold hasWakeWord, containsVariant. rewrite existsb_exists.
  split.
  - intros (word & Hin & (pre & suf & Hs)%includes_spec). eauto.
  - intros (word & pre & suf & Hin & Hs). exists word.
    split; [exact Hin|]. apply includes_spec. eauto.
Qed.

(** X3: [endsWithWakeWord] holds only of text whose cleaning contains a
    wake word: the wait of 10000 ms is never chosen for a fragment that
    is accepted for the sole reason that the session listens. *)
Theorem endsWithWakeWord_has_wake_word :
  forall x : string,
    endsWithWakeWord x = true -> hasWakeWord (cleanText x) = true.
Proof.
  intros x Hends.
  assert (Hc : endsWithWakeWord (cleanText x) = true).
  { unfold endsWithWakeWord in *. rewrite cleanText_idempotent. exact Hends. }
  apply endsWithWakeWord_variant in Hc as (word & pre & Hin & Hs).
  unfold hasWakeWord. apply existsb_exists. exists word.
  split; [exact Hin|]. apply includes_spec. exists pre, EmptyString.
  rewrite app_empty_r. exact Hs.
Qed.

Lemma removeWakeWord_trimmed text :
  trim (removeWakeWord text) = removeWakeWord text.
Proof. unfold removeWakeWord. apply trim_idem. Qed.

(** X4: what [removeWakeWord] returns has no white space at either end;
    and when no variant is left in it, removing the wake word again
    changes nothing. *)
Theorem removeWakeWord_result_is_stable :
  forall text : string,
    trim (removeWakeWord text) = removeWakeWord text /\
    (~ variantOccurs (removeWakeWord text) ->
     removeWakeWord (removeWakeWord text) = removeWakeWord text).
Proof.
  intros text.
  pose proof (removeWakeWord_trimmed text) as Htrim.
  split; [exact Htrim|]. intros Hno.
  unfold removeWakeWord at 1. rewrite replace_no_match; [exact Htrim|].
  destruct (occurs (removeWakeWord text)) eqn:Hocc; [|reflexivity].
  apply occurs_spec in Hocc. contradiction.
Qed.

End WakeMoreFacts.

(** ** Notifications *)

Module NotificationsFacts.

Import Notifications.

Section WithNotification.

Context {A : Type}.

Implicit Types (m : gmap string (list A)) (ns : list A).

Lemma stored_add userId ns m :
  stored userId (addNotifications userId ns m) = stored userId m ++ ns.
Proof.
  unfold stored, addNotifications. cbv zeta.
  destruct (m !! userId) as [old|] eqn:Hm.
  - rewrite lookup_insert_eq, Hm. reflexivity.
  - rewrite !lookup_insert_eq. reflexivity.
Qed.

Lemma stored_add_other userId userId' ns m :
  userId' <> userId ->
  stored userId' (addNotifications userId ns m) = stored userId' m.
Proof.
  intros Hne. unfold stored, addNotifications. cbv zeta.
  destruct (m !! userId) as [old|] eqn:Hm.
  - rewrite lookup_insert_ne by congruence. reflexivity.
  - rewrite !lookup_insert_ne by congruence. reflexivity.
Qed.

(** X5: notifications are only ever appended, in the order they arrive,
    and to their user alone: another user's notifications stay as they
    are. A payload that is one truthy value is stored as one
    notification, and a falsy payload is dropped. *)
Theorem notifications_are_appended :
  forall (userId : string) (ns : list A) (m : gmap string (list A)),
    stored userId (addNotifications userId ns m) = stored userId m ++ ns /\
    (forall x,
        stored userId (handlePhoneNotifications (PhoneOne x) userId m) =
        stored userId m ++ [x]) /\
    handlePhoneNotifications PhoneNothing userId m = m /\
    (forall userId' payload,
        userId' <> userId ->
        stored userId' (handlePhoneNotifications payload userId m) =
        stored userId' m).
Proof.
  intros userId ns m. split; [apply stored_add|].
  split; [intros x; apply stored_add|]. split; [reflexivity|].
  intros userId' [l|x|] Hne; simpl;
    [apply stored_add_other, Hne|apply stored_add_other, Hne|reflexivity].
Qed.

Lemma slice_negative (c : Z) (arr : list A) :
  0 < c ->
  slice (- c) arr = drop (length arr - Z.to_nat c) arr.
Proof.
  intros Hc. unfold slice.
  replace (- c <? 0) with true by (symmetry; apply Z.ltb_lt; lia).
  f_equal. lia.
Qed.

Lemma getLatest_eq userId count m :
  getLatestNotifications userId count m =
  slice (- default 5 count) (stored userId m).
Proof. reflexivity. Qed.

(** X6: for a positive [count] (5 when it is left out),
    [getLatestNotifications] returns the newest notifications of the
    user, oldest first: what is stored is some older notifications
    followed by the result, which has [count] elements, or all of them
    when fewer are stored. *)
Theorem latest_notifications_are_the_newest :
  forall (userId : string) (count : option Z) (m : gmap string (list A)),
    0 < default 5 count ->
    let latest := getLatestNotifications userId count m in
    (exists older, stored userId m = older ++ latest) /\
    length latest =
    Nat.min (Z.to_nat (default 5 count)) (length (stored userId m)).
Proof.
  intros userId count m Hc latest. subst latest.
  rewrite getLatest_eq, slice_negative by exact Hc. split.
  - eexists. symmetry. apply take_drop.
  - rewrite length_drop. lia.
Qed.

(** X7: with a [count] of 0 [getLatestNotifications] returns every
    notification stored, not none; with a negative [count] it leaves out
    that many of the oldest. *)
Theorem latest_notifications_without_count :
  forall (userId : string) (m : gmap string (list A)),
    getLatestNotifications userId (Some 0) m = stored userId m /\
    forall c, c < 0 ->
      getLatestNotifications userId (Some c) m =
      drop (Z.to_nat (- c)) (stored userId m).
Proof.
  intros userId m. split.
  - rewrite getLatest_eq. unfold slice. simpl.
    rewrite Z.min_l by lia. reflexivity.
  - intros c Hc. rewrite getLatest_eq. unfold slice. simpl default.
    replace (- c <? 0) with false by (symmetry; apply Z.ltb_ge; lia).
    destruct (Z.min_spec (- c) (Z.of_nat (length (stored userId m))))
      as [[_ ->]|[Hle ->]]; [reflexivity|].
    rewrite Nat2Z.id, !drop_ge by lia. reflexivity.
Qed.

(** X8: after [clearNotifications] nothing is returned for the user,
    whatever the count, also when notifications had just been added;
    other users keep theirs; and clearing twice is clearing once. *)
Theorem cleared_notifications_are_gone :
  forall (userId : string) (ns : list A) (m : gmap string (list A)),
    (forall count,
        getLatestNotifications userId count
          (clearNotifications userId (addNotifications userId ns m)) = []) /\
    (forall userId',
        userId' <> userId ->
        stored userId' (clearNotifications userId m) = stored userId' m) /\
    clearNotifications userId (clearNotifications userId m) =
    clearNotifications userId m.
Proof.
  intros userId ns m. split; [|split].
  - intros count. unfold getLatestNotifications, clearNotifications.
    rewrite lookup_delete_eq. unfold slice. simpl. apply drop_nil.
  - intros userId' Hne. unfold stored, clearNotifications.
    rewrite lookup_delete_ne by congruence. reflexivity.
  - unfold clearNotifications. apply delete_delete_eq.
Qed.

End WithNotification.

End NotificationsFacts.

(** ** The server URL *)

Module ServerUrlFacts.

Import Str StrFacts ServerUrl.

Lemma removeSuffix_eq suffix url :
  removeSuffix suffix url =
  if String.eqb url suffix then EmptyString
  else
    match url with
    | EmptyString => EmptyString
    | String c url' => String c (removeSuffix suffix url')
    end.
Proof. destruct url; reflexivity. Qed.

Lemma length_app s t :
  String.length (s +:+ t) = (String.length s + String.length t)%nat.
Proof.
  induction s as [|c s IH]; [reflexivity|]. rewrite app_cons. simpl.
  rewrite IH. reflexivity.
Qed.

Lemma removeSuffix_app host suffix :
  removeSuffix suffix (host +:+ suffix) = host.
Proof.
  induction host as [|c host IH].
  - rewrite app_nil, removeSuffix_eq, String.eqb_refl. reflexivity.
  - rewrite removeSuffix_eq.
    destruct (String.eqb (String c host +:+ suffix) suffix) eqn:E.
    + apply String.eqb_eq in E. apply (f_equal String.length) in E.
      rewrite length_app in E. simpl in E. lia.
    + rewrite app_cons, IH. reflexivity.
Qed.

Lemma getCleanServerUrl_wss host :
  getCleanServerUrl (Some ("wss://" +:+ host +:+ "/tpa-ws")) =
  "https://" +:+ host.
Proof.
  unfold getCleanServerUrl.
  change (removeScheme ("wss://" +:+ host +:+ "/tpa-ws"))
    with (host +:+ "/tpa-ws").
  cbv zeta. rewrite removeSuffix_app. reflexivity.
Qed.

Lemma getCleanServerUrl_ws host :
  getCleanServerUrl (Some ("ws://" +:+ host +:+ "/tpa-ws")) =
  "https://" +:+ host.
Proof.
  unfold getCleanServerUrl.
  change (removeScheme ("ws://" +:+ host +:+ "/tpa-ws"))
    with (host +:+ "/tpa-ws").
  cbv zeta. rewrite removeSuffix_app. reflexivity.
Qed.

(** X9: the web-socket URL of a session, [ws://] or [wss://] followed
    by a host and ended by [/tpa-ws], is cleaned to [https://] followed
    by the host, whatever the host is. *)
Theorem getCleanServerUrl_of_websocket_url :
  forall host : string,
    getCleanServerUrl (Some ("wss://" +:+ host +:+ "/tpa-ws")) =
      "https://" +:+ host /\
    getCleanServerUrl (Some ("ws://" +:+ host +:+ "/tpa-ws")) =
      "https://" +:+ host.
Proof.
  intros host. split;
    [apply getCleanServerUrl_wss|apply getCleanServerUrl_ws].
Qed.

(** X10: the cleaned URL is empty exactly when the raw URL is missing or
    empty. A raw URL whose scheme is not [ws] or [wss], [https] included,
    keeps it: [https://] is put in front of the whole of it. *)
Theorem getCleanServerUrl_of_other_urls :
  (forall rawUrl,
      getCleanServerUrl rawUrl = EmptyString <->
      rawUrl = None \/ rawUrl = Some EmptyString) /\
  (forall c rest,
      c <> "w"%char ->
      getCleanServerUrl (Some (String c rest)) =
      "https://" +:+ removeSuffix "/tpa-ws" (String c rest)).
Proof.
  split.
  - intros [[|c s]|]; simpl; split; auto; try discriminate.
    + intros [|]; discriminate.
  - intros c rest Hc.
    assert (Hw : Ascii.eqb "w"%char c = false)
      by (apply Ascii.eqb_neq; congruence).
    unfold getCleanServerUrl, removeScheme.
    change (startsWith "wss://" (String c rest))
      with (Ascii.eqb "w"%char c && startsWith "ss://" rest).
    change (startsWith "ws://" (String c rest))
      with (Ascii.eqb "w"%char c && startsWith "s://" rest).
    rewrite Hw. reflexivity.
Qed.

End ServerUrlFacts.

(** ** The location context *)

Module LocationFacts.

Import Location.

Lemma orElse_truthy a b : truthy b = true -> truthy (orElse a b) = true.
Proof. unfold orElse. destruct (truthy a) eqn:Ha; auto. Qed.

Lemma orElse_truthy_or a b :
  truthy (orElse a b) = true \/ orElse a b = b.
Proof. unfold orElse. destruct (truthy a) eqn:Ha; auto. Qed.

Lemma wellFilled_fallback : wellFilled fallbackLocationContext.
Proof. unfold wellFilled. simpl. tauto. Qed.

Lemma wellFilled_geocoded geo c : wellFilled c -> wellFilled (geocoded geo c).
Proof.
  intros Hc. destruct geo as [| |[address|]]; try exact Hc.
  destruct Hc as (_ & _ & _ & Hrest). unfold wellFilled. simpl.
  repeat split; try (repeat apply orElse_truthy; reflexivity); apply Hrest.
Qed.

Lemma wellFilled_timezoned tz c : wellFilled c -> wellFilled (timezoned tz c).
Proof.
  intros Hc. destruct tz as [| |[zone|]]; try exact Hc.
  destruct Hc as (H1 & H2 & H3 & _). unfold wellFilled. simpl.
  repeat split; try assumption;
    try (apply orElse_truthy; reflexivity).
  apply orElse_truthy_or.
Qed.

(** X11: whatever the location data and however the two requests end,
    the city, state and country and the names of the time zone handed to
    the agent are truthy, and the offset is truthy or 0. *)
Theorem location_context_is_always_filled :
  forall token locationData geo tz,
    wellFilled (snd (handleLocation token locationData geo tz)).
Proof.
  intros token [data|] geo tz; simpl; [|apply wellFilled_fallback].
  destruct (negb _ || negb _); simpl; [apply wellFilled_fallback|].
  apply wellFilled_timezoned, wellFilled_geocoded, wellFilled_fallback.
Qed.

(** X12: without coordinates that can be used (no location data, or a
    latitude or longitude that is missing, [null] or 0) nothing is
    requested and the agent gets the fallback context. Otherwise the
    geocoding decides the city, state and country alone and the time-zone
    request the time zone alone, so that one failing does not spoil the
    other; and when neither gives anything to read the context is the
    fallback. *)
Theorem location_lookups_fail_apart :
  forall token locationData geo tz,
    (unusable locationData ->
     handleLocation token locationData geo tz = ([], fallbackLocationContext)) /\
    (forall geo' tz',
        timezone (snd (handleLocation token locationData geo tz)) =
        timezone (snd (handleLocation token locationData geo' tz)) /\
        city (snd (handleLocation token locationData geo tz)) =
        city (snd (handleLocation token locationData geo tz')) /\
        state (snd (handleLocation token locationData geo tz)) =
        state (snd (handleLocation token locationData geo tz')) /\
        country (snd (handleLocation token locationData geo tz)) =
        country (snd (handleLocation token locationData geo tz'))) /\
    (fruitless geo -> fruitless tz ->
     snd (handleLocation token locationData geo tz) = fallbackLocationContext).
Proof.
  intros token [data|] geo tz; simpl.
  2:{ repeat split. }
  split; [|split].
  - intros [->| ->]; rewrite ?orb_true_r; reflexivity.
  - intros geo' tz'. destruct (negb _ || negb _); simpl; [repeat split|].
    repeat split.
    + destruct tz as [| |[z|]], geo as [| |[a|]], geo' as [| |[a'|]];
        reflexivity.
    + destruct tz as [| |[z|]], tz' as [| |[z'|]]; reflexivity.
    + destruct tz as [| |[z|]], tz' as [| |[z'|]]; reflexivity.
    + destruct tz as [| |[z|]], tz' as [| |[z'|]]; reflexivity.
  - intros [->|[->| ->]] [->|[->| ->]];
      destruct (negb _ || negb _); reflexivity.
Qed.

End LocationFacts.

(** ** More on the session *)

Module SessionMoreFacts.

Import Session Invariant TimerFacts WakeSpec WakeFacts SessionFacts
  SessionClaims TimerClaims SessionMore.

#[local] Opaque removeWakeWord cleanText hasWakeWord endsWithWakeWord.

Section WithUtils.

Context `{Utils}.

Implicit Types (w : World) (t : Timer).

(** *** The processing flag and the cool-down *)

(** X13: in every world a session reaches, [isProcessingQuery] is set
    exactly when either one run is with the agent and no cool-down is
    pending, or no run is with the agent and one cool-down is pending. *)
Theorem processing_flag_is_accounted :
  forall w,
    reachable w ->
    (isProcessingQuery w = true <->
       (awaitingAgent w = 1%nat /\ cooldownTimers w = []) \/
       (awaitingAgent w = 0%nat /\ exists t, cooldownTimers w = [t])) /\
    (isProcessingQuery w = false <->
       awaitingAgent w = 0%nat /\ cooldownTimers w = []).
Proof.
  intros w [_ Hacc]%reachable_invariant. unfold accounted in Hacc.
  destruct (isProcessingQuery w), (awaitingAgent w) as [|[|n]],
    (cooldownTimers w) as [|t [|t' l]]; simpl in Hacc; try lia;
    split; split; intro Hx; try discriminate; try reflexivity;
    try (destruct Hx as [[? ?]|[? [? ?]]]; discriminate);
    try (destruct Hx; discriminate);
    try (left; split; reflexivity);
    try (right; split; [reflexivity|eexists; reflexivity]);
    try (split; reflexivity).
Qed.

(** X14: while a cool-down is pending every fragment is ignored; and when
    the cool-down timer runs the flag is cleared, with no run with the
    agent and no other cool-down left. *)
Theorem cooldown_ignores_fragments :
  forall w,
    reachable w -> cooldownTimers w <> [] ->
    (forall now data, handleTranscription now data w = w) /\
    (forall T h t,
        pending h w = Some t -> task t = CooldownTask -> due T t = true ->
        exists w',
          step T (TimerFires h) w = Some w' /\
          isProcessingQuery w' = false /\
          awaitingAgent w' = 0%nat /\
          cooldownTimers w' = []).
Proof.
  intros w [Hok Hacc]%reachable_invariant Hcd. split.
  - intros now data. unfold handleTranscription.
    unfold accounted in Hacc.
    destruct (isProcessingQuery w); [reflexivity|].
    destruct (cooldownTimers w); [congruence|simpl in Hacc; lia].
  - intros T h t Hpend Htask Hdue.
    assert (Hc : is_cooldown t = true)
      by (unfold is_cooldown; rewrite Htask; reflexivity).
    destruct (clearTimeout_cooldown_self h w t Hok Hacc Hpend Hc)
      as (_ & Ha & Hnone).
    eexists. simpl. rewrite Hpend, Hdue, Htask. split; [reflexivity|].
    simpl. pose proof (clearTimeout_kept h w) as [= _ _ _ _ Ha1].
    repeat split.
    + destruct (clearTimeout h w); reflexivity.
    + rewrite <- Ha, <- Ha1. destruct (clearTimeout h w); reflexivity.
    + rewrite <- Hnone. destruct (clearTimeout h w); reflexivity.
Qed.

(** *** Fragments *)

Lemma listening_startTime now data w :
  transcriptionStartTime (listening now data w) =
  if transcriptionStartTime w =? 0 then now else transcriptionStartTime w.
Proof.
  unfold listening, showListening.
  destruct (Nat.eqb _ 0).
  - destruct (negb _); destruct (transcriptionStartTime w =? 0) eqn:E;
      destruct w; simpl in *; rewrite ?E; reflexivity.
  - destruct (processString _ _ _) as [tp out] eqn:Hp.
    destruct (transcriptionStartTime w =? 0) eqn:E;
      destruct w; simpl in *; rewrite ?E; reflexivity.
Qed.

Lemma handleTranscription_startTime now data w :
  transcriptionStartTime w <> 0 ->
  transcriptionStartTime (handleTranscription now data w) =
  transcriptionStartTime w.
Proof.
  intros Hw. apply Z.eqb_neq in Hw.
  destruct (accepted_dec data w) as [Ha|Hn].
  - rewrite (handleTranscription_accepted now data w Ha).
    pose proof (rearm_kept now (text data)
                  (timerDurationOf data (cleanText (text data)))
                  (listening now data w)) as Hk.
    assert (Hs : transcriptionStartTime
                   (rearm now (text data)
                      (timerDurationOf data (cleanText (text data)))
                      (listening now data w)) =
                 transcriptionStartTime (listening now data w))
      by congruence.
    rewrite Hs, listening_startTime, Hw. reflexivity.
  - rewrite (handleTranscription_ignored now data w Hn). reflexivity.
Qed.

Lemma handleAll_startTime frags w :
  transcriptionStartTime w <> 0 ->
  transcriptionStartTime (handleAll frags w) = transcriptionStartTime w.
Proof.
  revert w. induction frags as [|[now data] frags IH]; intros w Hw.
  - reflexivity.
  - change (handleAll ((now, data) :: frags) w)
      with (handleAll frags (handleTranscription now data w)).
    assert (Hs : transcriptionStartTime (handleTranscription now data w) =
                 transcriptionStartTime w)
      by (apply handleTranscription_startTime; exact Hw).
    rewrite IH; rewrite Hs; auto.
Qed.

(** X15: a fragment changes the session exactly when it is accepted, that
    is when no query is being processed and the wake phrase is contained
    or the session is already listening; an accepted one takes a new
    timer handle. *)
Theorem fragment_changes_session_iff_accepted :
  forall now data w,
    (handleTranscription now data w = w <-> ~ accepted data w) /\
    (accepted data w ->
     nextHandle (handleTranscription now data w) = S (nextHandle w)).
Proof.
  intros now data w.
  assert (Hn : accepted data w ->
               nextHandle (handleTranscription now data w) = S (nextHandle w)).
  { intros Ha. rewrite (handleTranscription_accepted now data w Ha).
    rewrite rearm_nextHandle, nextHandle_listening. reflexivity. }
  split; [split|exact Hn].
  - intros Heq Ha. apply Hn in Ha. rewrite Heq in Ha. lia.
  - apply handleTranscription_ignored.
Qed.

(** X16: the start of the listening window is taken once: the first
    accepted fragment of a window sets [transcriptionStartTime] to its
    time, and no later fragment changes it. *)
Theorem start_time_is_taken_once :
  forall now data frags w,
    accepted data w ->
    transcriptionStartTime w = 0 ->
    now <> 0 ->
    transcriptionStartTime (handleAll ((now, data) :: frags) w) = now.
Proof.
  intros now data frags w Ha H0 Hnow.
  change (handleAll ((now, data) :: frags) w)
    with (handleAll frags (handleTranscription now data w)).
  assert (Hs : transcriptionStartTime (handleTranscription now data w) = now).
  { rewrite (handleTranscription_accepted now data w Ha).
    pose proof (rearm_kept now (text data)
                  (timerDurationOf data (cleanText (text data)))
                  (listening now data w)) as Hk.
    assert (Hr : transcriptionStartTime
                   (rearm now (text data)
                      (timerDurationOf data (cleanText (text data)))
                      (listening now data w)) =
                 transcriptionStartTime (listening now data w))
      by congruence.
    rewrite Hr, listening_startTime, H0. reflexivity. }
  rewrite handleAll_startTime; rewrite Hs; auto.
Qed.

(** *** The duration asked of the transcript store *)

Lemma ceil_seconds_bounds ms :
  ms <= 1000 * ceil_seconds ms < ms + 1000.
Proof.
  unfold ceil_seconds.
  pose proof (Z.div_mod (- ms) 1000 ltac:(lia)) as Hd.
  pose proof (Z.mod_pos_bound (- ms) 1000 ltac:(lia)) as Hm.
  lia.
Qed.

(** X17: the duration asked of the transcript store is at least one
    second; when a listening window is open it is the least number of
    whole seconds that covers the window; otherwise it covers the debounce
    delay, or is three seconds when there is none. *)
Theorem requested_duration_covers_window :
  forall now timerDuration w,
    let d := durationSeconds now timerDuration w in
    1 <= d /\
    (0 < transcriptionStartTime w ->
     now - transcriptionStartTime w <= 1000 * d /\
     (d = 1 \/ 1000 * (d - 1) < now - transcriptionStartTime w)) /\
    (transcriptionStartTime w <= 0 -> timerDuration <> 0 ->
     timerDuration <= 1000 * d /\
     (d = 1 \/ 1000 * (d - 1) < timerDuration)) /\
    (transcriptionStartTime w <= 0 -> timerDuration = 0 -> d = 3).
Proof.
  intros now timerDuration w d. subst d. unfold durationSeconds.
  pose proof (ceil_seconds_bounds (now - transcriptionStartTime w)) as Hw.
  pose proof (ceil_seconds_bounds timerDuration) as Ht.
  destruct (0 <? transcriptionStartTime w) eqn:E0;
    [apply Z.ltb_lt in E0|apply Z.ltb_ge in E0];
    destruct (timerDuration =? 0) eqn:E1;
    [apply Z.eqb_eq in E1|apply Z.eqb_neq in E1
    |apply Z.eqb_eq in E1|apply Z.eqb_neq in E1]; simpl;
    repeat split; intros; try lia.
Qed.

(** *** The run of a query *)

Lemma trimStart_length s :
  (String.length (Str.trimStart s) <= String.length s)%nat.
Proof.
  induction s as [|c s IH]; simpl; [lia|].
  destruct (Char.is_space c); simpl; lia.
Qed.

Lemma trimEnd_length s :
  (String.length (Str.trimEnd s) <= String.length s)%nat.
Proof.
  induction s as [|c s IH]; simpl; [lia|].
  destruct (Char.is_space c && Str.is_empty (Str.trimEnd s)); simpl; lia.
Qed.

Lemma trim_length s : (String.length (Str.trim s) <= String.length s)%nat.
Proof.
  unfold Str.trim. pose proof (trimEnd_length (Str.trimStart s)).
  pose proof (trimStart_length s). lia.
Qed.

Lemma take_length n s : (String.length (Str.take n s) <= n)%nat.
Proof.
  revert s. induction n as [|n IH]; intros [|c s]; simpl; try lia.
  specialize (IH s). lia.
Qed.

Lemma blank_body responseText :
  Str.is_empty responseText || Str.is_empty (Str.trim responseText) = true <->
  Str.trim responseText = EmptyString.
Proof.
  rewrite orb_true_iff, !StrFacts.is_empty_true. split.
  - intros [->|Hb]; [reflexivity|exact Hb].
  - auto.
Qed.

Lemma transcriptionResponseOf_none o :
  transcriptionResponseOf o = None <->
  o = FetchRejected \/
  exists ok responseText json,
    o = FetchResponse ok responseText json /\
    (ok = false \/ Str.trim responseText = EmptyString \/ json = None).
Proof.
  destruct o as [|ok responseText json]; simpl.
  - split; auto.
  - destruct ok; simpl.
    + destruct (Str.is_empty responseText
                || Str.is_empty (Str.trim responseText)) eqn:Hb.
      * apply blank_body in Hb. split; [|reflexivity].
        intros _. right. eauto 8.
      * split.
        -- intros ->. right. eauto 8.
        -- intros [?|(ok' & r' & j' & [= <- <- <-] & [?|[Hr|?]])];
             try discriminate; [|assumption].
           apply blank_body in Hr. congruence.
    + split; [|reflexivity]. intros _. right. eauto 8.
Qed.

(** X18: a run whose transcript is not usable shows one error notice and
    goes no further: the retrieval error when the fetch is rejected, the
    response is not ok, its body is blank or is not JSON; the format error
    when the parsed body has no [segments] array. *)
Theorem unusable_transcript_shows_one_error :
  forall now o w,
    segmentsOf o = None ->
    let w' := processQuery_afterFetch now o w in
    (transcriptionResponseOf o = None <->
     o = FetchRejected \/
     exists ok responseText json,
       o = FetchResponse ok responseText json /\
       (ok = false \/ Str.trim responseText = EmptyString \/ json = None)) /\
    (transcriptionResponseOf o = None ->
     display w' = retrievalError :: display w) /\
    (transcriptionResponseOf o <> None ->
     display w' = formatError :: display w) /\
    agentCalls w' = agentCalls w /\
    awaitingAgent w' = awaitingAgent w /\
    awaitingFetch w' = Nat.pred (awaitingFetch w).
Proof.
  intros now o w Hseg w'. subst w'.
  split; [apply transcriptionResponseOf_none|].
  unfold segmentsOf in Hseg. unfold processQuery_afterFetch.
  destruct (transcriptionResponseOf o) as [r|].
  - rewrite Hseg. destruct w. simpl.
    repeat split; try reflexivity; intros; congruence.
  - destruct w. simpl. repeat split; try reflexivity; intros; congruence.
Qed.

Lemma queryOf_none segs : queryOf segs = None <-> In None segs.
Proof.
  unfold queryOf. rewrite <- rawCombinedTextOf_none.
  destruct (rawCombinedTextOf segs); split; congruence.
Qed.

Lemma queryOf_some segs query :
  queryOf segs = Some query ->
  exists rawCombinedText,
    rawCombinedTextOf segs = Some rawCombinedText /\
    query = removeWakeWord rawCombinedText.
Proof.
  unfold queryOf. destruct (rawCombinedTextOf segs) as [raw|];
    [|discriminate].
  intros [= <-]. eauto.
Qed.

(** X19: the agent is called exactly when the transcript has an array of
    segments of which none is [null], no query is being processed and
    the stripped query is not empty; it is then given the combined text
    of the segments with the wake word removed, which has no white space
    at either end, the flag is set and the processing notice is shown. A
    transcript whose array holds a [null] does not reach the agent: the
    run ends where the text is read, with nothing shown and no field
    changed. *)
Theorem agent_is_called_with_stripped_query :
  forall now o w,
    let w' := processQuery_afterFetch now o w in
    (forall query,
        reachesAgentWith query o w ->
        agentCalls w' = query :: agentCalls w /\
        awaitingAgent w' = S (awaitingAgent w) /\
        isProcessingQuery w' = true /\
        display w' = processingNotice query :: display w /\
        timers w' = timers w /\
        Str.trim query = query) /\
    (~ reachesAgent o w ->
     agentCalls w' = agentCalls w /\ awaitingAgent w' = awaitingAgent w) /\
    (forall segs,
        segmentsOf o = Some segs -> In None segs ->
        ~ reachesAgent o w /\
        w' = set_awaitingFetch (Nat.pred (awaitingFetch w)) w).
Proof.
  intros now o w w'. subst w'. split; [|split].
  - intros query (segs & Hsegs & Hq & Hflag & Hne).
    apply queryOf_some in Hq as (raw & Hraw & ->).
    apply segmentsOf_some in Hsegs as (resp & Hr & Hs).
    unfold processQuery_afterFetch. rewrite Hr, Hs, Hraw.
    replace (isProcessingQuery (set_awaitingFetch _ w)) with false
      by (destruct w; simpl in *; congruence).
    rewrite StrFacts.length_zero.
    destruct (Str.is_empty (Str.trim (removeWakeWord raw))) eqn:He.
    { apply StrFacts.is_empty_true in He. contradiction. }
    pose proof (WakeMoreFacts.removeWakeWord_trimmed raw) as Ht.
    destruct w. simpl in *. unfold processingNotice, displayQueryOf.
    repeat split; try reflexivity. exact Ht.
  - intros Hno. unfold processQuery_afterFetch.
    destruct (transcriptionResponseOf o) as [resp|] eqn:Hr;
      [|destruct w; simpl; auto].
    destruct (segments resp) as [segs|] eqn:Hs; [|destruct w; simpl; auto].
    destruct (rawCombinedTextOf segs) as [raw|] eqn:Hraw;
      [|destruct w; simpl; auto].
    assert (Hp : isProcessingQuery
                   (set_awaitingFetch (Nat.pred (awaitingFetch w)) w) =
                 isProcessingQuery w) by (destruct w; reflexivity).
    rewrite Hp. destruct (isProcessingQuery w) eqn:Hflag;
      [destruct w; simpl; auto|].
    rewrite StrFacts.length_zero.
    destruct (Str.is_empty (Str.trim (removeWakeWord raw))) eqn:He.
    + pose proof (finally_kept now
        (showTextWall (wrapText "No query provided." 30) 5000
           (set_isProcessingQuery true
              (set_awaitingFetch (Nat.pred (awaitingFetch w)) w)))) as Hk.
      injection Hk as _ _ Hc _ Ha _ _.
      rewrite Hc, Ha. destruct w. simpl. auto.
    + exfalso. apply Hno. exists (removeWakeWord raw), segs.
      split; [unfold segmentsOf; rewrite Hr; exact Hs|].
      split; [unfold queryOf; rewrite Hraw; reflexivity|].
      split; [exact Hflag|].
      intros Hx. rewrite Hx in He. discriminate.
  - intros segs Hsegs Hnull. split.
    + intros (query & segs' & Hsegs' & Hq & _).
      assert (segs' = segs) by congruence. subst segs'.
      apply queryOf_none in Hnull. congruence.
    + apply (processQuery_afterFetch_ends now o w segs Hsegs). right.
      exact Hnull.
Qed.

(** X20: the query named in the processing notice has at most 64
    characters, and is the query itself when that has at most 60. *)
Theorem shown_query_is_short :
  forall query,
    (String.length (displayQueryOf query) <= 64)%nat /\
    ((String.length query <= 60)%nat -> displayQueryOf query = query) /\
    ((60 < String.length query)%nat ->
     exists shown,
       displayQueryOf query = shown +:+ " ..." /\
       (String.length shown <= 60)%nat /\
       Str.trim shown = shown).
Proof.
  intros query. unfold displayQueryOf.
  pose proof (trim_length (Str.take 60 query)) as Ht.
  pose proof (take_length 60 query) as Hk.
  destruct (Nat.ltb 60 (String.length query)) eqn:E;
    [apply Nat.ltb_lt in E|apply Nat.ltb_ge in E].
  - rewrite ServerUrlFacts.length_app.
    change (String.length " ...") with 4%nat.
    split; [lia|]. split; [lia|]. intros _.
    exists (Str.trim (Str.take 60 query)).
    split; [reflexivity|]. split; [lia|]. apply StrFacts.trim_idem.
  - split; [lia|]. split; [reflexivity|]. lia.
Qed.

(** X21: every run that comes back from the agent shows exactly one
    notice and ends in the [finally] block: the processing error when the
    agent rejects, the apology when it gives nothing or an empty text, and
    the text itself, wrapped, when the text is not JSON. *)
Theorem every_answer_shows_one_notice :
  forall now o w,
    let w' := processQuery_afterAgent now o w in
    (exists notice, display w' = notice :: display w) /\
    awaitingAgent w' = Nat.pred (awaitingAgent w) /\
    isListeningToQuery w' = false /\
    transcriptionStartTime w' = 0 /\
    (o = AgentRejected -> display w' = processingError :: display w) /\
    (o = AgentNothing \/ (exists parsed, o = AgentText EmptyString parsed) ->
     display w' = noAnswer :: display w) /\
    (forall agentResponse,
        o = AgentText agentResponse None -> agentResponse <> EmptyString ->
        display w' =
        {| wall := wrapText agentResponse 30; durationMs := 8000 |}
          :: display w).
Proof.
  intros now o w w'. subst w'. unfold processQuery_afterAgent.
  set (w0 := set_awaitingAgent (Nat.pred (awaitingAgent w)) w).
  pose proof (finally_kept now (answered now o w0)) as Hk.
  injection Hk as Hd _ _ _ Ha _ _.
  pose proof (finally_fields now (answered now o w0))
    as (Hs & _ & Hl & _).
  assert (Hd0 : display w0 = display w) by (destruct w; reflexivity).
  assert (Ha0 : awaitingAgent w0 = Nat.pred (awaitingAgent w))
    by (destruct w; reflexivity).
  assert (Hwall : forall txt ms v,
             display (showTextWall txt ms v) =
             {| wall := txt; durationMs := ms |} :: display v)
    by (intros txt ms []; reflexivity).
  assert (Hwa : forall txt ms v,
             awaitingAgent (showTextWall txt ms v) = awaitingAgent v)
    by (intros txt ms []; reflexivity).
  rewrite Hd, Ha. repeat split; try assumption.
  - destruct o as [| |agentResponse parsed]; simpl;
      try (rewrite Hwall, Hd0; eauto).
    destruct (Str.is_empty agentResponse); [rewrite Hwall, Hd0; eauto|].
    destruct (handleEvent_cases now parsed w0)
      as [Hq|(obj & _ & _ & _ & Hq)]; rewrite Hq.
    + rewrite Hwall, Hd0; eauto.
    + unfold timerSet. rewrite <- Hd0.
      destruct w0. simpl. eauto.
  - destruct o as [| |agentResponse parsed]; simpl; rewrite ?Hwa; try exact Ha0.
    destruct (Str.is_empty agentResponse); [rewrite Hwa; exact Ha0|].
    destruct (handleEvent_cases now parsed w0)
      as [Hq|(obj & _ & _ & _ & Hq)]; rewrite Hq.
    + rewrite Hwa. exact Ha0.
    + pose proof (timerSet_kept now obj w0) as Hts.
      injection Hts as _ _ _ _ _ Hx _. rewrite Hx. exact Ha0.
  - intros ->. simpl. rewrite Hwall, Hd0. reflexivity.
  - intros [->|[parsed ->]]; simpl; rewrite Hwall, Hd0; reflexivity.
  - intros agentResponse -> Hne. simpl.
    destruct (Str.is_empty agentResponse) eqn:He.
    + apply StrFacts.is_empty_true in He. contradiction.
    + rewrite Hwall, Hd0. reflexivity.
Qed.

(** *** The end of a session *)

(** Reads a field of a world after the assignments of a handler. *)
Ltac fields w :=
  destruct w; simpl;
  repeat (match goal with
          | |- context [match ?x with _ => _ end] => destruct x; simpl
          end);
  reflexivity.

Lemma showTextWall_steady txt ms w :
  (requestsOf (showTextWall txt ms w), attached (showTextWall txt ms w),
   timers (showTextWall txt ms w)) =
  (requestsOf w, attached w, timers w).
Proof. destruct w; reflexivity. Qed.

Lemma finally_steady now w :
  (requestsOf (finally now w), attached (finally now w)) =
  (requestsOf w, attached w).
Proof. unfold finally, requestsOf. fields w. Qed.

Lemma timerSet_steady now parsed w :
  (requestsOf (timerSet now parsed w), attached (timerSet now parsed w)) =
  (requestsOf w, attached w).
Proof. unfold timerSet, requestsOf. fields w. Qed.

Lemma answered_steady now o w :
  (requestsOf (answered now o w), attached (answered now o w)) =
  (requestsOf w, attached w).
Proof.
  destruct o as [| |agentResponse parsed]; simpl;
    try (destruct w; reflexivity).
  destruct (Str.is_empty agentResponse); [destruct w; reflexivity|].
  destruct (handleEvent_cases now parsed w)
    as [Hq|(obj & _ & _ & _ & Hq)]; rewrite Hq.
  - destruct w; reflexivity.
  - apply timerSet_steady.
Qed.

Lemma afterAgent_steady now o w :
  (requestsOf (processQuery_afterAgent now o w),
   attached (processQuery_afterAgent now o w)) =
  (requestsOf w, attached w).
Proof.
  unfold processQuery_afterAgent.
  rewrite finally_steady, answered_steady. destruct w; reflexivity.
Qed.

Lemma afterFetch_steady now o w :
  (requestsOf (processQuery_afterFetch now o w),
   attached (processQuery_afterFetch now o w)) =
  (requestsOf w, attached w).
Proof.
  unfold processQuery_afterFetch.
  destruct (transcriptionResponseOf o) as [r|]; [|destruct w; reflexivity].
  destruct (segments r) as [segs|]; [|destruct w; reflexivity].
  destruct (rawCombinedTextOf segs) as [rawCombinedText|];
    [|destruct w; reflexivity].
  destruct (isProcessingQuery _); [destruct w; reflexivity|].
  destruct (Nat.eqb _ 0); [|destruct w; reflexivity].
  rewrite finally_steady. destruct w; reflexivity.
Qed.

Lemma handleTranscription_steady now data w :
  (requestsOf (handleTranscription now data w),
   attached (handleTranscription now data w)) =
  (requestsOf w, attached w).
Proof.
  destruct (accepted_dec data w) as [Ha|Hn].
  - rewrite (handleTranscription_accepted now data w Ha).
    set (d := timerDurationOf data (cleanText (text data))).
    transitivity (requestsOf (listening now data w),
                  attached (listening now data w)).
    + unfold rearm, requestsOf. generalize (listening now data w).
      intros v. fields v.
    + unfold listening, showListening, requestsOf.
      destruct (Nat.eqb _ 0).
      * fields w.
      * destruct (processString _ _ _) as [tp out]. fields w.
  - rewrite (handleTranscription_ignored now data w Hn). reflexivity.
Qed.

Lemma cleanup_steady w :
  (requestsOf (cleanup w), attached (cleanup w)) = (requestsOf w, attached w).
Proof.
  unfold cleanup. rewrite clearTimeout_all. unfold clearTimeout, requestsOf.
  fields w.
Qed.

Lemma backendUrl_transcriptUrl now timerDuration w :
  backendUrl now timerDuration w =
  transcriptUrl (serverUrl w) (sessionId w)
    (durationSeconds now timerDuration w).
Proof. reflexivity. Qed.

Lemma durationSeconds_positive now timerDuration w :
  1 <= durationSeconds now timerDuration w.
Proof.
  unfold durationSeconds.
  destruct (0 <? _); [lia|]. destruct (negb _); lia.
Qed.

Lemma step_requests now e w w' :
  step now e w = Some w' ->
  serverUrl w' = serverUrl w /\ sessionId w' = sessionId w /\
  (attached w = false -> attached w' = false) /\
  (fetches w' = fetches w \/
   exists h rawText timerDuration t,
     e = TimerFires h /\ pending h w = Some t /\
     task t = DebounceTask rawText timerDuration /\
     fetches w' = backendUrl now timerDuration w :: fetches w).
Proof.
  destruct e as [data|h|o|o|]; simpl.
  - intros [= <-]. destruct (attached w) eqn:Hat.
    + pose proof (handleTranscription_steady now data w) as Hs.
      unfold requestsOf in Hs. injection Hs as Hu Hi Hf Ha.
      rewrite Hu, Hi, Hf. repeat split; auto. discriminate.
    + auto.
  - destruct (pending h w) as [t|] eqn:Hp; [|discriminate].
    destruct (due now t); [|discriminate]. intros [= <-].
    destruct (task t) as [rawText timerDuration| |labelText timerId] eqn:Ht;
      simpl.
    + repeat split; try (destruct w; reflexivity).
      * intros Ha. destruct w; exact Ha.
      * right. exists h, rawText, timerDuration, t.
        repeat split; try assumption. destruct w; reflexivity.
    + repeat split; try (destruct w; reflexivity).
      * intros Ha. destruct w; exact Ha.
      * left. destruct w; reflexivity.
    + repeat split; try (destruct w; reflexivity).
      * intros Ha. destruct w; exact Ha.
      * left. destruct w; reflexivity.
  - destruct (awaitingFetch w); [discriminate|]. intros [= <-].
    pose proof (afterFetch_steady now o w) as Hs.
    unfold requestsOf in Hs. injection Hs as Hu Hi Hf Ha.
    rewrite Hu, Hi, Hf, Ha. auto.
  - destruct (awaitingAgent w); [discriminate|]. intros [= <-].
    pose proof (afterAgent_steady now o w) as Hs.
    unfold requestsOf in Hs. injection Hs as Hu Hi Hf Ha.
    rewrite Hu, Hi, Hf, Ha. auto.
  - intros [= <-]. destruct (attached w) eqn:Hat; [|auto].
    pose proof (cleanup_steady w) as Hs.
    unfold requestsOf in Hs. injection Hs as Hu Hi Hf Ha.
    replace (serverUrl (set_attached false (cleanup w)))
      with (serverUrl (cleanup w)) by (destruct (cleanup w); reflexivity).
    replace (sessionId (set_attached false (cleanup w)))
      with (sessionId (cleanup w)) by (destruct (cleanup w); reflexivity).
    replace (fetches (set_attached false (cleanup w)))
      with (fetches (cleanup w)) by (destruct (cleanup w); reflexivity).
    rewrite Hu, Hi, Hf. repeat split; auto.
    intros _. destruct (cleanup w); reflexivity.
Qed.

Lemma cleanup_eq w :
  cleanup w =
  set_activeTimers ∅
    (set_timers (List.filter (kept (registered w)) (withoutDebounce w)) w).
Proof.
  unfold cleanup. rewrite clearTimeout_all.
  unfold withoutDebounce, registered, clearTimeout.
  destruct w; simpl. destruct timeoutId0; reflexivity.
Qed.

Lemma filter_twice {A} (p : A -> bool) l :
  List.filter p (List.filter p l) = List.filter p l.
Proof.
  apply filter_all. intros x [_ Hx]%filter_In. exact Hx.
Qed.

(** X22: [cleanup] cancels timers and nothing else, and a second
    [cleanup] changes nothing: the runs in flight stay suspended, the
    display and the flags are as before, and in a world that a session
    reaches no debounce timer is left and the cool-down timer stays. *)
Theorem cleanup_is_idempotent :
  forall w,
    cleanup (cleanup w) = cleanup w /\
    (awaitingFetch (cleanup w), awaitingAgent (cleanup w),
     isProcessingQuery (cleanup w), display (cleanup w)) =
    (awaitingFetch w, awaitingAgent w, isProcessingQuery w, display w) /\
    (reachable w ->
     debounceTimers (cleanup w) = [] /\
     cooldownTimers (cleanup w) = cooldownTimers w).
Proof.
  intros w. split; [|split].
  - rewrite (cleanup_eq (cleanup w)).
    assert (Hreg : registered (cleanup w) = []).
    { unfold registered. rewrite cleanup_activeTimers.
      rewrite map_to_list_empty. reflexivity. }
    rewrite Hreg.
    assert (Hwd : withoutDebounce (cleanup w) = timers (cleanup w)).
    { unfold withoutDebounce.
      pose proof (cleanup_kept w) as Hk.
      injection Hk as _ _ Hid _ _ _ _ _ _ _ _. rewrite Hid.
      destruct (timeoutId w) as [h|] eqn:Hh; [|reflexivity].
      rewrite cleanup_timers. unfold withoutDebounce. rewrite Hh.
      rewrite filter_filter_comm, filter_twice. reflexivity. }
    rewrite Hwd, filter_all by reflexivity.
    rewrite <- (cleanup_activeTimers w) at 1.
    destruct (cleanup w). reflexivity.
  - pose proof (cleanup_kept w) as Hk.
    injection Hk as Hp _ _ _ _ _ Hd _ _ Hf Ha.
    rewrite Hp, Hd, Hf, Ha. reflexivity.
  - intros [Hok _]%reachable_invariant. split.
    + unfold debounceTimers. rewrite cleanup_timers, filter_filter_comm.
      rewrite (filter_none is_debounce (withoutDebounce w)); [reflexivity|].
      intros t Hin. apply (withoutDebounce_none w t Hok Hin).
    + apply cleanup_cooldown, Hok.
Qed.

Lemma no_debounce_filter (p : Timer -> bool) l :
  List.filter is_debounce l = [] ->
  List.filter is_debounce (List.filter p l) = [].
Proof. intros Hl. rewrite filter_filter_comm, Hl. reflexivity. Qed.

Lemma no_debounce_without w :
  debounceTimers w = [] -> List.filter is_debounce (withoutDebounce w) = [].
Proof.
  unfold debounceTimers, withoutDebounce. intros Hl.
  destruct (timeoutId w); [apply no_debounce_filter|]; exact Hl.
Qed.

Lemma no_debounce_finally now w :
  debounceTimers w = [] -> debounceTimers (finally now w) = [].
Proof.
  intros Hl. unfold debounceTimers. rewrite finally_timers, List.filter_app.
  rewrite (no_debounce_without w Hl). reflexivity.
Qed.

Lemma no_debounce_answered now o w :
  debounceTimers w = [] -> debounceTimers (answered now o w) = [].
Proof.
  intros Hl. unfold debounceTimers in *.
  assert (Hwall : forall txt ms,
             timers (showTextWall txt ms w) = timers w)
    by (intros txt ms; destruct w; reflexivity).
  destruct o as [| |agentResponse parsed]; simpl; rewrite ?Hwall; try exact Hl.
  destruct (Str.is_empty agentResponse); [rewrite Hwall; exact Hl|].
  destruct (handleEvent_cases now parsed w)
    as [Hq|(obj & _ & _ & _ & Hq)]; rewrite Hq.
  - rewrite Hwall. exact Hl.
  - rewrite timerSet_timers, List.filter_app, Hl. reflexivity.
Qed.

Lemma no_debounce_afterFetch now o w :
  debounceTimers w = [] ->
  debounceTimers (processQuery_afterFetch now o w) = [].
Proof.
  intros Hl.
  destruct (processQuery_afterFetch_cases now o w)
    as [Hf|(w2 & Hf & ->)].
  - unfold debounceTimers in *. unfold frame in Hf.
    injection Hf as Ht _ _ _. rewrite Ht. exact Hl.
  - apply no_debounce_finally. unfold debounceTimers in *.
    unfold frame in Hf. injection Hf as Ht _ _ _. rewrite Ht. exact Hl.
Qed.

Lemma stopped_step now e w w' :
  stopped w -> step now e w = Some w' ->
  stopped w' /\ fetches w' = fetches w.
Proof.
  intros [Hat Hnd] Hstep.
  destruct (step_requests now e w w' Hstep) as (_ & _ & Ha & Hf).
  specialize (Ha Hat).
  assert (Hfetch : fetches w' = fetches w).
  { destruct Hf as [Hf|(h & rawText & d & t & -> & Hp & Ht & _)];
      [exact Hf|].
    exfalso. apply pending_In in Hp as [Hin _].
    assert (Hd : In t (debounceTimers w)).
    { apply filter_In. split; [exact Hin|].
      unfold is_debounce. rewrite Ht. reflexivity. }
    rewrite Hnd in Hd. destruct Hd. }
  split; [split; [exact Ha|]|exact Hfetch].
  destruct e as [data|h|o|o|]; simpl in Hstep.
  - rewrite Hat in Hstep. injection Hstep as <-. exact Hnd.
  - destruct (pending h w) as [t|] eqn:Hp; [|discriminate].
    destruct (due now t); [|discriminate]. injection Hstep as <-.
    assert (Hc : debounceTimers (clearTimeout h w) = []).
    { unfold debounceTimers, clearTimeout in *.
      replace (timers (set_timers (List.filter (other h) (timers w)) w))
        with (List.filter (other h) (timers w)) by (destruct w; reflexivity).
      apply no_debounce_filter, Hnd. }
    destruct (task t) as [rawText timerDuration| |labelText timerId] eqn:Ht;
      simpl.
    + exfalso. apply pending_In in Hp as [Hin _].
      assert (Hd : In t (debounceTimers w)).
      { apply filter_In. split; [exact Hin|].
        unfold is_debounce. rewrite Ht. reflexivity. }
      rewrite Hnd in Hd. destruct Hd.
    + unfold debounceTimers in *. destruct (clearTimeout h w); exact Hc.
    + unfold debounceTimers in *. destruct (clearTimeout h w); exact Hc.
  - destruct (awaitingFetch w); [discriminate|]. injection Hstep as <-.
    apply no_debounce_afterFetch, Hnd.
  - destruct (awaitingAgent w); [discriminate|]. injection Hstep as <-.
    unfold processQuery_afterAgent.
    apply no_debounce_finally, no_debounce_answered.
    unfold debounceTimers in *. destruct w; exact Hnd.
  - rewrite Hat in Hstep. injection Hstep as <-. exact Hnd.
Qed.

Lemma stopped_run trace w w' :
  stopped w -> run trace w = Some w' ->
  stopped w' /\ fetches w' = fetches w.
Proof.
  revert w. induction trace as [|[now e] trace IH]; intros w Hs; simpl.
  - intros [= <-]. auto.
  - destruct (step now e w) as [w1|] eqn:Hstep; [|discriminate].
    destruct (stopped_step now e w w1 Hs Hstep) as [Hs1 Hf1].
    intros Hrun. destruct (IH w1 Hs1 Hrun) as [Hs' Hf'].
    split; [exact Hs'|congruence].
Qed.

(** X23: once a session has stopped, it starts nothing: whatever
    happens afterwards, fragments, timers that run, a fetch or an agent
    that settles, no debounce timer is ever pending again and no
    transcript is requested. A fragment changes nothing at all. *)
Theorem stopped_session_starts_nothing :
  forall now w,
    reachable w -> attached w = true ->
    exists w1,
      step now OnStop w = Some w1 /\
      stopped w1 /\
      forall trace w',
        run trace w1 = Some w' ->
        stopped w' /\
        fetches w' = fetches w /\
        forall T data, step T (OnTranscription data) w' = Some w'.
Proof.
  intros now w Hreach Hat. eexists. simpl. rewrite Hat.
  split; [reflexivity|].
  assert (Hs : stopped (set_attached false (cleanup w))).
  { split; [destruct (cleanup w); reflexivity|].
    pose proof (reachable_invariant w Hreach) as [Hok _].
    replace (debounceTimers (set_attached false (cleanup w)))
      with (debounceTimers (cleanup w))
      by (unfold debounceTimers; destruct (cleanup w); reflexivity).
    unfold debounceTimers. rewrite cleanup_timers, filter_filter_comm.
    rewrite (filter_none is_debounce (withoutDebounce w)); [reflexivity|].
    intros t Hin. apply (withoutDebounce_none w t Hok Hin). }
  split; [exact Hs|]. intros trace w' Hrun.
  destruct (stopped_run trace _ w' Hs Hrun) as [Hs' Hf'].
  split; [exact Hs'|]. split.
  - rewrite Hf'. pose proof (cleanup_kept w) as Hk.
    injection Hk as _ _ _ _ _ _ _ Hf _ _ _.
    rewrite <- Hf. destruct (cleanup w); reflexivity.
  - intros T data. simpl. destruct Hs' as [-> _]. reflexivity.
Qed.

Lemma run_requests trace w w' :
  run trace w = Some w' ->
  serverUrl w' = serverUrl w /\ sessionId w' = sessionId w /\
  forall P : string -> Prop,
    (forall d, 1 <= d -> P (transcriptUrl (serverUrl w) (sessionId w) d)) ->
    Forall P (fetches w) -> Forall P (fetches w').
Proof.
  revert w. induction trace as [|[now e] trace IH]; intros w; simpl.
  - intros [= <-]. auto.
  - destruct (step now e w) as [w1|] eqn:Hstep; [|discriminate].
    intros Hrun. destruct (IH w1 Hrun) as (Hu & Hi & Hall).
    destruct (step_requests now e w w1 Hstep) as (Hu1 & Hi1 & _ & Hf1).
    split; [congruence|]. split; [congruence|].
    intros P HP Hw. apply Hall.
    + rewrite Hu1, Hi1. exact HP.
    + destruct Hf1 as [->|(h & rawText & d & t & _ & _ & _ & ->)];
        [exact Hw|].
      constructor; [|exact Hw]. rewrite backendUrl_transcriptUrl.
      apply HP, durationSeconds_positive.
Qed.

(** X24: every transcript request of a session goes to the cleaned
    server URL, names the session and asks for at least one second; for a
    session whose raw URL is [wss://host/tpa-ws] the requests go to
    [https://host/api/transcripts/]. *)
Theorem transcript_requests_use_clean_url :
  forall rawUrl sid trace w,
    run trace (onSession rawUrl sid) = Some w ->
    Forall
      (fun u =>
         exists d,
           1 <= d /\
           u = transcriptUrl (ServerUrl.getCleanServerUrl rawUrl) sid d)
      (fetches w) /\
    (forall host,
        rawUrl = Some ("wss://" +:+ host +:+ "/tpa-ws") ->
        Forall
          (fun u =>
             exists d,
               1 <= d /\
               u = "https://" +:+ host +:+ "/api/transcripts/" +:+ sid +:+
                   "?duration=" +:+ pretty d)
          (fetches w)).
Proof.
  intros rawUrl sid trace w Hrun.
  destruct (run_requests trace _ w Hrun) as (_ & _ & Hall).
  assert (Hmain :
    Forall
      (fun u =>
         exists d,
           1 <= d /\
           u = transcriptUrl (ServerUrl.getCleanServerUrl rawUrl) sid d)
      (fetches w)).
  { apply Hall; [|constructor]. intros d Hd. exists d. split; [exact Hd|].
    reflexivity. }
  split; [exact Hmain|]. intros host ->.
  rewrite ServerUrlFacts.getCleanServerUrl_wss in Hmain.
  eapply List.Forall_impl; [|exact Hmain]. intros u (d & Hd & ->).
  exists d. split; [exact Hd|]. unfold transcriptUrl.
  rewrite StrFacts.app_assoc. reflexivity.
Qed.

Lemma run_tracked_stopped k h tm trace w w' :
  handle tm = h -> carries k tm = true ->
  attached w = false ->
  forallb (fun e => undisturbedOrStop k h (snd e)) trace = true ->
  run trace w = Some w' ->
  invariant w -> tracked k h tm w ->
  invariant w' /\ tracked k h tm w'.
Proof.
  intros Hh Hc. revert w.
  induction trace as [|[now e] trace IH]; intros w Hat Hq; simpl.
  - intros [= <-]. auto.
  - simpl in Hq. apply andb_true_iff in Hq as [He Hq].
    destruct (step now e w) as [w1|] eqn:Hstep; [|discriminate].
    intros Hrun Hinv Htr.
    destruct (step_requests now e w w1 Hstep) as (_ & _ & Ha & _).
    apply (IH w1 (Ha Hat) Hq Hrun).
    + apply (step_invariant now e w w1 Hstep Hinv).
    + destruct e as [data|h'|o|o|];
        try (apply (step_tracked k h tm Hh Hc _ _ w w1 He Hstep);
             [apply Hinv|exact Htr]).
      simpl in Hstep. rewrite Hat in Hstep. injection Hstep as <-. exact Htr.
Qed.

(** X25: a timer that an answer sets after the session has stopped is
    out of reach of [cleanup]: as long as it has not run and no other
    timer is set under its identifier it stays pending, further stops
    included, and it shows its notice when it runs. *)
Theorem timer_set_after_stop_outlives_session :
  forall now agentResponse obj w,
    reachable w -> attached w = false -> awaitingAgent w <> 0%nat ->
    Str.is_empty agentResponse = false ->
    prop obj "event" = JStr "timer_set" ->
    truthy (prop obj "duration") = true ->
    (forall t, In t (timers w) -> carries (prop obj "timerId") t = false) ->
    let k := prop obj "timerId" in
    let h := nextHandle w in
    let tm := sideEffectTimer now obj w in
    let w' :=
      processQuery_afterAgent now (AgentText agentResponse (Some obj)) w in
    forall trace w2,
      forallb (fun e => undisturbedOrStop k h (snd e)) trace = true ->
      run trace w' = Some w2 ->
      pending h w2 = Some tm /\
      forall T,
        due T tm = true ->
        exists w3,
          step T (TimerFires h) w2 = Some w3 /\
          display w3 = timerIsUp (labelTextOf obj) :: display w2.
Proof.
  intros now resp obj w Hinv%reachable_invariant Hat Hawait Hresp Hev Hdur
    Hnone k h tm w' trace w2 Hquiet Hrun.
  assert (Hinv' : invariant w')
    by (apply processQuery_afterAgent_invariant; assumption).
  assert (Hat' : attached w' = false).
  { pose proof (afterAgent_steady now (AgentText resp (Some obj)) w) as Hs.
    apply (f_equal snd) in Hs. simpl in Hs. fold w' in Hs. congruence. }
  subst w'. rewrite (afterAgent_timer_set now resp obj w Hresp Hev Hdur) in *.
  set (w1 := set_awaitingAgent _ w) in *.
  assert (Hok1 : structure_ok w1)
    by (apply (structure_ok_frame w); [destruct w; reflexivity|apply Hinv]).
  assert (Hnone1 : forall t, In t (timers w1) -> carries k t = false)
    by (intros t Hin; apply Hnone; destruct w; exact Hin).
  destruct (registered_after_timer_set now obj w1 Hok1 Hnone1) as [Htr _].
  replace (sideEffectTimer now obj w1) with tm in * by (destruct w; reflexivity).
  replace (nextHandle w1) with h in * by (destruct w; reflexivity).
  fold k in Htr.
  assert (Hh : handle tm = h) by reflexivity.
  assert (Hc : carries k tm = true)
    by (unfold carries; simpl; apply bool_decide_eq_true_2; reflexivity).
  destruct (run_tracked_stopped k h tm trace _ w2 Hh Hc Hat' Hquiet Hrun
              Hinv' Htr) as [[Hok2 _] (Hin2 & _ & _)].
  assert (Hpend : pending h w2 = Some tm)
    by (apply find_unique; [apply Hok2|exact Hin2|exact Hh]).
  split; [exact Hpend|]. intros T Hdue. eexists. simpl.
  rewrite Hpend, Hdue. split; [reflexivity|].
  change (task tm) with (SideEffectTask (labelTextOf obj) k).
  destruct w2; reflexivity.
Qed.

(** *** The queries handed to the agent *)







End WithUtils.

End SessionMoreFacts.

(** ** The properties above on sample sessions *)

Module MoreExamples.

Import Session Invariant WakeSpec WakeFacts RemoveFacts SessionFacts
  SessionClaims TimerClaims Sample SessionMore MoreSample.
Import WakeMore WakeMoreFacts Notifications NotificationsFacts.
Import ServerUrl ServerUrlFacts Location LocationFacts SessionMoreFacts.

Lemma reachable_sample trace w :
  run trace start = Some w -> reachable w.
Proof. intros Hrun. exists "session-1", "https://cloud", trace. exact Hrun. Qed.

(** *** Wake words *)

Lemma endsWithWakeWord_has_wake_word_witness :
  hasWakeWord (cleanText "Okay... Hey, Mira!") = true.
Proof.
  apply (endsWithWakeWord_has_wake_word "Okay... Hey, Mira!").
  vm_compute. reflexivity.
Defined.

Lemma removeWakeWord_result_is_stable_witness :
  removeWakeWord (removeWakeWord "hey mira what time is it") =
  removeWakeWord "hey mira what time is it".
Proof.
  apply (proj2 (removeWakeWord_result_is_stable "hey mira what time is it")).
  intros Hocc%occurs_spec. vm_compute in Hocc. discriminate.
Defined.

(** *** Notifications *)

Lemma notifications_are_appended_witness :
  stored "u2" (handlePhoneNotifications (PhoneOne "e") "u1" inbox) =
  stored "u2" inbox.
Proof.
  apply (proj2 (proj2 (proj2 (notifications_are_appended "u1" [] inbox)))
           "u2" (PhoneOne "e")).
  discriminate.
Defined.

Lemma latest_notifications_are_the_newest_witness :
  let latest := getLatestNotifications "u1" (Some 2) inbox in
  (exists older, stored "u1" inbox = older ++ latest) /\
  length latest = Nat.min (Z.to_nat 2) (length (stored "u1" inbox)).
Proof.
  apply (latest_notifications_are_the_newest "u1" (Some 2) inbox).
  simpl. lia.
Defined.

Lemma latest_notifications_without_count_witness :
  getLatestNotifications "u1" (Some (-1)) inbox = drop 1 (stored "u1" inbox).
Proof.
  apply (proj2 (latest_notifications_without_count "u1" inbox) (-1)). lia.
Defined.

Lemma cleared_notifications_are_gone_witness :
  stored "u2" (clearNotifications "u1" inbox) = stored "u2" inbox.
Proof.
  apply (proj1 (proj2 (cleared_notifications_are_gone "u1" [] inbox)) "u2").
  discriminate.
Defined.

(** *** The server URL and the location *)

Lemma getCleanServerUrl_of_other_urls_witness :
  getCleanServerUrl (Some "https://cloud.example/tpa-ws") =
  "https://" +:+ removeSuffix "/tpa-ws" "https://cloud.example/tpa-ws".
Proof.
  apply (proj2 getCleanServerUrl_of_other_urls "h"%char
           "ttps://cloud.example/tpa-ws").
  discriminate.
Defined.

Lemma location_lookups_fail_apart_witness :
  handleLocation (JStr "key") onEquator (Data None) Thrown =
    ([], fallbackLocationContext) /\
  snd (handleLocation (JStr "key") inTown NotOk (Data None)) =
    fallbackLocationContext.
Proof.
  split.
  - apply (proj1 (location_lookups_fail_apart (JStr "key") onEquator
                    (Data None) Thrown)).
    left. vm_compute. reflexivity.
  - apply (proj2 (proj2 (location_lookups_fail_apart (JStr "key") inTown
                           NotOk (Data None)))).
    + right. left. reflexivity.
    + right. right. reflexivity.
Defined.

(** *** The session *)

Lemma processing_flag_is_accounted_witness :
  (isProcessingQuery (after toAgent) = true <->
     (awaitingAgent (after toAgent) = 1%nat /\
      cooldownTimers (after toAgent) = []) \/
     (awaitingAgent (after toAgent) = 0%nat /\
      exists t, cooldownTimers (after toAgent) = [t])) /\
  (isProcessingQuery (after toAgent) = false <->
     awaitingAgent (after toAgent) = 0%nat /\
     cooldownTimers (after toAgent) = []).
Proof.
  apply (processing_flag_is_accounted (after toAgent)).
  apply (reachable_sample toAgent). vm_compute. reflexivity.
Defined.

Lemma cooldown_ignores_fragments_witness :
  handleTranscription 3000 heyMira (after answeredTrace) =
    after answeredTrace /\
  exists w',
    step 4500 (TimerFires 1) (after answeredTrace) = Some w' /\
    isProcessingQuery w' = false /\
    awaitingAgent w' = 0%nat /\
    cooldownTimers w' = [].
Proof.
  assert (Hc : reachable (after answeredTrace) /\
               cooldownTimers (after answeredTrace) <> []).
  { split.
    - apply (reachable_sample answeredTrace). vm_compute. reflexivity.
    - vm_compute. discriminate. }
  destruct (cooldown_ignores_fragments (after answeredTrace)
              (proj1 Hc) (proj2 Hc)) as [Hignored Hruns].
  split; [apply Hignored|].
  apply (Hruns 4500 1%nat
           {| handle := 1; setAt := 2500; delay := 2000;
              task := CooldownTask |}).
  - vm_compute. reflexivity.
  - reflexivity.
  - reflexivity.
Defined.

Lemma fragment_changes_session_iff_accepted_witness :
  nextHandle (handleTranscription 100 heyMira start) = S (nextHandle start).
Proof.
  apply (proj2 (fragment_changes_session_iff_accepted 100 heyMira start)).
  split; [reflexivity|]. left. vm_compute. reflexivity.
Defined.

Lemma start_time_is_taken_once_witness :
  transcriptionStartTime
    (handleAll
       [(100, heyMira);
        (150, {| text := "hey mira what"; isFinal := false |});
        (900, {| text := "hey mira what time is it"; isFinal := true |})]
       start) = 100.
Proof.
  apply (start_time_is_taken_once 100 heyMira _ start).
  - split; [reflexivity|]. left. vm_compute. reflexivity.
  - reflexivity.
  - discriminate.
Defined.

Lemma requested_duration_covers_window_witness :
  let d := durationSeconds 2350 3000 (after wakeOnly) in
  2350 - transcriptionStartTime (after wakeOnly) <= 1000 * d /\
  (d = 1 \/ 1000 * (d - 1) < 2350 - transcriptionStartTime (after wakeOnly)).
Proof.
  apply (proj1 (proj2 (requested_duration_covers_window 2350 3000
                         (after wakeOnly)))).
  vm_compute. reflexivity.
Defined.

Lemma unusable_transcript_shows_one_error_witness :
  display (processQuery_afterFetch 1700 serverError (after toFetch)) =
  retrievalError :: display (after toFetch).
Proof.
  apply (proj1 (proj2 (unusable_transcript_shows_one_error 1700 serverError
                         (after toFetch) eq_refl))).
  reflexivity.
Defined.

Lemma agent_is_called_with_stripped_query_witness :
  agentCalls (after toAgent) =
    "what time is it" :: agentCalls (after toFetch) /\
  Str.trim "what time is it" = "what time is it" /\
  ~ reachesAgent (transcriptWithNull "Hey Mira, what time is it")
      (after toFetch) /\
  processQuery_afterFetch 1700
    (transcriptWithNull "Hey Mira, what time is it") (after toFetch) =
  set_awaitingFetch (Nat.pred (awaitingFetch (after toFetch))) (after toFetch).
Proof.
  destruct (proj1 (agent_is_called_with_stripped_query 1700
                     (transcriptOf "Hey Mira, what time is it")
                     (after toFetch)) "what time is it")
    as (Hcalls & _ & _ & _ & _ & Htrim).
  { eexists. split; [reflexivity|]. split; [vm_compute; reflexivity|].
    split; [reflexivity|]. vm_compute. discriminate. }
  destruct (proj2 (proj2 (agent_is_called_with_stripped_query 1700
                            (transcriptWithNull "Hey Mira, what time is it")
                            (after toFetch)))
              [None; Some {| seg_text := JStr "Hey Mira, what time is it" |}])
    as [Hno Hends].
  { reflexivity. }
  { left. reflexivity. }
  split; [|split; [exact Htrim|split; [exact Hno|exact Hends]]].
  rewrite <- Hcalls. vm_compute. reflexivity.
Defined.

Lemma shown_query_is_short_witness :
  displayQueryOf "what time is it" = "what time is it".
Proof.
  apply (proj1 (proj2 (shown_query_is_short "what time is it"))).
  simpl. lia.
Defined.

Lemma every_answer_shows_one_notice_witness :
  display (after answeredTrace) =
  {| wall := wrapText "It is noon." 30; durationMs := 8000 |}
    :: display (after toAgent).
Proof.
  apply (proj2 (proj2 (proj2 (proj2 (proj2 (proj2
           (every_answer_shows_one_notice 2500
              (AgentText "It is noon." None) (after toAgent)))))))
           "It is noon.").
  - reflexivity.
  - discriminate.
Defined.

Lemma cleanup_is_idempotent_witness :
  debounceTimers (cleanup (after wakeOnly)) = [] /\
  cooldownTimers (cleanup (after wakeOnly)) = cooldownTimers (after wakeOnly).
Proof.
  apply (proj2 (proj2 (cleanup_is_idempotent (after wakeOnly)))).
  apply (reachable_sample wakeOnly). vm_compute. reflexivity.
Defined.

Lemma stopped_session_starts_nothing_witness :
  exists w1,
    step 1800 OnStop (after toAgent) = Some w1 /\
    stopped w1 /\
    forall trace w',
      run trace w1 = Some w' ->
      stopped w' /\
      fetches w' = fetches (after toAgent) /\
      forall T data, step T (OnTranscription data) w' = Some w'.
Proof.
  apply (stopped_session_starts_nothing 1800 (after toAgent)).
  - apply (reachable_sample toAgent). vm_compute. reflexivity.
  - reflexivity.
Defined.

Lemma transcript_requests_use_clean_url_witness :
  Forall
    (fun u =>
       exists d,
         1 <= d /\
         u = "https://" +:+ "cloud.example" +:+ "/api/transcripts/" +:+
             "session-1" +:+ "?duration=" +:+ pretty d)
    (fetches (afterOn toFetch)).
Proof.
  apply (proj2 (transcript_requests_use_clean_url (Some rawSessionUrl)
                  "session-1" toFetch (afterOn toFetch)
                  ltac:(vm_compute; reflexivity)) "cloud.example").
  reflexivity.
Defined.

Lemma timer_set_after_stop_outlives_session_witness :
  let w := after stoppedWithAgent in
  let obj := timerSetEvent 60 "t1" in
  let tm := sideEffectTimer 2000 obj w in
  let w' := processQuery_afterAgent 2000 (timerSetAnswer 60 "t1") w in
  attached w = false /\
  forall w2,
    run afterStop w' = Some w2 ->
    pending (nextHandle w) w2 = Some tm /\
    exists w3,
      step 62000 (TimerFires (nextHandle w)) w2 = Some w3 /\
      display w3 = timerIsUp (labelTextOf obj) :: display w2.
Proof.
  intros w obj tm w'.
  assert (Hw : reachable w)
    by (apply (reachable_sample stoppedWithAgent); vm_compute; reflexivity).
  assert (Hnone : forall t, In t (timers w) ->
                            carries (prop obj "timerId") t = false)
    by (intros t Hin; vm_compute in Hin; destruct Hin).
  split; [reflexivity|]. intros w2 Hrun.
  destruct (timer_set_after_stop_outlives_session 2000
              ("{" +:+ quoted "event" +:+ ":" +:+ quoted "timer_set" +:+
               "," +:+ quoted "duration" +:+ ":" +:+ pretty 60 +:+ "," +:+
               quoted "timerId" +:+ ":" +:+ quoted "t1" +:+ "}")
              obj w Hw eq_refl ltac:(vm_compute; discriminate)
              eq_refl eq_refl eq_refl Hnone afterStop w2 eq_refl Hrun)
    as [Hpend Hfires].
  split; [exact Hpend|]. apply (Hfires 62000). vm_compute. reflexivity.
Defined.


End MoreExamples.
